(** * ask.py: a shallow embedding of the retrieval pipeline of [src/ask.py]

    The development follows the source file top-down: first the Python
    primitives the program relies on (integers, slicing, [range],
    [enumerate], insertion-ordered dictionaries, exceptions), then the
    methods of class [Ask] and the command [search_extract_summarize],
    and finally the properties established about them. *)

From Stdlib Require Import ZArith List Lia Bool Arith.
From Stdlib Require Import Strings.String Strings.Ascii.
From Stdlib Require Import DecimalString DecimalZ DecimalPos.
Import ListNotations.

Local Open Scope string_scope.
Local Open Scope list_scope.
Local Open Scope Z_scope.

(** ** Python primitives *)

Module Py.

(** Exceptions.  The program raises plain [Exception]s; [range] raises
    [ValueError], which is a subclass of [Exception]. *)
Inductive exn : Type :=
| ValueError (msg : string)
| Exception (msg : string).

(** [str(e)] for an exception [e]. *)
Definition exn_str (e : exn) : string :=
  match e with
  | ValueError msg => msg
  | Exception msg => msg
  end.

(** The outcome of a computation that may raise. *)
Inductive result (A : Type) : Type :=
| Ok (a : A)
| Raise (e : exn).
Arguments Ok {A} a.
Arguments Raise {A} e.

Definition bind {A B} (r : result A) (k : A -> result B) : result B :=
  match r with
  | Ok a => k a
  | Raise e => Raise e
  end.

(** [len(s)] as a Python integer. *)
Definition len (s : string) : Z := Z.of_nat (String.length s).

(** Index adjustment of a slice bound, as [PySlice_AdjustIndices] does for
    a positive step: a negative bound counts from the end, and the
    result is clipped to [0 .. length]. *)
Definition adjust_index (length i : Z) : Z :=
  if i <? 0 then Z.max (i + length) 0 else Z.min i length.

(** [s[lo:hi]]. *)
Definition slice (s : string) (lo hi : Z) : string :=
  let start := adjust_index (len s) lo in
  let stop := adjust_index (len s) hi in
  substring (Z.to_nat start) (Z.to_nat (stop - start)) s.

(** [len(range(start, stop, step))] for a non-zero step. *)
Definition range_length (start stop step : Z) : Z :=
  if 0 <? step
  then (if start <? stop then (stop - start - 1) / step + 1 else 0)
  else (if stop <? start then (start - stop - 1) / (- step) + 1 else 0).

(** [range(start, stop, step)]: element [i] is [start + i * step]; a zero
    step raises [ValueError]. *)
Definition range (start stop step : Z) : result (list Z) :=
  if step =? 0
  then Raise (ValueError "range() arg 3 must not be zero")
  else Ok (map (fun i => start + Z.of_nat i * step)
               (seq 0 (Z.to_nat (range_length start stop step)))).

(** [enumerate(l)], with the index as a Python integer. *)
Fixpoint enumerate_from {A} (i : Z) (l : list A) : list (Z * A) :=
  match l with
  | [] => []
  | x :: l' => (i, x) :: enumerate_from (i + 1) l'
  end.

Definition enumerate {A} (l : list A) : list (Z * A) := enumerate_from 0 l.

(** [str(n)] for an integer: decimal digits, a leading minus sign for a
    negative number. *)
Definition str_of_int (n : Z) : string := NilZero.string_of_int (Z.to_int n).

(** A [dict] with [str] keys: the items in insertion order, no key twice. *)
Definition dict (V : Type) : Type := list (string * V).

Definition items {V} (d : dict V) : list (string * V) := d.

Definition keys {V} (d : dict V) : list string := map fst d.

Fixpoint get {V} (d : dict V) (k : string) : option V :=
  match d with
  | [] => None
  | (k', v) :: d' => if String.eqb k k' then Some v else get d' k
  end.

(** [d[k] = v]: an existing key keeps its place, a new key goes last. *)
Fixpoint set {V} (d : dict V) (k : string) (v : V) : dict V :=
  match d with
  | [] => [(k, v)]
  | (k', v') :: d' =>
      if String.eqb k k' then (k, v) :: d' else (k', v') :: set d' k v
  end.

(** The representation invariant of a dictionary. *)
Definition wf {V} (d : dict V) : Prop := NoDup (keys d).

End Py.

Import Py.

(** String concatenation, as Python's [+] on [str] and the fields of an
    f-string. *)
Infix "+++" := String.append (right associativity, at level 60).

Notation "x <- r ;; k" := (Py.bind r (fun x => k))
  (at level 61, r at next level, right associativity).

(** ** [Ask.chunk_results] *)

(** The inner loop of [chunk_results]: the fragments of one text. *)
Definition chunk_text (text : string) (size overlap : Z) : result (list string) :=
  positions <- Py.range 0 (len text) (size - overlap) ;;
  Ok (fold_left (fun chunks pos => chunks ++ [slice text pos (pos + size)])
                positions []).

(** The outer loop of [chunk_results], over the items of [scrape_results]. *)
Fixpoint chunk_loop (its : list (string * string)) (size overlap : Z)
    (chunking_results : dict (list string)) : result (dict (list string)) :=
  match its with
  | [] => Ok chunking_results
  | (url, text) :: rest =>
      chunks <- chunk_text text size overlap ;;
      chunk_loop rest size overlap (Py.set chunking_results url chunks)
  end.

Definition chunk_results (scrape_results : dict string) (size overlap : Z)
  : result (dict (list string)) :=
  chunk_loop (items scrape_results) size overlap [].

(** ** Text normalisation used by [scrape_urls]

    A character of the model stands for one code point in the range
    0..255; [isspace] is Python's [str.isspace] on that range. *)

Definition isspace (c : ascii) : bool :=
  let n := nat_of_ascii c in
  ((9 <=? n) && (n <=? 13) || (28 <=? n) && (n <=? 32)
   || (n =? 133) || (n =? 160))%nat.

Definition is_empty (s : string) : bool :=
  match s with
  | EmptyString => true
  | String _ _ => false
  end.

(** [s.split()]: the maximal runs of non-space characters; [word] is the
    run being read. *)
Fixpoint split_from (s : string) (word : string) : list string :=
  match s with
  | EmptyString => if is_empty word then [] else [word]
  | String c s' =>
      if isspace c
      then (if is_empty word then split_from s' EmptyString
            else word :: split_from s' EmptyString)
      else split_from s' (word +++ String c EmptyString)
  end.

Definition split (s : string) : list string := split_from s EmptyString.

Fixpoint lstrip (s : string) : string :=
  match s with
  | EmptyString => EmptyString
  | String c s' => if isspace c then lstrip s' else s
  end.

Fixpoint rstrip (s : string) : string :=
  match s with
  | EmptyString => EmptyString
  | String c s' =>
      let r := rstrip s' in
      if is_empty r && isspace c then EmptyString else String c r
  end.

Definition strip (s : string) : string := lstrip (rstrip s).

(** [" ".join(body_text.split()).strip()] *)
Definition normalize (body_text : string) : string :=
  strip (String.concat " " (split body_text)).

(** ** Logging, events and the run monad *)

Inductive level : Type := DEBUG | INFO | WARNING | ERROR.

Definition levelno (l : level) : Z :=
  match l with
  | DEBUG => 10
  | INFO => 20
  | WARNING => 30
  | ERROR => 40
  end.

(** A logger is known by the level [get_logger] sets on it. *)
Definition Logger : Type := level.

Definition get_logger (log_level : level) : Logger := log_level.

(** The metadata stored with a fragment: [{"url": url, "chunk": i}]. *)
Record Metadata : Type := { md_url : string; md_chunk : Z }.

(** One entry returned by [Memory.search], as far as the program reads
    it: [result['chunk']] and [result['metadata']]. *)
Record Result : Type := { res_chunk : string; res_metadata : Metadata }.

(** The model [_get_chat_model] builds. *)
Record ChatModel : Type := {
  cm_model_name : string;
  cm_openai_api_key : option string;
  cm_openai_api_base : string;
  cm_temperature : Z
}.

Inductive message : Type :=
| SystemMessage (content : string)
| HumanMessage (content : string).

(** What the program does to the outside, in the order it does it.
    [EvLog logger l msg] is a call of the logging method of level [l] on
    [logger]. *)
Inductive event : Type :=
| EvLog (logger : Logger) (l : level) (msg : string)
| EvEcho (line : string)
| EvSearchRequest (url : string)
| EvGet (url : string)
| EvSave (texts : string) (metadata : Metadata)
| EvVectorSearch (query : string) (top_n : Z)
| EvChat (model : ChatModel) (messages : list message).

(** One element of the [items] of the search reply: [result.get("link")]
    and the text [f"{result}"] of the element. *)
Record search_item : Type := { item_link : option string; item_repr : string }.

(** [json.loads(resp.text)], by the cases [search_web] tells apart, in the
    order it tests them: the reply has an ["error"] key; it has no
    ["searchInformation"] key; its [totalResults] equals 0; otherwise
    [search_results_dict.get("items", [])], which may be [None]. *)
Inductive search_reply : Type :=
| ReplyError (error : string)
| ReplyNoSearchInformation (text : string)
| ReplyZeroResults
| ReplyItems (its : option (list search_item)).

(** The collaborators of the pipeline.  Every call outside the process
    may answer differently each time: its answer is a function of the
    events so far.  [M] is the state of the [vectordb.Memory] object.
    - [environ] is [os.environ.get], [quote] is [urllib.parse.quote];
    - [search_api] is [requests.get(url)] followed by [json.loads]; it
      raises when either does, or when there is no response;
    - [http_get] is [session.get(url, timeout=10)] followed by the
      parsing of the page: [None] when [soup.body] is missing, the text
      [body_tag.get_text()] otherwise;
    - [Memory_new] is [from vectordb import Memory] followed by
      [Memory()]: the object built, or the exception of the import or of
      the constructor; [Memory_save] and [Memory_search] are the methods
      [save] and [search] of the object;
    - [chat_api] is the call of the chat model on the messages: [None]
      when there is no response, [response.content] otherwise;
    - [repr_result] is the text [f"{result}"] of a retrieval result. *)
Record World (M : Type) : Type := {
  environ : string -> option string;
  quote : string -> string;
  search_api : list event -> string -> result search_reply;
  http_get : list event -> string -> result (option string);
  Memory_new : result M;
  Memory_save : M -> string -> Metadata -> result M;
  Memory_search : M -> string -> Z -> result (list Result);
  chat_api : list event -> ChatModel -> list message -> result (option string);
  repr_result : Result -> string
}.
Arguments environ {M} _ _.
Arguments quote {M} _ _.
Arguments search_api {M} _ _ _.
Arguments http_get {M} _ _ _.
Arguments Memory_new {M} _.
Arguments Memory_save {M} _ _ _ _.
Arguments Memory_search {M} _ _ _ _.
Arguments chat_api {M} _ _ _ _.
Arguments repr_result {M} _ _.

(** A computation that appends to the trace of events and may raise. *)
Definition run (A : Type) : Type := list event -> result A * list event.

Definition ret {A} (a : A) : run A := fun tr => (Ok a, tr).

Definition rbind {A B} (c : run A) (k : A -> run B) : run B :=
  fun tr =>
    match c tr with
    | (Ok a, tr') => k a tr'
    | (Raise e, tr') => (Raise e, tr')
    end.

Definition raise {A} (e : exn) : run A := fun tr => (Raise e, tr).

Definition lift {A} (r : result A) : run A := fun tr => (r, tr).

Definition emit (e : event) : run unit := fun tr => (Ok tt, tr ++ [e]).

(** [try: c except Exception as e: h e] *)
Definition try_except {A} (c : run A) (h : exn -> run A) : run A :=
  fun tr =>
    match c tr with
    | (Ok a, tr') => (Ok a, tr')
    | (Raise e, tr') => h e tr'
    end.

Declare Scope run_scope.
Delimit Scope run_scope with run.
Notation "x <-- c ;; k" := (rbind c (fun x => k))
  (at level 61, c at next level, right associativity) : run_scope.
Notation "c ;;; k" := (rbind c (fun _ => k))
  (at level 61, right associativity) : run_scope.

(** [for x in l: body x] *)
Fixpoint for_each {A} (l : list A) (body : A -> run unit) : run unit :=
  match l with
  | [] => ret tt
  | x :: l' => (body x ;;; for_each l' body)%run
  end.

(** [logger.debug(msg)], [logger.info(msg)], ... *)
Definition log (logger : Logger) (l : level) (msg : string) : run unit :=
  emit (EvLog logger l msg).

(** A record reaches the handler when its level is at least the logger's. *)
Definition handled (e : event) : bool :=
  match e with
  | EvLog logger l _ => levelno logger <=? levelno l
  | _ => true
  end.

Definition nl : string := String "010"%char EmptyString.
Definition dquote : string := String "034"%char EmptyString.

(** An f-string field holding a value that may be [None]. *)
Definition fmt_opt (o : option string) : string :=
  match o with
  | Some s => s
  | None => "None"
  end.

(** ** Class [Ask] *)

(** The attributes of an [Ask] object.  A credential read from the
    environment is [None] when the variable is not set. *)
Record Ask (M : Type) : Type := {
  search_api_key : option string;
  search_project_id : option string;
  llm_api_key : option string;
  llm_base_url : string;
  logger : Logger;
  memory : M
}.
Arguments search_api_key {M} _.
Arguments search_project_id {M} _.
Arguments llm_api_key {M} _.
Arguments llm_base_url {M} _.
Arguments logger {M} _.
Arguments memory {M} _.

(** The line [read_env_variables] adds to [err_msg] for a variable. *)
Definition not_set_line (name : string) : string :=
  name +++ " env variable not set." +++ nl.

(** [err_msg += ...] when the value read is [None]. *)
Definition note_missing (err_msg : string) (value : option string)
    (name : string) : string :=
  match value with
  | None => err_msg +++ not_set_line name
  | Some _ => err_msg
  end.

(** The command-line options of [search_extract_summarize]. *)
Record Options : Type := {
  opt_query : string;
  opt_date_restrict : option Z;
  opt_target_site : option string;
  opt_model_name : string;
  opt_log_level : level
}.

Section Pipeline.

Context {M : Type} (W : World M).

(** [read_env_variables]: the four values read, or the exception. *)
Definition read_env_variables
  : result (option string * option string * option string * string) :=
  let err_msg := EmptyString in
  let search_api_key := environ W "SEARCH_API_KEY" in
  let err_msg := note_missing err_msg search_api_key "SEARCH_API_KEY" in
  let search_project_id := environ W "SEARCH_PROJECT_KEY" in
  let err_msg := note_missing err_msg search_project_id "SEARCH_PROJECT_KEY" in
  let llm_api_key := environ W "LLM_API_KEY" in
  let err_msg := note_missing err_msg llm_api_key "LLM_API_KEY" in
  if negb (is_empty err_msg)
  then Raise (Exception (nl +++ err_msg +++ nl))
  else
    let llm_base_url :=
      match environ W "LLM_BASE_URL" with
      | Some u => u
      | None => "https://api.openai.com/v1"
      end in
    Ok (search_api_key, search_project_id, llm_api_key, llm_base_url).

(** [Ask.__init__]: the environment is read, then the logger is set, then
    [vectordb] is imported and the memory built; each step may raise. *)
Definition Ask_init (logger : option Logger) : run (Ask M) :=
  (env <-- lift read_env_variables ;;
   let '(search_api_key, search_project_id, llm_api_key, llm_base_url) := env in
   let logger :=
     match logger with
     | Some l => l
     | None => get_logger INFO
     end in
   memory <-- lift (Memory_new W) ;;
   ret {| search_api_key := search_api_key;
          search_project_id := search_project_id;
          llm_api_key := llm_api_key;
          llm_base_url := llm_base_url;
          logger := logger;
          memory := memory |})%run.

(** The request URL [search_web] builds. *)
Definition search_url (self : Ask M) (query : string)
    (date_restrict : option Z) (target_site : option string) : string :=
  let escaped_query := quote W query in
  let url_base :=
    "https://www.googleapis.com/customsearch/v1?key=" +++ fmt_opt (search_api_key self)
    +++ "&cx=" +++ fmt_opt (search_project_id self) +++ "&q=" +++ escaped_query in
  let url_paras := "&safe=active" in
  let url_paras :=
    match date_restrict with
    | Some d => if 0 <? d then url_paras +++ "&dateRestrict=" +++ str_of_int d
                else url_paras
    | None => url_paras
    end in
  let url_paras :=
    match target_site with
    | Some site =>
        if is_empty site then url_paras
        else url_paras +++ "&siteSearch=" +++ site +++ "&siteSearchFilter=i"
    | None => url_paras
    end in
  url_base +++ url_paras.

(** The loop of [search_web] over the result items. *)
Fixpoint collect_links (self : Ask M) (results : list search_item)
    (found_links : list string) : run (list string) :=
  match results with
  | [] => ret found_links
  | result :: rest =>
      match item_link result with
      | Some link =>
          if is_empty link
          then (log (logger self) WARNING
                    ("Search result link missing: " +++ item_repr result) ;;;
                collect_links self rest found_links)%run
          else collect_links self rest (found_links ++ [link])
      | None =>
          (log (logger self) WARNING
               ("Search result link missing: " +++ item_repr result) ;;;
           collect_links self rest found_links)%run
      end
  end.

(** [search_web] *)
Definition search_web (self : Ask M) (query : string)
    (date_restrict : option Z) (target_site : option string) : run (list string) :=
  (let url := search_url self query date_restrict target_site in
   log (logger self) DEBUG ("Searching for query: " +++ query) ;;;
   emit (EvSearchRequest url) ;;;
   reply <-- (fun tr => (search_api W tr url, tr)) ;;
   match reply with
   | ReplyError error =>
       raise (Exception ("Error in search API response: " +++ error))
   | ReplyNoSearchInformation text =>
       raise (Exception ("No search information in search API response: " +++ text))
   | ReplyZeroResults =>
       log (logger self) WARNING ("No results found for query: " +++ query) ;;;
       ret []
   | ReplyItems None
   | ReplyItems (Some []) =>
       log (logger self) WARNING
           ("No result items in the response for query: " +++ query) ;;;
       ret []
   | ReplyItems (Some results) => collect_links self results []
   end)%run.

(** One turn of the loop of [scrape_urls]: the body of the [try]. *)
Definition scrape_one (self : Ask M) (url : string)
    (scrape_results : dict string) : run (dict string) :=
  (emit (EvGet url) ;;;
   body_tag <-- (fun tr => (http_get W tr url, tr)) ;;
   match body_tag with
   | Some body_text =>
       let body_text := normalize body_text in
       let scrape_results := Py.set scrape_results url body_text in
       log (logger self) DEBUG ("Scraped " +++ url +++ ": " +++ body_text +++ "...") ;;;
       ret scrape_results
   | None =>
       log (logger self) WARNING
           ("No body tag found in the response for url: " +++ url) ;;;
       ret scrape_results
   end)%run.

Fixpoint scrape_loop (self : Ask M) (urls : list string)
    (scrape_results : dict string) : run (dict string) :=
  match urls with
  | [] => ret scrape_results
  | url :: rest =>
      (scrape_results <--
         try_except (scrape_one self url scrape_results)
           (fun e =>
              log (logger self) ERROR
                  ("scraping error " +++ url +++ ": " +++ exn_str e) ;;;
              ret scrape_results) ;;
       scrape_loop self rest scrape_results)%run
  end.

(** [scrape_urls] *)
Definition scrape_urls (self : Ask M) (urls : list string) : run (dict string) :=
  scrape_loop self urls [].

(** The inner loop of [save_to_db]: the fragments of one source. *)
Fixpoint save_chunks (url : string) (chunks : list (Z * string)) (memory : M)
  : run M :=
  match chunks with
  | [] => ret memory
  | (i, chunk) :: rest =>
      (let metadata := {| md_url := url; md_chunk := i |} in
       emit (EvSave chunk metadata) ;;;
       memory <-- lift (Memory_save W memory chunk metadata) ;;
       save_chunks url rest memory)%run
  end.

Fixpoint save_loop (its : list (string * list string)) (memory : M) : run M :=
  match its with
  | [] => ret memory
  | (url, chunks) :: rest =>
      (memory <-- save_chunks url (enumerate chunks) memory ;;
       save_loop rest memory)%run
  end.

(** [save_to_db]: the object with its memory updated. *)
Definition save_to_db (self : Ask M) (chunking_results : dict (list string))
  : run (Ask M) :=
  (memory <-- save_loop (items chunking_results) (memory self) ;;
   ret {| search_api_key := search_api_key self;
          search_project_id := search_project_id self;
          llm_api_key := llm_api_key self;
          llm_base_url := llm_base_url self;
          logger := logger self;
          memory := memory |})%run.

(** [vector_search] *)
Definition vector_search (self : Ask M) (query : string) : run (list Result) :=
  (emit (EvVectorSearch query 10) ;;;
   lift (Memory_search W (memory self) query 10))%run.

(** [_get_chat_model] *)
Definition get_chat_model (self : Ask M) (model_name : string) : ChatModel :=
  {| cm_model_name := model_name;
     cm_openai_api_key := llm_api_key self;
     cm_openai_api_base := llm_base_url self;
     cm_temperature := 0 |}.

Definition system_prompt : message :=
  SystemMessage
    "You are expert summarizing the answers based on the provided contents.".

(** [user_prompt_template.format(query=query, context=context)] *)
Definition user_prompt (query context : string) : string :=
  nl
  +++ "Given the context as a sequence of references with a reference id in the " +++ nl
  +++ "format of a leading [x], please answer the following question:" +++ nl
  +++ nl
  +++ query +++ nl
  +++ nl
  +++ "In the answer, use format [1], [2], ..., [n] in line where the reference is used. " +++ nl
  +++ "For example, " +++ dquote +++ "According to the research from Google[3], ..." +++ dquote +++ "." +++ nl
  +++ nl
  +++ "Please create the answer strictly related to the context. If the context has no" +++ nl
  +++ "information about the query, please write " +++ dquote
  +++ "No related information found in the context." +++ dquote +++ nl
  +++ nl
  +++ "Here is the context:" +++ nl
  +++ context +++ nl.

(** The entry [run_inference] adds to the context for the [i]-th match. *)
Definition context_entry (i : Z) (chunk : Result) : string :=
  "[" +++ str_of_int (i + 1) +++ "] " +++ res_chunk chunk +++ nl.

(** The loop of [run_inference] building [context]. *)
Definition build_context (matched_chunks : list Result) : string :=
  fold_left (fun context ic => context +++ context_entry (fst ic) (snd ic))
            (enumerate matched_chunks) EmptyString.

(** [run_inference] *)
Definition run_inference (self : Ask M) (query model_name : string)
    (matched_chunks : list Result) : run string :=
  (let context := build_context matched_chunks in
   let human_message := HumanMessage (user_prompt query context) in
   log (logger self) DEBUG ("Running inference with model: " +++ model_name) ;;;
   log (logger self) DEBUG ("Final user prompt: " +++ user_prompt query context) ;;;
   let chat := get_chat_model self model_name in
   emit (EvChat chat [system_prompt; human_message]) ;;;
   response <-- (fun tr => (chat_api W tr chat [system_prompt; human_message], tr)) ;;
   match response with
   | None => raise (Exception "No completion from the API")
   | Some content => ret content
   end)%run.

(** The line [search_extract_summarize] prints for the [i]-th result. *)
Definition reference_line (i : Z) (result : Result) : string :=
  "[" +++ str_of_int (i + 1) +++ "] " +++ md_url (res_metadata result).

(** The check mark of the progress messages, in UTF-8. *)
Definition check_mark : string :=
  String "226"%char (String "156"%char (String "133"%char EmptyString)).

(** ** The command [search_extract_summarize] *)
Definition search_extract_summarize (o : Options) : run unit :=
  (let query := opt_query o in
   let logger := get_logger (opt_log_level o) in
   ask <-- Ask_init (Some logger) ;;
   log logger INFO (check_mark +++ " Searching the web ...") ;;;
   links <-- search_web ask query (opt_date_restrict o) (opt_target_site o) ;;
   log logger INFO (check_mark +++ " Found " +++ str_of_int (Z.of_nat (List.length links))
                    +++ " links for query: " +++ query) ;;;
   for_each (enumerate links)
     (fun il => log logger DEBUG (str_of_int (fst il + 1) +++ ". " +++ snd il)) ;;;
   log logger INFO (check_mark +++ " Scraping the URLs ...") ;;;
   scrape_results <-- scrape_urls ask links ;;
   log logger INFO (check_mark +++ " Scraped "
                    +++ str_of_int (Z.of_nat (List.length scrape_results)) +++ " URLs ...") ;;;
   log logger INFO (check_mark +++ " Chunking the text ...") ;;;
   chunking_results <-- lift (chunk_results scrape_results 1000 100) ;;
   for_each (items chunking_results)
     (fun uc =>
        log logger DEBUG ("URL: " +++ fst uc) ;;;
        for_each (enumerate (snd uc))
          (fun ic => log logger DEBUG
                       ("Chunk " +++ str_of_int (fst ic + 1) +++ ": " +++ snd ic))) ;;;
   log logger INFO (check_mark +++ " Saving to vector DB ...") ;;;
   ask <-- save_to_db ask chunking_results ;;
   log logger INFO (check_mark +++ " Querying the vector DB to get context ...") ;;;
   results <-- vector_search ask query ;;
   for_each (enumerate results)
     (fun ir => log logger DEBUG
                  (str_of_int (fst ir + 1) +++ ". " +++ repr_result W (snd ir))) ;;;
   log logger INFO (check_mark +++ " Running inference with context ...") ;;;
   answer <-- run_inference ask query (opt_model_name o) results ;;
   log logger INFO (check_mark +++ " Finished inference, generating output ...") ;;;
   emit (EvEcho ("# Answer" +++ nl +++ nl +++ answer +++ nl)) ;;;
   emit (EvEcho "# References") ;;;
   for_each (enumerate results)
     (fun ir => emit (EvEcho (reference_line (fst ir) (snd ir)))))%run.

End Pipeline.

(** ** The embedding index behind [self.memory] *)

Module EmbeddingIndex.

Section Index.

(** The type of vectors and the injected embedding function. *)
Context {V : Type} (embed : string -> V).

Record Fragment : Type := {
  source_id : string;
  sequence_index : Z;
  text : string
}.

Record IndexedEntry : Type := {
  fragment : Fragment;
  vector : V;
  inserted_order : Z
}.

(** The stored entries and the counter that numbers insertions. *)
Record t : Type := {
  entries : list IndexedEntry;
  counter : Z
}.

Definition empty : t := {| entries := []; counter := 0 |}.

(** The identity of a fragment: its source and its position there. *)
Definition has_identity (url : string) (i : Z) (f : Fragment) : bool :=
  String.eqb url (source_id f) && (i =? sequence_index f).

Fixpoint overwrite (e : IndexedEntry) (l : list IndexedEntry)
  : list IndexedEntry :=
  match l with
  | [] => [e]
  | e' :: l' =>
      if has_identity (source_id (fragment e)) (sequence_index (fragment e))
                      (fragment e')
      then e :: l'
      else e' :: overwrite e l'
  end.

(** Modelled from the spec: [vectordb.Memory] is imported by [ask.py] and
    its code is not part of the source tree.  Section 4.2 of the
    specification gives the contract of [insert]: the vector of the
    fragment is computed by the injected embedding function, the entry
    gets the next value of the insertion counter, and an entry with the
    same source and sequence index is overwritten, not duplicated. *)
Definition insert (f : Fragment) (idx : t) : t :=
  {| entries :=
       overwrite {| fragment := f;
                    vector := embed (text f);
                    inserted_order := counter idx |} (entries idx);
     counter := counter idx + 1 |}.

(** [Memory.save(texts=chunk, metadata={"url": url, "chunk": i})] on this
    index. *)
Definition save (idx : t) (texts : string) (metadata : Metadata) : result t :=
  Ok (insert {| source_id := md_url metadata;
                sequence_index := md_chunk metadata;
                text := texts |} idx).

(** The entries stored under one identity. *)
Definition entries_of (url : string) (i : Z) (idx : t) : list IndexedEntry :=
  filter (fun e => has_identity url i (fragment e)) (entries idx).

(** No identity is stored twice. *)
Definition wf (idx : t) : Prop :=
  NoDup (map (fun e => (source_id (fragment e), sequence_index (fragment e)))
             (entries idx)).

End Index.

Arguments Fragment : clear implicits.
Arguments IndexedEntry : clear implicits.
Arguments t : clear implicits.

End EmbeddingIndex.

(** ** Two small worlds, used to run the definitions *)

Module Sample.

Definition embed (s : string) : nat := String.length s.

Definition to_result (e : EmbeddingIndex.IndexedEntry nat) : Result :=
  {| res_chunk := EmbeddingIndex.text (EmbeddingIndex.fragment e);
     res_metadata :=
       {| md_url := EmbeddingIndex.source_id (EmbeddingIndex.fragment e);
          md_chunk := EmbeddingIndex.sequence_index (EmbeddingIndex.fragment e) |} |}.

(** A world with all credentials set: the search finds two pages, the
    first of which cannot be fetched. *)
Definition world : World (EmbeddingIndex.t nat) :=
  {| environ := fun name =>
       if String.eqb name "LLM_BASE_URL" then None else Some "secret";
     quote := fun q => q;
     search_api := fun _ _ =>
       Ok (ReplyItems (Some [ {| item_link := Some "http://a"; item_repr := "a" |};
                              {| item_link := Some "http://b"; item_repr := "b" |} ]));
     http_get := fun _ url =>
       if String.eqb url "http://a" then Raise (Exception "timed out")
       else Ok (Some "  ABCDEFGHIJ   KLM ");
     Memory_new := Ok EmbeddingIndex.empty;
     Memory_save := EmbeddingIndex.save embed;
     Memory_search := fun m _ top_n =>
       Ok (map to_result (firstn (Z.to_nat top_n) (EmbeddingIndex.entries m)));
     chat_api := fun _ _ _ => Ok (Some "An answer [1].");
     repr_result := fun r => res_chunk r |}.

(** The same world with no environment variable set. *)
Definition bare_world : World (EmbeddingIndex.t nat) :=
  {| environ := fun _ => None;
     quote := quote world;
     search_api := search_api world;
     http_get := http_get world;
     Memory_new := Memory_new world;
     Memory_save := Memory_save world;
     Memory_search := Memory_search world;
     chat_api := chat_api world;
     repr_result := repr_result world |}.

(** The object [Ask.__init__] builds in [world]. *)
Definition ask : Ask (EmbeddingIndex.t nat) :=
  {| search_api_key := Some "secret";
     search_project_id := Some "secret";
     llm_api_key := Some "secret";
     llm_base_url := "https://api.openai.com/v1";
     logger := get_logger INFO;
     memory := EmbeddingIndex.empty |}.

Definition options : Options :=
  {| opt_query := "what";
     opt_date_restrict := None;
     opt_target_site := None;
     opt_model_name := "gpt-4o-mini";
     opt_log_level := INFO |}.

End Sample.

(** ** Notions used to state the properties *)

(** The windows of [text] of a given size and stride, as a list
    comprehension. *)
Definition windows (text : string) (size stride : Z) : list string :=
  map (fun i => slice text (Z.of_nat i * stride) (Z.of_nat i * stride + size))
      (seq 0 (Z.to_nat (range_length 0 (len text) stride))).

(** The fragments of every text of a mapping. *)
Definition windows_of (d : dict string) (size stride : Z) : dict (list string) :=
  map (fun ut => (fst ut, windows (snd ut) size stride)) d.

(** The pages requested along a trace. *)
Definition requests (tr : list event) : list string :=
  flat_map (fun e => match e with EvGet url => [url] | _ => [] end) tr.

(** A fetch that puts nothing in the mapping: an exception, or a page
    with no body. *)
Definition fetch_fails (r : result (option string)) : Prop :=
  match r with
  | Ok (Some _) => False
  | _ => True
  end.

(** The record [scrape_urls] logs for a source it skips. *)
Definition failure_record (logger : Logger) (url : string) (ev : event) : Prop :=
  (exists e, ev = EvLog logger ERROR
                    ("scraping error " +++ url +++ ": " +++ exn_str e))
  \/ ev = EvLog logger WARNING
                ("No body tag found in the response for url: " +++ url).

(** The environment variables the pipeline cannot run without. *)
Definition credentials : list string :=
  ["SEARCH_API_KEY"; "SEARCH_PROJECT_KEY"; "LLM_API_KEY"].

(** [sub] occurs in [s]. *)
Definition occurs_in (sub s : string) : Prop :=
  exists pre post, s = pre +++ sub +++ post.

(** What [read_env_variables] adds to the message for one variable. *)
Definition noted {M : Type} (W : World M) (name : string) : string :=
  match environ W name with
  | None => not_set_line name
  | Some _ => EmptyString
  end.

(** *** Observing a run

    A property of a run is stated on what an observer [obs] sees of the
    events the run adds to the trace. *)
Section Observation.

Context {X : Type} (obs : event -> list X).

Definition view (tr : list event) : list X := flat_map obs tr.

(** [c] always returns, having only added events to the trace; what was
    added satisfies [Q] with the value returned, or [E] when [c] raised. *)
Definition hoare {A} (c : run A) (Q : A -> list X -> Prop)
    (E : list X -> Prop) : Prop :=
  forall tr, exists ext r,
    c tr = (r, tr ++ ext) /\
    match r with
    | Ok a => Q a (view ext)
    | Raise _ => E (view ext)
    end.

(** [c] adds nothing the observer sees. *)
Definition quiet {A} (c : run A) : Prop :=
  hoare c (fun _ s => s = []) (fun s => s = []).

End Observation.

(** The fragments handed to the index along a trace. *)
Definition saved (e : event) : list (string * Metadata) :=
  match e with
  | EvSave texts metadata => [(texts, metadata)]
  | _ => []
  end.

(** The fragments of one source, with their metadata, for a list of
    fragments. *)
Definition labelled (url : string) (chunks : list string)
  : list (string * Metadata) :=
  map (fun ic => (snd ic, {| md_url := url; md_chunk := fst ic |}))
      (enumerate chunks).

(** The windows of size 1000 at stride 900 of every scraped text, in the
    order of the mapping. *)
Definition expected_saves (scrape_results : dict string)
  : list (string * Metadata) :=
  flat_map (fun ut => labelled (fst ut) (windows (snd ut) 1000 900))
           scrape_results.

(** What the generation call is given and what the user is shown. *)
Inductive output : Type :=
| Prompt (messages : list message)
| Line (s : string).

Definition shown (e : event) : list output :=
  match e with
  | EvChat _ messages => [Prompt messages]
  | EvEcho line => [Line line]
  | _ => []
  end.

(** The concatenation of a list of strings. *)
Definition concat_all (l : list string) : string :=
  fold_right String.append EmptyString l.

(** The fragments [save_to_db] hands to the index for a mapping, in
    order. *)
Definition fragments_of (chunking_results : dict (list string))
  : list EmbeddingIndex.Fragment :=
  flat_map
    (fun uc =>
       map (fun ic => {| EmbeddingIndex.source_id := fst uc;
                         EmbeddingIndex.sequence_index := fst ic;
                         EmbeddingIndex.text := snd ic |})
           (enumerate (snd uc)))
    chunking_results.

(** The identity of a fragment. *)
Definition ident (f : EmbeddingIndex.Fragment) : string * Z :=
  (EmbeddingIndex.source_id f, EmbeddingIndex.sequence_index f).

(** The links [search_web] keeps from the items of a reply, as a list
    comprehension: the links that are present and not empty. *)
Definition links_of (results : list search_item) : list string :=
  flat_map (fun result =>
              match item_link result with
              | Some link => if is_empty link then [] else [link]
              | None => []
              end) results.

(** The history at which [search_web] reads the reply of the search API:
    after its debug record and the request. *)
Definition search_history {M : Type} (W : World M) (self : Ask M)
    (query : string) (date_restrict : option Z) (target_site : option string)
    (tr : list event) : list event :=
  tr ++ [EvLog (logger self) DEBUG ("Searching for query: " +++ query);
         EvSearchRequest (search_url W self query date_restrict target_site)].

(** A warning logged on [logger]. *)
Definition is_warning (logger : Logger) (e : event) : Prop :=
  exists msg, e = EvLog logger WARNING msg.

(** No character of [s] is a whitespace. *)
Fixpoint no_space (s : string) : bool :=
  match s with
  | EmptyString => true
  | String c s' => negb (isspace c) && no_space s'
  end.

(** Every character of [s] is a whitespace. *)
Fixpoint all_space (s : string) : bool :=
  match s with
  | EmptyString => true
  | String c s' => isspace c && all_space s'
  end.

(** The characters of [s] that are not whitespace, in order. *)
Fixpoint non_spaces (s : string) : string :=
  match s with
  | EmptyString => EmptyString
  | String c s' => if isspace c then non_spaces s' else String c (non_spaces s')
  end.

(** A word: at least one character, none of them a whitespace. *)
Definition is_word (w : string) : Prop :=
  w <> EmptyString /\ no_space w = true.

(** [s[n:]] for a natural number [n]. *)
Fixpoint string_drop (n : nat) (s : string) : string :=
  match n, s with
  | O, _ => s
  | S n', EmptyString => EmptyString
  | S n', String _ s' => string_drop n' s'
  end.

(** The text rebuilt from its fragments: the first [stride] characters of
    every fragment, one after the other. *)
Definition rebuild (stride : Z) (chunks : list string) : string :=
  concat_all (map (fun c => substring 0 (Z.to_nat stride) c) chunks).

(** The lines printed on the standard output along a trace. *)
Definition echoed (e : event) : list string :=
  match e with
  | EvEcho line => [line]
  | _ => []
  end.

(** The calls a run makes outside the process, by kind. *)
Inductive call : Type :=
| CallSearch | CallGet | CallSave | CallRetrieve | CallChat | CallEcho.

Definition call_of (e : event) : list call :=
  match e with
  | EvLog _ _ _ => []
  | EvEcho _ => [CallEcho]
  | EvSearchRequest _ => [CallSearch]
  | EvGet _ => [CallGet]
  | EvSave _ _ => [CallSave]
  | EvVectorSearch _ _ => [CallRetrieve]
  | EvChat _ _ => [CallChat]
  end.

(** The calls of a complete run: one search, [g] pages, [s] fragments
    saved, one retrieval, one call of the model, [e] lines printed. *)
Definition complete_run (g s e : nat) : list call :=
  [CallSearch] ++ repeat CallGet g ++ repeat CallSave s
  ++ [CallRetrieve; CallChat] ++ repeat CallEcho e.

(** The beginning of a complete run. *)
Definition partial_run (calls : list call) : Prop :=
  exists g s e rest, complete_run g s e = calls ++ rest.

(** The memory after a list of calls of [Memory.save], or the exception
    of the first call that raises. *)
Fixpoint save_all {M : Type} (W : World M) (m : M)
    (saves : list (string * Metadata)) : result M :=
  match saves with
  | [] => Ok m
  | (texts, metadata) :: rest =>
      m' <- Memory_save W m texts metadata ;;
      save_all W m' rest
  end.

(** A reply of the search API from which [search_web] gets no link. *)
Definition no_link (r : result search_reply) : Prop :=
  match r with
  | Ok ReplyZeroResults => True
  | Ok (ReplyItems None) => True
  | Ok (ReplyItems (Some results)) => links_of results = []
  | _ => False
  end.

(** A reply of the search API on which [search_web] raises. *)
Definition search_fails (r : result search_reply) : Prop :=
  match r with
  | Raise _ => True
  | Ok (ReplyError _) => True
  | Ok (ReplyNoSearchInformation _) => True
  | _ => False
  end.

(** A world in which only the first page requested is served: every
    later request times out. *)
Definition once_world : World (EmbeddingIndex.t nat) :=
  {| environ := environ Sample.world;
     quote := quote Sample.world;
     search_api := search_api Sample.world;
     http_get := fun h _ =>
       match requests h with
       | [_] => Ok (Some "  ABCDEFGHIJ   KLM ")
       | _ => Raise (Exception "timed out")
       end;
     Memory_new := Memory_new Sample.world;
     Memory_save := Memory_save Sample.world;
     Memory_search := Memory_search Sample.world;
     chat_api := chat_api Sample.world;
     repr_result := repr_result Sample.world |}.

(** What a run does outside the process: its events, the logging calls
    left out. *)
Definition effects (e : event) : list event :=
  match e with
  | EvLog _ _ _ => []
  | _ => [e]
  end.

(** The retrievals made along a trace: query and number of matches asked
    for. *)
Definition retrievals (e : event) : list (string * Z) :=
  match e with
  | EvVectorSearch query top_n => [(query, top_n)]
  | _ => []
  end.

(** The calls of [Memory.save] for a list of fragments. *)
Definition save_events (saves : list (string * Metadata)) : list event :=
  map (fun s => EvSave (fst s) (snd s)) saves.

(** The calls of [Memory.save] made when the fragments of a list are saved
    one after the other from the memory [m]: all of them, or those up to
    and including the first call that raises. *)
Fixpoint calls_made {M : Type} (W : World M) (m : M)
    (saves : list (string * Metadata)) : list (string * Metadata) :=
  match saves with
  | [] => []
  | (texts, metadata) :: rest =>
      (texts, metadata)
      :: match Memory_save W m texts metadata with
         | Ok m' => calls_made W m' rest
         | Raise _ => []
         end
  end.

(** The object [save_to_db] leaves: [self] with another memory. *)
Definition with_memory {M : Type} (self : Ask M) (m : M) : Ask M :=
  {| search_api_key := search_api_key self;
     search_project_id := search_project_id self;
     llm_api_key := llm_api_key self;
     llm_base_url := llm_base_url self;
     logger := logger self;
     memory := m |}.

(** The run of the command from the trace [tr] as far as the scraping.
    [Ask()] returns [ask]; [search_web], called after the first progress
    message, returns [links]; [scrape_urls], called after the messages
    that list the links, returns [scrape_results] and leaves the trace
    [tr']. *)
Definition scraping_of {M : Type} (W : World M) (o : Options)
    (tr : list event) (ask : Ask M) (links : list string)
    (scrape_results : dict string) (tr' : list event) : Prop :=
  exists tr1,
    Ask_init W (Some (get_logger (opt_log_level o))) tr = (Ok ask, tr) /\
    search_web W ask (opt_query o) (opt_date_restrict o) (opt_target_site o)
      (tr ++ [EvLog (get_logger (opt_log_level o)) INFO
                    (check_mark +++ " Searching the web ...")])
    = (Ok links, tr1) /\
    scrape_urls W ask links
      (tr1
       ++ [EvLog (get_logger (opt_log_level o)) INFO
                 (check_mark +++ " Found "
                  +++ str_of_int (Z.of_nat (List.length links))
                  +++ " links for query: " +++ opt_query o)]
       ++ map (fun il => EvLog (get_logger (opt_log_level o)) DEBUG
                               (str_of_int (fst il + 1) +++ ". " +++ snd il))
              (enumerate links)
       ++ [EvLog (get_logger (opt_log_level o)) INFO
                 (check_mark +++ " Scraping the URLs ...")])
    = (Ok scrape_results, tr').

(** The messages [run_inference] sends for a query and the results of the
    retrieval. *)
Definition messages_for (query : string) (results : list Result) : list message :=
  [system_prompt; HumanMessage (user_prompt query (build_context results))].

(** The lines the command prints for an answer and the results of the
    retrieval. *)
Definition printed (answer : string) (results : list Result) : list string :=
  ("# Answer" +++ nl +++ nl +++ answer +++ nl)
  :: "# References"
  :: map (fun ir => reference_line (fst ir) (snd ir)) (enumerate results).

(** * Properties *)

(** ** Strings *)

Lemma append_assoc (a b c : string) : (a +++ b) +++ c = a +++ (b +++ c).
Proof.
  induction a as [|ch a IH]; simpl; [reflexivity | now rewrite IH].
Qed.

Lemma append_empty_r (a : string) : a +++ EmptyString = a.
Proof.
  induction a as [|ch a IH]; simpl; [reflexivity | now rewrite IH].
Qed.

Lemma get_beyond (s : string) (n : nat) :
  (String.length s <= n)%nat -> String.get n s = None.
Proof.
  revert n; induction s as [|ch s IH]; intros n Hn; simpl in *.
  - reflexivity.
  - destruct n as [|n]; [lia | apply IH; lia].
Qed.

Lemma length_substring (s : string) (n m : nat) :
  String.length (substring n m s) = Nat.min m (String.length s - n).
Proof.
  revert n m; induction s as [|ch s IH]; intros n m; simpl.
  - destruct n, m; simpl; lia.
  - destruct n as [|n].
    + destruct m as [|m]; simpl; [reflexivity|].
      rewrite IH. simpl. lia.
    + rewrite IH. reflexivity.
Qed.

Lemma substring_whole (s : string) (m : nat) :
  (String.length s <= m)%nat -> substring 0 m s = s.
Proof.
  revert m; induction s as [|ch s IH]; intros m Hm; simpl in *.
  - destruct m; reflexivity.
  - destruct m as [|m]; [lia|]. rewrite IH by lia. reflexivity.
Qed.

Lemma len_nonneg (s : string) : 0 <= len s.
Proof. unfold len; lia. Qed.

Lemma len_zero_empty (s : string) : len s = 0 -> s = EmptyString.
Proof. unfold len; destruct s; simpl; [reflexivity | lia]. Qed.

(** ** Slices *)

(** A window that starts inside the text: its length. *)
Lemma slice_len (s : string) (lo sz : Z) :
  0 <= lo <= len s -> 0 <= sz ->
  len (slice s lo (lo + sz)) = Z.min sz (len s - lo).
Proof.
  intros Hlo Hsz. unfold slice, adjust_index.
  destruct (Z.ltb_spec lo 0); [lia|].
  destruct (Z.ltb_spec (lo + sz) 0); [lia|].
  unfold len at 1. rewrite length_substring.
  unfold len in *. lia.
Qed.

(** A window is read off the text at its offset. *)
Lemma slice_get (s : string) (lo sz : Z) (p : nat) :
  0 <= lo -> Z.of_nat p < sz ->
  String.get p (slice s lo (lo + sz)) = String.get (p + Z.to_nat lo) s.
Proof.
  intros Hlo Hp. unfold slice, adjust_index.
  destruct (Z.ltb_spec lo 0); [lia|].
  destruct (Z.ltb_spec (lo + sz) 0); [lia|].
  set (start := Z.min lo (len s)).
  set (stop := Z.min (lo + sz) (len s)).
  destruct (Z_lt_le_dec (Z.of_nat p) (stop - start)) as [Hin|Hout].
  - rewrite substring_correct1 by lia.
    f_equal. unfold start, stop in *. lia.
  - rewrite substring_correct2 by lia.
    symmetry. apply get_beyond. unfold start, stop, len in *. lia.
Qed.

(** The window that starts at 0 and is as long as the text is the text. *)
Lemma slice_whole (s : string) (sz : Z) :
  len s <= sz -> slice s 0 (0 + sz) = s.
Proof.
  intros Hsz. pose proof (len_nonneg s) as Hl. unfold slice, adjust_index.
  destruct (Z.ltb_spec 0 0); [lia|].
  destruct (Z.ltb_spec (0 + sz) 0); [lia|].
  replace (Z.to_nat (Z.min 0 (len s))) with 0%nat by lia.
  apply substring_whole. unfold len in *. lia.
Qed.

(** ** [range] *)

(** With a positive step, [range(0, stop, step)] has an element of index
    [k] exactly when [k * step] is below [stop]. *)
Lemma range_length_spec (stop step : Z) (k : nat) :
  0 < step ->
  (k < Z.to_nat (range_length 0 stop step))%nat <-> Z.of_nat k * step < stop.
Proof.
  intros Hstep. unfold range_length.
  destruct (Z.ltb_spec 0 step); [|lia].
  destruct (Z.ltb_spec 0 stop) as [Hpos|Hneg].
  - replace (stop - 0 - 1) with (stop - 1) by lia.
    assert (Hq : 0 <= (stop - 1) / step) by (apply Z.div_pos; lia).
    split; intros Hk.
    + assert (Z.of_nat k <= (stop - 1) / step) by lia.
      assert (step * ((stop - 1) / step) <= stop - 1)
        by (apply Z.mul_div_le; lia).
      nia.
    + assert (Z.of_nat k <= (stop - 1) / step)
        by (apply Z.div_le_lower_bound; lia).
      lia.
  - split; intros Hk; simpl in Hk; [lia | nia].
Qed.

(** With a negative step and a non-negative stop, [range(0, stop, step)]
    is empty. *)
Lemma range_length_negative_step (stop step : Z) :
  step < 0 -> 0 <= stop -> range_length 0 stop step = 0.
Proof.
  intros Hstep Hstop. unfold range_length.
  destruct (Z.ltb_spec 0 step); [lia|].
  destruct (Z.ltb_spec stop 0); [lia | reflexivity].
Qed.

(** ** The fragments of one text *)

Lemma fold_append_map {A B} (f : A -> B) (l : list A) (acc : list B) :
  fold_left (fun chunks pos => chunks ++ [f pos]) l acc = acc ++ map f l.
Proof.
  revert acc; induction l as [|x l IH]; intros acc; simpl.
  - now rewrite app_nil_r.
  - rewrite IH, <- app_assoc. reflexivity.
Qed.

Lemma chunk_text_windows (text : string) (size overlap : Z) :
  size <> overlap ->
  chunk_text text size overlap = Ok (windows text size (size - overlap)).
Proof.
  intros Hne. unfold chunk_text, Py.range.
  destruct (Z.eqb_spec (size - overlap) 0); [lia|].
  simpl. f_equal. rewrite fold_append_map. simpl.
  unfold windows. rewrite map_map. apply map_ext. intros i. reflexivity.
Qed.

Lemma chunk_text_zero_stride (text : string) (size : Z) :
  chunk_text text size size = Raise (ValueError "range() arg 3 must not be zero").
Proof.
  unfold chunk_text, Py.range. rewrite Z.sub_diag. reflexivity.
Qed.

Lemma windows_length (text : string) (size stride : Z) :
  List.length (windows text size stride)
  = Z.to_nat (range_length 0 (len text) stride).
Proof. unfold windows. now rewrite length_map, length_seq. Qed.

Lemma windows_nth (text : string) (size stride : Z) (k : nat) (c : string) :
  nth_error (windows text size stride) k = Some c ->
  c = slice text (Z.of_nat k * stride) (Z.of_nat k * stride + size).
Proof.
  intros Hk. unfold windows in Hk.
  rewrite nth_error_map in Hk.
  destruct (nth_error (seq 0 _) k) as [i|] eqn:Hi; [|discriminate].
  apply nth_error_nth with (d := 0%nat) in Hi as Hi'.
  assert (Hlt : (k < List.length (seq 0 (Z.to_nat (range_length 0 (len text) stride))))%nat)
    by (apply nth_error_Some; congruence).
  rewrite length_seq in Hlt. rewrite seq_nth in Hi' by exact Hlt.
  simpl in Hi'. subst i. simpl in Hk. congruence.
Qed.

Lemma windows_nth_some (text : string) (size stride : Z) (k : nat) :
  (k < List.length (windows text size stride))%nat ->
  nth_error (windows text size stride) k
  = Some (slice text (Z.of_nat k * stride) (Z.of_nat k * stride + size)).
Proof.
  intros Hk.
  destruct (nth_error (windows text size stride) k) as [c|] eqn:Hc.
  - apply windows_nth in Hc. now subst.
  - apply nth_error_None in Hc. lia.
Qed.

(** ** Dictionaries *)

Lemma get_set {V} (d : dict V) (k k' : string) (v : V) :
  Py.get (Py.set d k v) k' = if String.eqb k' k then Some v else Py.get d k'.
Proof.
  induction d as [|[k0 v0] d IH]; simpl.
  - reflexivity.
  - destruct (String.eqb_spec k k0) as [->|Hk]; simpl.
    + destruct (String.eqb_spec k' k0); reflexivity.
    + rewrite IH. destruct (String.eqb_spec k' k0) as [->|Hk'].
      * destruct (String.eqb_spec k0 k); [congruence | reflexivity].
      * reflexivity.
Qed.

Lemma get_none_iff {V} (d : dict V) (k : string) :
  Py.get d k = None <-> ~ In k (keys d).
Proof.
  induction d as [|[k0 v0] d IH]; simpl.
  - tauto.
  - destruct (String.eqb_spec k k0) as [->|Hk].
    + split; [discriminate | intros H; exfalso; apply H; now left].
    + rewrite IH. split.
      * intros H [Heq|Hin]; [congruence | tauto].
      * tauto.
Qed.

Lemma get_in {V} (d : dict V) (k : string) (v : V) :
  Py.get d k = Some v -> In (k, v) d.
Proof.
  induction d as [|[k0 v0] d IH]; simpl; [discriminate|].
  destruct (String.eqb_spec k k0) as [->|Hk].
  - intros [= ->]. now left.
  - intros H. right. now apply IH.
Qed.

Lemma in_get {V} (d : dict V) (k : string) (v : V) :
  Py.wf d -> In (k, v) d -> Py.get d k = Some v.
Proof.
  unfold Py.wf. induction d as [|[k0 v0] d IH]; simpl; [tauto|].
  intros Hnd [Heq|Hin].
  - inversion Heq; subst. now rewrite String.eqb_refl.
  - inversion Hnd as [|? ? Hnotin Hnd']; subst.
    destruct (String.eqb_spec k k0) as [->|Hk].
    + exfalso. apply Hnotin. change (In (fst (k0, v)) (map fst d)).
      now apply in_map.
    + now apply IH.
Qed.

(** Assigning to a key the dictionary does not hold appends the item. *)
Lemma set_fresh {V} (d : dict V) (k : string) (v : V) :
  ~ In k (keys d) -> Py.set d k v = d ++ [(k, v)].
Proof.
  induction d as [|[k0 v0] d IH]; simpl; intros Hk.
  - reflexivity.
  - destruct (String.eqb_spec k k0) as [->|Hne]; [tauto|].
    rewrite IH by tauto. reflexivity.
Qed.

(** Assignment keeps the keys of a dictionary distinct. *)
Lemma keys_set {V} (d : dict V) (k : string) (v : V) :
  keys (Py.set d k v) = if in_dec string_dec k (keys d) then keys d else keys d ++ [k].
Proof.
  induction d as [|[k0 v0] d IH]; simpl.
  - reflexivity.
  - destruct (String.eqb_spec k k0) as [->|Hne]; simpl.
    + destruct (string_dec k0 k0); [reflexivity | congruence].
    + rewrite IH. destruct (string_dec k0 k) as [Heq|Hne']; [congruence|].
      destruct (in_dec string_dec k (keys d)); reflexivity.
Qed.

Lemma wf_set {V} (d : dict V) (k : string) (v : V) :
  Py.wf d -> Py.wf (Py.set d k v).
Proof.
  unfold Py.wf. intros Hd. rewrite keys_set.
  destruct (in_dec string_dec k (keys d)) as [Hin|Hnotin]; [exact Hd|].
  apply NoDup_app; [exact Hd | repeat constructor; simpl; tauto |].
  intros x Hx [<-|[]]. tauto.
Qed.

Lemma keys_windows_of (d : dict string) (size stride : Z) :
  keys (windows_of d size stride) = keys d.
Proof.
  unfold keys, windows_of. rewrite map_map. apply map_ext. reflexivity.
Qed.

Lemma get_windows_of (d : dict string) (size stride : Z) (url : string) :
  Py.get (windows_of d size stride) url
  = option_map (fun text => windows text size stride) (Py.get d url).
Proof.
  induction d as [|[k0 v0] d IH]; simpl.
  - reflexivity.
  - destruct (String.eqb k0 url) eqn:E; destruct (String.eqb url k0) eqn:E';
      try reflexivity; try exact IH;
      rewrite String.eqb_sym in E; congruence.
Qed.

(** ** [chunk_results] *)

(** The loop of [chunk_results] appends one item per source when the
    sources are distinct and new to the accumulator. *)
Lemma chunk_loop_windows (its : list (string * string)) (size overlap : Z)
    (acc : dict (list string)) :
  size <> overlap ->
  NoDup (map fst its) ->
  (forall k, In k (map fst its) -> ~ In k (keys acc)) ->
  chunk_loop its size overlap acc
  = Ok (acc ++ windows_of its size (size - overlap)).
Proof.
  intros Hne. revert acc.
  induction its as [|[url text] its IH]; intros acc Hnd Hfresh; simpl.
  - now rewrite app_nil_r.
  - rewrite chunk_text_windows by exact Hne. simpl.
    inversion Hnd as [|? ? Hnotin Hnd']; subst.
    rewrite set_fresh by (apply Hfresh; now left).
    rewrite IH.
    + rewrite <- app_assoc. reflexivity.
    + exact Hnd'.
    + intros k Hk. unfold keys. rewrite map_app, in_app_iff. simpl.
      intros [Hin|[<-|[]]].
      * apply (Hfresh k); [now right | exact Hin].
      * tauto.
Qed.

Lemma chunk_results_windows (d : dict string) (size overlap : Z) :
  Py.wf d -> size <> overlap ->
  chunk_results d size overlap = Ok (windows_of d size (size - overlap)).
Proof.
  intros Hwf Hne. unfold chunk_results, items.
  rewrite chunk_loop_windows; simpl; auto.
Qed.

(** The two-document scenario of the specification, run on the code. *)
Lemma chunk_results_scenario_differs :
  chunk_results [("doc", "ABCDEFGHIJ")] 4 1
    <> Ok [("doc", ["ABCD"; "DEFG"; "GHIJ"])]
  /\ chunk_results [("doc", "ABCDEFGHIJK")] 4 1
    <> Ok [("doc", ["ABCD"; "DEFG"; "GHIJ"; "K"])].
Proof. split; vm_compute; discriminate. Qed.

(** C2 (as the code has it): for the text "ABCDEFGHIJ" with size 4 and
    overlap 1, [chunk_results] returns the four fragments "ABCD", "DEFG",
    "GHIJ", "J" at sequence indices 0, 1, 2, 3: the window that starts at
    offset 9 is below the length 10 and is generated.  For the text
    "ABCDEFGHIJK" of length 11 the fourth fragment, at index 3, is "JK". *)
Theorem chunk_results_scenario (url : string) :
  chunk_results [(url, "ABCDEFGHIJ")] 4 1
    = Ok [(url, ["ABCD"; "DEFG"; "GHIJ"; "J"])]
  /\ enumerate ["ABCD"; "DEFG"; "GHIJ"; "J"]
    = [(0, "ABCD"); (1, "DEFG"); (2, "GHIJ"); (3, "J")]
  /\ chunk_results [(url, "ABCDEFGHIJK")] 4 1
    = Ok [(url, ["ABCD"; "DEFG"; "GHIJ"; "JK"])]
  /\ enumerate ["ABCD"; "DEFG"; "GHIJ"; "JK"]
    = [(0, "ABCD"); (1, "DEFG"); (2, "GHIJ"); (3, "JK")].
Proof. repeat split. Qed.

(** C1: for a text of length L and 0 <= overlap < size, the fragments are
    the windows at the multiples of size - overlap that are below L; no
    fragment is empty, every position of the text lies in a fragment that
    holds its character, and a text of length 0 has no fragment. *)
Theorem chunk_results_coverage (d : dict string) (size overlap : Z)
    (url text : string) :
  Py.wf d -> Py.get d url = Some text -> 0 <= overlap < size ->
  exists r chunks,
    chunk_results d size overlap = Ok r /\ Py.get r url = Some chunks /\
    (forall k : nat,
       (k < List.length chunks)%nat <-> Z.of_nat k * (size - overlap) < len text) /\
    (forall (k : nat) (c : string),
       nth_error chunks k = Some c ->
       c = slice text (Z.of_nat k * (size - overlap))
                      (Z.of_nat k * (size - overlap) + size)
       /\ c <> EmptyString
       /\ len c = Z.min size (len text - Z.of_nat k * (size - overlap))) /\
    (forall j : nat,
       (j < String.length text)%nat ->
       exists (k : nat) (c : string),
         nth_error chunks k = Some c /\
         Z.of_nat k * (size - overlap) <= Z.of_nat j
           < Z.of_nat k * (size - overlap) + len c /\
         String.get (j - Z.to_nat (Z.of_nat k * (size - overlap))) c
           = String.get j text) /\
    (len text = 0 -> chunks = []).
Proof.
  intros Hwf Hget Hpar.
  set (stride := size - overlap).
  assert (Hstride : 0 < stride) by (unfold stride; lia).
  exists (windows_of d size stride), (windows text size stride).
  assert (Hlen : forall k : nat,
             (k < List.length (windows text size stride))%nat
             <-> Z.of_nat k * stride < len text).
  { intros k. rewrite windows_length. now apply range_length_spec. }
  assert (Hnth : forall (k : nat) (c : string),
             nth_error (windows text size stride) k = Some c ->
             c = slice text (Z.of_nat k * stride) (Z.of_nat k * stride + size)
             /\ c <> EmptyString
             /\ len c = Z.min size (len text - Z.of_nat k * stride)).
  { intros k c Hc.
    assert (Hk : Z.of_nat k * stride < len text).
    { apply Hlen. apply nth_error_Some. congruence. }
    apply windows_nth in Hc.
    assert (Hl : len c = Z.min size (len text - Z.of_nat k * stride)).
    { subst c. apply slice_len; lia. }
    repeat split; try assumption.
    intros ->. unfold len in Hl at 1. simpl in Hl. lia. }
  refine (conj _ (conj _ (conj Hlen (conj Hnth (conj _ _))))).
  - rewrite chunk_results_windows by (assumption || lia). reflexivity.
  - rewrite get_windows_of, Hget. reflexivity.
  - intros j Hj.
    set (k := Z.to_nat (Z.of_nat j / stride)).
    assert (Hq : 0 <= Z.of_nat j / stride) by (apply Z.div_pos; lia).
    assert (Hk : Z.of_nat k = Z.of_nat j / stride) by (unfold k; lia).
    pose proof (Z.mul_div_le (Z.of_nat j) stride Hstride) as Hlo.
    pose proof (Z.mul_succ_div_gt (Z.of_nat j) stride Hstride) as Hhi.
    assert (Hklt : Z.of_nat k * stride < len text) by (unfold len; nia).
    pose proof (proj2 (Hlen k) Hklt) as Hkl.
    exists k, (slice text (Z.of_nat k * stride) (Z.of_nat k * stride + size)).
    split; [now apply windows_nth_some|].
    split.
    + rewrite slice_len by lia. unfold len in *. nia.
    + rewrite slice_get by nia. f_equal. nia.
  - intros Hzero.
    destruct (windows text size stride) as [|c l] eqn:E; [reflexivity|].
    exfalso. pose proof (proj1 (Hlen 0%nat)) as H0.
    simpl in H0. lia.
Qed.

Lemma chunk_results_coverage_witness :
  Py.wf [("doc", "ABCDEFGHIJ")]
  /\ Py.get [("doc", "ABCDEFGHIJ")] "doc" = Some "ABCDEFGHIJ"
  /\ 0 <= 1 < 4
  /\ exists r chunks,
       chunk_results [("doc", "ABCDEFGHIJ")] 4 1 = Ok r
       /\ Py.get r "doc" = Some chunks.
Proof.
  assert (Hwf : Py.wf [("doc", "ABCDEFGHIJ")]).
  { unfold Py.wf. simpl. constructor; [simpl; tauto | constructor]. }
  assert (Hpar : 0 <= 1 < 4) by lia.
  repeat split; try assumption; try lia.
  destruct (chunk_results_coverage [("doc", "ABCDEFGHIJ")] 4 1 "doc" "ABCDEFGHIJ"
              Hwf eq_refl Hpar) as (r & chunks & Hr & Hg & _).
  exists r, chunks. split; assumption.
Defined.

(** A text shorter than [size] but longer than the stride. *)
Lemma chunk_results_short_text_differs :
  len "ABC" < 4 /\ 0 <= 3 < 4
  /\ chunk_results [("doc", "ABC")] 4 3 = Ok [("doc", ["ABC"; "BC"; "C"])]
  /\ chunk_results [("doc", "ABC")] 4 3 <> Ok [("doc", ["ABC"])].
Proof.
  split; [vm_compute; reflexivity|].
  split; [lia|].
  split; [reflexivity | vm_compute; discriminate].
Qed.

(** C3 (as the code has it): for a text whose length is below [size], and
    0 <= overlap < size, an empty text has no fragment; a text that is
    not empty has the whole text as its first fragment, and this is its
    only fragment exactly when its length is at most size - overlap. *)
Theorem chunk_results_short_text (d : dict string) (size overlap : Z)
    (url text : string) :
  Py.wf d -> Py.get d url = Some text -> 0 <= overlap < size ->
  len text < size ->
  exists r chunks,
    chunk_results d size overlap = Ok r /\ Py.get r url = Some chunks /\
    (text = EmptyString -> chunks = []) /\
    (text <> EmptyString -> hd_error chunks = Some text) /\
    (chunks = [text] <-> 0 < len text <= size - overlap).
Proof.
  intros Hwf Hget Hpar Hshort.
  set (stride := size - overlap).
  assert (Hstride : 0 < stride) by (unfold stride; lia).
  exists (windows_of d size stride), (windows text size stride).
  assert (Hlen : forall k : nat,
             (k < List.length (windows text size stride))%nat
             <-> Z.of_nat k * stride < len text).
  { intros k. rewrite windows_length. now apply range_length_spec. }
  assert (Hhd : 0 < len text ->
                exists l, windows text size stride = text :: l).
  { intros Hpos.
    assert (H0 : (0 < List.length (windows text size stride))%nat)
      by (apply Hlen; simpl; lia).
    pose proof (windows_nth_some text size stride 0 H0) as Hn.
    change (Z.of_nat 0) with 0 in Hn. rewrite Z.mul_0_l in Hn.
    rewrite slice_whole in Hn by lia.
    destruct (windows text size stride) as [|c l]; [discriminate|].
    simpl in Hn. injection Hn as ->. now exists l. }
  refine (conj _ (conj _ (conj _ (conj _ _)))).
  - rewrite chunk_results_windows by (assumption || lia). reflexivity.
  - rewrite get_windows_of, Hget. reflexivity.
  - intros ->.
    destruct (windows EmptyString size stride) as [|c l] eqn:E; [reflexivity|].
    exfalso. pose proof (proj1 (Hlen 0%nat)) as H0.
    simpl in H0. unfold len in H0. simpl in H0. lia.
  - intros Hne.
    assert (Hpos : 0 < len text).
    { pose proof (len_nonneg text).
      destruct (Z.eq_dec (len text) 0) as [Hz|Hz]; [|lia].
      apply len_zero_empty in Hz. congruence. }
    destruct (Hhd Hpos) as [l ->]. reflexivity.
  - split.
    + intros Heq.
      pose proof (proj1 (Hlen 0%nat)) as H0. pose proof (proj2 (Hlen 1%nat)) as H1.
      rewrite Heq in H0, H1. change (List.length [text]) with 1%nat in H0, H1.
      unfold stride in *. lia.
    + intros [Hpos Hle].
      destruct (Hhd Hpos) as [l Hl]. rewrite Hl.
      destruct l as [|c l]; [reflexivity|].
      exfalso. pose proof (proj1 (Hlen 1%nat)) as H1. rewrite Hl in H1.
      change (List.length (text :: c :: l)) with (S (S (List.length l))) in H1.
      unfold stride in *. lia.
Qed.

Lemma chunk_results_short_text_witness :
  Py.wf [("doc", "ABC")]
  /\ Py.get [("doc", "ABC")] "doc" = Some "ABC"
  /\ 0 <= 1 < 4
  /\ len "ABC" < 4
  /\ exists r,
       chunk_results [("doc", "ABC")] 4 1 = Ok r
       /\ Py.get r "doc" = Some ["ABC"].
Proof.
  assert (Hwf : Py.wf [("doc", "ABC")]).
  { unfold Py.wf. simpl. constructor; [simpl; tauto | constructor]. }
  assert (Hpar : 0 <= 1 < 4) by lia.
  assert (Hshort : len "ABC" < 4) by (vm_compute; reflexivity).
  refine (conj Hwf (conj eq_refl (conj Hpar (conj Hshort _)))).
  destruct (chunk_results_short_text [("doc", "ABC")] 4 1 "doc" "ABC"
              Hwf eq_refl Hpar Hshort) as (r & chunks & Hr & Hg & _ & _ & Hone).
  exists r. split; [exact Hr|].
  rewrite Hg. f_equal. apply Hone. vm_compute. split; [reflexivity | discriminate].
Defined.

(** With size = overlap the stride is zero: [range] raises and no mapping
    is returned. *)
Lemma chunk_results_keys_zero_stride :
  Py.wf [("doc", "AB")]
  /\ 0 <= 4
  /\ chunk_results [("doc", "AB")] 4 4
     = Raise (ValueError "range() arg 3 must not be zero").
Proof.
  split; [|split; [lia | reflexivity]].
  unfold Py.wf. simpl. constructor; [simpl; tauto | constructor].
Qed.

(** C9 (as the code has it): when the stride size - overlap is not zero
    (as for every valid pair 0 <= overlap < size), [chunk_results]
    returns a mapping with the keys of its input, in the same order, and
    the fragments stored for a source depend on the text of that source
    only: two inputs that agree on a source agree on its fragments. *)
Theorem chunk_results_keys (d1 d2 : dict string) (size overlap : Z) :
  Py.wf d1 -> Py.wf d2 -> size <> overlap ->
  exists r1 r2,
    chunk_results d1 size overlap = Ok r1 /\
    chunk_results d2 size overlap = Ok r2 /\
    keys r1 = keys d1 /\ keys r2 = keys d2 /\
    (forall url text,
       Py.get d1 url = Some text ->
       exists chunks,
         chunk_text text size overlap = Ok chunks /\ Py.get r1 url = Some chunks) /\
    (forall url, Py.get d1 url = Py.get d2 url -> Py.get r1 url = Py.get r2 url).
Proof.
  intros Hwf1 Hwf2 Hne.
  exists (windows_of d1 size (size - overlap)), (windows_of d2 size (size - overlap)).
  refine (conj _ (conj _ (conj _ (conj _ (conj _ _))))).
  - now apply chunk_results_windows.
  - now apply chunk_results_windows.
  - apply keys_windows_of.
  - apply keys_windows_of.
  - intros url text Hget. exists (windows text size (size - overlap)).
    split; [now apply chunk_text_windows|].
    rewrite get_windows_of, Hget. reflexivity.
  - intros url Heq. rewrite !get_windows_of, Heq. reflexivity.
Qed.

Lemma chunk_results_keys_witness :
  Py.wf [("a", "ABCDEFGHIJ"); ("b", "XYZ")]
  /\ Py.wf [("b", "XYZ"); ("c", "Q")]
  /\ 4 <> 1
  /\ exists r1 r2,
       chunk_results [("a", "ABCDEFGHIJ"); ("b", "XYZ")] 4 1 = Ok r1
       /\ chunk_results [("b", "XYZ"); ("c", "Q")] 4 1 = Ok r2
       /\ keys r1 = ["a"; "b"] /\ keys r2 = ["b"; "c"]
       /\ Py.get r1 "b" = Py.get r2 "b".
Proof.
  assert (Hwf1 : Py.wf [("a", "ABCDEFGHIJ"); ("b", "XYZ")]).
  { unfold Py.wf. simpl. repeat constructor; simpl; intuition discriminate. }
  assert (Hwf2 : Py.wf [("b", "XYZ"); ("c", "Q")]).
  { unfold Py.wf. simpl. repeat constructor; simpl; intuition discriminate. }
  assert (Hne : 4 <> 1) by lia.
  refine (conj Hwf1 (conj Hwf2 (conj Hne _))).
  destruct (chunk_results_keys _ _ 4 1 Hwf1 Hwf2 Hne)
    as (r1 & r2 & H1 & H2 & Hk1 & Hk2 & _ & Hagree).
  exists r1, r2.
  refine (conj H1 (conj H2 (conj Hk1 (conj Hk2 _)))).
  apply Hagree. reflexivity.
Defined.

(** Parameters outside the contract of the fragmenter, with no error. *)
Lemma chunk_results_invalid_parameters_accepted :
  ~ (4 > 0 /\ 0 <= 5 < 4)
  /\ chunk_results [("doc", "ABCDEFGHIJ")] 4 5 = Ok [("doc", [])].
Proof. split; [lia | reflexivity]. Qed.

(** C4 (as the code has it): [chunk_results] does not check its
    parameters.  With size = overlap the zero step of [range] raises
    [ValueError] when the first document is reached, and a mapping with
    no document is returned as it is; with any other pair, inside the
    contract or not, a mapping is returned and no error is reported; with
    overlap > size every document gets an empty list of fragments. *)
Theorem chunk_results_no_validation (d : dict string) (size overlap : Z) :
  Py.wf d ->
  (size = overlap ->
   chunk_results d size overlap
   = match d with
     | [] => Ok []
     | _ :: _ => Raise (ValueError "range() arg 3 must not be zero")
     end) /\
  (size <> overlap ->
   chunk_results d size overlap = Ok (windows_of d size (size - overlap))) /\
  (size < overlap ->
   chunk_results d size overlap = Ok (map (fun ut => (fst ut, [])) d)).
Proof.
  intros Hwf. refine (conj _ (conj _ _)).
  - intros ->. destruct d as [|[url text] d]; [reflexivity|].
    unfold chunk_results, items. simpl.
    rewrite chunk_text_zero_stride. reflexivity.
  - intros Hne. now apply chunk_results_windows.
  - intros Hlt. rewrite chunk_results_windows by (assumption || lia).
    f_equal. unfold windows_of. apply map_ext. intros [url text]. simpl.
    f_equal. unfold windows.
    rewrite range_length_negative_step by (try lia; apply len_nonneg).
    reflexivity.
Qed.

Lemma chunk_results_no_validation_witness :
  Py.wf [("doc", "ABCDEFGHIJ")]
  /\ chunk_results [("doc", "ABCDEFGHIJ")] 4 4
     = Raise (ValueError "range() arg 3 must not be zero")
  /\ chunk_results [("doc", "ABCDEFGHIJ")] 4 5 = Ok [("doc", [])].
Proof.
  assert (Hwf : Py.wf [("doc", "ABCDEFGHIJ")]).
  { unfold Py.wf. simpl. constructor; [simpl; tauto | constructor]. }
  destruct (chunk_results_no_validation [("doc", "ABCDEFGHIJ")] 4 4 Hwf)
    as (Hzero & _ & _).
  destruct (chunk_results_no_validation [("doc", "ABCDEFGHIJ")] 4 5 Hwf)
    as (_ & _ & Hneg).
  refine (conj Hwf (conj (Hzero eq_refl) (Hneg _))). lia.
Defined.

(** ** [scrape_urls] *)

Section Scraping.

Context {M : Type} (W : World M) (self : Ask M).

(** The three ways one turn of the loop can go. *)
Lemma scrape_loop_raise (url : string) (rest : list string)
    (acc : dict string) (tr : list event) (e : exn) :
  http_get W (tr ++ [EvGet url]) url = Raise e ->
  scrape_loop W self (url :: rest) acc tr
  = scrape_loop W self rest acc
      (tr ++ [EvGet url;
              EvLog (logger self) ERROR
                    ("scraping error " +++ url +++ ": " +++ exn_str e)]).
Proof.
  intros H. simpl.
  unfold rbind, try_except, scrape_one, rbind, emit, log, emit, ret.
  rewrite H. rewrite <- app_assoc. reflexivity.
Qed.

Lemma scrape_loop_no_body (url : string) (rest : list string)
    (acc : dict string) (tr : list event) :
  http_get W (tr ++ [EvGet url]) url = Ok None ->
  scrape_loop W self (url :: rest) acc tr
  = scrape_loop W self rest acc
      (tr ++ [EvGet url;
              EvLog (logger self) WARNING
                    ("No body tag found in the response for url: " +++ url)]).
Proof.
  intros H. simpl.
  unfold rbind, try_except, scrape_one, rbind, emit, log, emit, ret.
  rewrite H. rewrite <- app_assoc. reflexivity.
Qed.

Lemma scrape_loop_body (url : string) (rest : list string)
    (acc : dict string) (tr : list event) (body_text : string) :
  http_get W (tr ++ [EvGet url]) url = Ok (Some body_text) ->
  scrape_loop W self (url :: rest) acc tr
  = scrape_loop W self rest (Py.set acc url (normalize body_text))
      (tr ++ [EvGet url;
              EvLog (logger self) DEBUG
                    ("Scraped " +++ url +++ ": " +++ normalize body_text +++ "...")]).
Proof.
  intros H. simpl.
  unfold rbind, try_except, scrape_one, rbind, emit, log, emit, ret.
  rewrite H. rewrite <- app_assoc. reflexivity.
Qed.

Lemma requests_app (tr1 tr2 : list event) :
  requests (tr1 ++ tr2) = requests tr1 ++ requests tr2.
Proof. unfold requests. apply flat_map_app. Qed.

(** The loop never raises; it requests every URL in turn; a source that
    cannot be fetched leaves the mapping as it was, and a source that can
    is in the mapping with its normalised text. *)
Lemma scrape_loop_spec (urls : list string) :
  forall (acc : dict string) (tr : list event),
  exists res ext,
    scrape_loop W self urls acc tr = (Ok res, tr ++ ext) /\
    requests ext = urls /\
    (Py.wf acc -> Py.wf res) /\
    (forall url, ~ In url urls -> Py.get res url = Py.get acc url) /\
    (forall url,
       (forall h, fetch_fails (http_get W h url)) ->
       Py.get res url = Py.get acc url) /\
    (forall url text,
       (forall h, http_get W h url = Ok (Some text)) ->
       In url urls \/ Py.get acc url = Some (normalize text) ->
       Py.get res url = Some (normalize text)) /\
    (forall url text,
       Py.get res url = Some text ->
       Py.get acc url = Some text
       \/ exists h body, http_get W h url = Ok (Some body) /\ text = normalize body) /\
    (forall url,
       In url urls -> (forall h, fetch_fails (http_get W h url)) ->
       exists record, failure_record (logger self) url record /\ In record ext).
Proof.
  induction urls as [|url rest IH]; intros acc tr.
  - exists acc, []. simpl. unfold ret. rewrite app_nil_r.
    repeat split; auto.
    + intros url text _ [[]|H]; exact H.
    + intros url [].
  - destruct (http_get W (tr ++ [EvGet url]) url) as [[body|]|e] eqn:Hget.
    + rewrite (scrape_loop_body _ _ _ _ _ Hget).
      destruct (IH (Py.set acc url (normalize body))
                   (tr ++ [EvGet url;
                           EvLog (logger self) DEBUG
                             ("Scraped " +++ url +++ ": " +++ normalize body +++ "...")]))
        as (res & ext & Hrun & Hreq & Hwf & Hout & Hfail & Hok & Hfrom & Hlog).
      exists res. eexists. rewrite Hrun, <- app_assoc.
      split; [reflexivity|].
      split; [rewrite requests_app, Hreq; reflexivity|].
      split; [intros Ha; apply Hwf; now apply wf_set|].
      split.
      { intros u Hu. simpl in Hu. rewrite Hout by tauto.
        rewrite get_set. destruct (String.eqb_spec u url); [subst; tauto | reflexivity]. }
      split.
      { intros u Hu. rewrite (Hfail u Hu), get_set.
        destruct (String.eqb_spec u url) as [->|Hne]; [|reflexivity].
        exfalso. specialize (Hu (tr ++ [EvGet url])). rewrite Hget in Hu. exact Hu. }
      split.
      { intros u text Hu Hin. apply (Hok u text Hu).
        rewrite get_set.
        destruct (String.eqb_spec u url) as [->|Hne].
        - right. specialize (Hu (tr ++ [EvGet url])). rewrite Hget in Hu.
          injection Hu as ->. reflexivity.
        - simpl in Hin. destruct Hin as [[Heq|Hin]|Hacc];
            [congruence | now left | now right]. }
      split.
      { intros u text Hres. destruct (Hfrom u text Hres) as [Hacc|Hnew]; [|now right].
        rewrite get_set in Hacc.
        destruct (String.eqb_spec u url) as [->|Hne]; [|now left].
        right. exists (tr ++ [EvGet url]), body. split; [exact Hget | congruence]. }
      { intros u [<-|Hin] Hu.
        - exfalso. specialize (Hu (tr ++ [EvGet url])). rewrite Hget in Hu. exact Hu.
        - destruct (Hlog u Hin Hu) as (record & Hrec & Hin').
          exists record. split; [exact Hrec | now right; right]. }
    + rewrite (scrape_loop_no_body _ _ _ _ Hget).
      destruct (IH acc
                   (tr ++ [EvGet url;
                           EvLog (logger self) WARNING
                             ("No body tag found in the response for url: " +++ url)]))
        as (res & ext & Hrun & Hreq & Hwf & Hout & Hfail & Hok & Hfrom & Hlog).
      exists res. eexists. rewrite Hrun, <- app_assoc.
      split; [reflexivity|].
      split; [rewrite requests_app, Hreq; reflexivity|].
      split; [exact Hwf|].
      split; [intros u Hu; simpl in Hu; apply Hout; tauto|].
      split; [exact Hfail|].
      split.
      { intros u text Hu Hin. apply (Hok u text Hu).
        destruct Hin as [[Heq|Hin]|Hacc]; [|now left | now right].
        subst u. specialize (Hu (tr ++ [EvGet url])). congruence. }
      split; [exact Hfrom|].
      intros u [<-|Hin] Hu.
      * eexists. split; [|right; left; reflexivity].
        right. reflexivity.
      * destruct (Hlog u Hin Hu) as (record & Hrec & Hin').
        exists record. split; [exact Hrec | now right; right].
    + rewrite (scrape_loop_raise _ _ _ _ _ Hget).
      destruct (IH acc
                   (tr ++ [EvGet url;
                           EvLog (logger self) ERROR
                             ("scraping error " +++ url +++ ": " +++ exn_str e)]))
        as (res & ext & Hrun & Hreq & Hwf & Hout & Hfail & Hok & Hfrom & Hlog).
      exists res. eexists. rewrite Hrun, <- app_assoc.
      split; [reflexivity|].
      split; [rewrite requests_app, Hreq; reflexivity|].
      split; [exact Hwf|].
      split; [intros u Hu; simpl in Hu; apply Hout; tauto|].
      split; [exact Hfail|].
      split.
      { intros u text Hu Hin. apply (Hok u text Hu).
        destruct Hin as [[Heq|Hin]|Hacc]; [|now left | now right].
        subst u. specialize (Hu (tr ++ [EvGet url])). congruence. }
      split; [exact Hfrom|].
      intros u [<-|Hin] Hu.
      * eexists. split; [|right; left; reflexivity].
        left. exists e. reflexivity.
      * destruct (Hlog u Hin Hu) as (record & Hrec & Hin').
        exists record. split; [exact Hrec | now right; right].
Qed.

End Scraping.

(** *** The attempts of a run of [scrape_urls]

    An attempt on [url] is a request [EvGet url] among the events [ext]
    the run added to the trace [tr]: [ext = pre ++ EvGet url :: post].
    The page is read at the history [tr ++ pre ++ [EvGet url]]. *)

Lemma in_keys_set {V} (d : dict V) (k u : string) (v : V) :
  In u (keys (Py.set d k v)) <-> u = k \/ In u (keys d).
Proof.
  rewrite keys_set. destruct (in_dec string_dec k (keys d)) as [Hin|Hnotin].
  - split; [now right | intros [->|H]; assumption].
  - rewrite in_app_iff. simpl. split.
    + intros [H|[<-|[]]]; [now right | now left].
    + intros [->|H]; [right; now left | now left].
Qed.

(** Where a request can be among the events of one turn of the loop and
    those of the turns that follow. *)
Lemma split_turn (url u : string) (lg : Logger) (l : level) (msg : string)
    (ext pre post : list event) :
  EvGet url :: EvLog lg l msg :: ext = pre ++ EvGet u :: post ->
  (pre = [] /\ u = url /\ post = EvLog lg l msg :: ext)
  \/ exists pre', pre = EvGet url :: EvLog lg l msg :: pre'
                  /\ ext = pre' ++ EvGet u :: post.
Proof.
  intros H. destruct pre as [|a pre].
  - simpl in H. inversion H; subst. left. repeat split.
  - destruct pre as [|b pre]; simpl in H.
    + inversion H.
    + inversion H; subst. right. exists pre. split; reflexivity.
Qed.

Lemma unique_split {A} (x : A) (pre post pre' post' : list A) :
  pre ++ x :: post = pre' ++ x :: post' ->
  ~ In x pre -> ~ In x post -> pre = pre'.
Proof.
  revert pre'. induction pre as [|a pre IH]; intros pre' H Hpre Hpost.
  - destruct pre' as [|b pre']; [reflexivity|].
    simpl in H. inversion H; subst. exfalso. apply Hpost.
    apply in_or_app. right. now left.
  - destruct pre' as [|b pre']; simpl in H; inversion H; subst.
    + exfalso. apply Hpre. now left.
    + f_equal. apply IH; [assumption | | assumption].
      intros Hin. apply Hpre. now right.
Qed.

Section Attempts.

Context {M : Type} (W : World M) (self : Ask M).

Lemma scrape_loop_attempts (urls : list string) :
  forall (acc : dict string) (tr : list event),
  exists res ext,
    scrape_loop W self urls acc tr = (Ok res, tr ++ ext) /\
    requests ext = urls /\
    (forall pre post url,
       ext = pre ++ EvGet url :: post ->
       fetch_fails (http_get W (tr ++ pre ++ [EvGet url]) url) ->
       exists record post',
         post = record :: post' /\ failure_record (logger self) url record) /\
    (forall url,
       In url (keys res) <->
       In url (keys acc)
       \/ exists pre post body,
            ext = pre ++ EvGet url :: post /\
            http_get W (tr ++ pre ++ [EvGet url]) url = Ok (Some body)).
Proof.
  induction urls as [|url rest IH]; intros acc tr.
  - exists acc, []. simpl. unfold ret. rewrite app_nil_r.
    split; [reflexivity|]. split; [reflexivity|]. split.
    + intros pre post url H. destruct pre; discriminate.
    + intros url. split; [now left|].
      intros [H|(pre & post & body & H & _)]; [exact H|].
      destruct pre; discriminate.
  - assert (Hshift : forall (a b : event) (pre : list event) (u : string),
               (tr ++ [a; b]) ++ pre ++ [EvGet u]
               = tr ++ (a :: b :: pre) ++ [EvGet u]).
    { intros a b pre u. rewrite <- app_assoc. reflexivity. }
    destruct (http_get W (tr ++ [EvGet url]) url) as [[body|]|e] eqn:Hget.
    + rewrite (scrape_loop_body _ _ _ _ _ _ _ Hget).
      destruct (IH (Py.set acc url (normalize body))
                   (tr ++ [EvGet url;
                           EvLog (logger self) DEBUG
                             ("Scraped " +++ url +++ ": " +++ normalize body +++ "...")]))
        as (res & ext & Hrun & Hreq & Hlog & Hkeys).
      exists res. eexists. rewrite Hrun, <- app_assoc.
      split; [reflexivity|].
      split; [rewrite requests_app, Hreq; reflexivity|].
      split.
      * intros pre post u Hext Hfail.
        apply split_turn in Hext.
        destruct Hext as [(-> & -> & ->)|(pre' & -> & Hext)].
        -- exfalso. simpl in Hfail. rewrite Hget in Hfail. exact Hfail.
        -- apply (Hlog pre' post u Hext). rewrite Hshift. exact Hfail.
      * intros u. rewrite Hkeys, in_keys_set. split.
        -- intros [[->|Hacc]|(pre & post & b & Hext & Hb)].
           ++ right. exists [], (EvLog (logger self) DEBUG
                                   ("Scraped " +++ url +++ ": "
                                    +++ normalize body +++ "...") :: ext), body.
              split; [reflexivity | exact Hget].
           ++ now left.
           ++ right. eexists (EvGet url :: _ :: pre), post, b.
              split; [rewrite Hext; reflexivity|].
              rewrite <- Hshift. exact Hb.
        -- intros [Hacc|(pre & post & b & Hext & Hb)]; [left; now right|].
           apply split_turn in Hext.
           destruct Hext as [(-> & -> & ->)|(pre' & -> & Hext)].
           ++ left. now left.
           ++ right. exists pre', post, b. split; [exact Hext|].
              rewrite Hshift. exact Hb.
    + rewrite (scrape_loop_no_body _ _ _ _ _ _ Hget).
      destruct (IH acc
                   (tr ++ [EvGet url;
                           EvLog (logger self) WARNING
                             ("No body tag found in the response for url: " +++ url)]))
        as (res & ext & Hrun & Hreq & Hlog & Hkeys).
      exists res. eexists. rewrite Hrun, <- app_assoc.
      split; [reflexivity|].
      split; [rewrite requests_app, Hreq; reflexivity|].
      split.
      * intros pre post u Hext Hfail.
        apply split_turn in Hext.
        destruct Hext as [(-> & -> & ->)|(pre' & -> & Hext)].
        -- eexists. eexists. split; [reflexivity|]. right. reflexivity.
        -- apply (Hlog pre' post u Hext). rewrite Hshift. exact Hfail.
      * intros u. rewrite Hkeys. split.
        -- intros [Hacc|(pre & post & b & Hext & Hb)]; [now left|].
           right. eexists (EvGet url :: _ :: pre), post, b.
           split; [rewrite Hext; reflexivity|].
           rewrite <- Hshift. exact Hb.
        -- intros [Hacc|(pre & post & b & Hext & Hb)]; [now left|].
           apply split_turn in Hext.
           destruct Hext as [(-> & -> & ->)|(pre' & -> & Hext)].
           ++ simpl in Hb. congruence.
           ++ right. exists pre', post, b. split; [exact Hext|].
              rewrite Hshift. exact Hb.
    + rewrite (scrape_loop_raise _ _ _ _ _ _ _ Hget).
      destruct (IH acc
                   (tr ++ [EvGet url;
                           EvLog (logger self) ERROR
                             ("scraping error " +++ url +++ ": " +++ exn_str e)]))
        as (res & ext & Hrun & Hreq & Hlog & Hkeys).
      exists res. eexists. rewrite Hrun, <- app_assoc.
      split; [reflexivity|].
      split; [rewrite requests_app, Hreq; reflexivity|].
      split.
      * intros pre post u Hext Hfail.
        apply split_turn in Hext.
        destruct Hext as [(-> & -> & ->)|(pre' & -> & Hext)].
        -- eexists. eexists. split; [reflexivity|]. left. exists e. reflexivity.
        -- apply (Hlog pre' post u Hext). rewrite Hshift. exact Hfail.
      * intros u. rewrite Hkeys. split.
        -- intros [Hacc|(pre & post & b & Hext & Hb)]; [now left|].
           right. eexists (EvGet url :: _ :: pre), post, b.
           split; [rewrite Hext; reflexivity|].
           rewrite <- Hshift. exact Hb.
        -- intros [Hacc|(pre & post & b & Hext & Hb)]; [now left|].
           apply split_turn in Hext.
           destruct Hext as [(-> & -> & ->)|(pre' & -> & Hext)].
           ++ simpl in Hb. congruence.
           ++ right. exists pre', post, b. split; [exact Hext|].
              rewrite Hshift. exact Hb.
Qed.

End Attempts.

(** The source of a later failed fetch is in the mapping: the page is
    listed twice, the first fetch succeeds and the second times out. *)
Lemma scrape_urls_later_failure_keeps_source :
  scrape_urls once_world Sample.ask ["http://a"; "http://a"] []
  = (Ok [("http://a", "ABCDEFGHIJ KLM")],
     [EvGet "http://a";
      EvLog INFO DEBUG "Scraped http://a: ABCDEFGHIJ KLM...";
      EvGet "http://a";
      EvLog INFO ERROR "scraping error http://a: timed out"])
  /\ fetch_fails
       (http_get once_world
          [EvGet "http://a";
           EvLog INFO DEBUG "Scraped http://a: ABCDEFGHIJ KLM...";
           EvGet "http://a"] "http://a")
  /\ In "http://a" (keys [("http://a", "ABCDEFGHIJ KLM")]).
Proof. split; [reflexivity | split; [exact I | now left]]. Qed.

(** C6 (as the code has it): a failure while fetching or extracting one
    URL, an exception or a page with no body, is caught and logged, and
    the loop goes on with the remaining URLs and the mapping as it was:
    a failed attempt stores nothing and removes nothing.  [scrape_urls]
    never raises and requests every URL of the list in turn; every
    attempt that fails is followed by its record in the log; a source is
    in the mapping returned exactly when one of the attempts on it
    succeeded.  So a source requested once, whose fetch fails, is absent,
    and a source listed more than once stays when a later fetch fails. *)
Theorem scrape_urls_skips_failures {M : Type} (W : World M) (self : Ask M) :
  (forall url rest acc tr e,
     http_get W (tr ++ [EvGet url]) url = Raise e ->
     scrape_loop W self (url :: rest) acc tr
     = scrape_loop W self rest acc
         (tr ++ [EvGet url;
                 EvLog (logger self) ERROR
                       ("scraping error " +++ url +++ ": " +++ exn_str e)])) /\
  (forall url rest acc tr,
     http_get W (tr ++ [EvGet url]) url = Ok None ->
     scrape_loop W self (url :: rest) acc tr
     = scrape_loop W self rest acc
         (tr ++ [EvGet url;
                 EvLog (logger self) WARNING
                       ("No body tag found in the response for url: " +++ url)])) /\
  (forall urls tr,
   exists res ext,
     scrape_urls W self urls tr = (Ok res, tr ++ ext) /\
     requests ext = urls /\
     (forall pre post url,
        ext = pre ++ EvGet url :: post ->
        fetch_fails (http_get W (tr ++ pre ++ [EvGet url]) url) ->
        exists record post',
          post = record :: post' /\ failure_record (logger self) url record) /\
     (forall url,
        In url (keys res) <->
        exists pre post body,
          ext = pre ++ EvGet url :: post /\
          http_get W (tr ++ pre ++ [EvGet url]) url = Ok (Some body)) /\
     (forall pre post url,
        ext = pre ++ EvGet url :: post ->
        ~ In (EvGet url) pre -> ~ In (EvGet url) post ->
        fetch_fails (http_get W (tr ++ pre ++ [EvGet url]) url) ->
        ~ In url (keys res))).
Proof.
  split; [intros; now apply scrape_loop_raise|].
  split; [intros; now apply scrape_loop_no_body|].
  intros urls tr. unfold scrape_urls.
  destruct (scrape_loop_attempts W self urls [] tr)
    as (res & ext & Hrun & Hreq & Hlog & Hkeys).
  assert (Hiff : forall url,
             In url (keys res) <->
             exists pre post body,
               ext = pre ++ EvGet url :: post /\
               http_get W (tr ++ pre ++ [EvGet url]) url = Ok (Some body)).
  { intros url. rewrite Hkeys. split; [|now right].
    intros [[]|H]. exact H. }
  exists res, ext.
  split; [exact Hrun|]. split; [exact Hreq|]. split; [exact Hlog|].
  split; [exact Hiff|].
  intros pre post url Hext Hpre Hpost Hfail Hin.
  apply Hiff in Hin. destruct Hin as (pre' & post' & body & Hext' & Hbody).
  rewrite Hext in Hext'.
  apply unique_split in Hext'; [|assumption|assumption].
  subst pre'. rewrite Hbody in Hfail. exact Hfail.
Qed.

Lemma scrape_urls_skips_failures_witness :
  http_get Sample.world [EvGet "http://a"] "http://a"
  = Raise (Exception "timed out")
  /\ exists res ext,
       scrape_urls Sample.world Sample.ask ["http://a"; "http://b"] []
       = (Ok res, ext)
       /\ requests ext = ["http://a"; "http://b"]
       /\ ~ In "http://a" (keys res).
Proof.
  split; [reflexivity|].
  destruct (scrape_urls_skips_failures Sample.world Sample.ask)
    as (_ & _ & Hrun).
  destruct (Hrun ["http://a"; "http://b"] [])
    as (res & ext & Hres & Hreq & _ & Hkeys & _).
  exists res, ext. split; [exact Hres|]. split; [exact Hreq|].
  intros Hin. apply Hkeys in Hin.
  destruct Hin as (pre & post & body & _ & Hbody).
  discriminate Hbody.
Defined.

(** ** Credentials *)

Section Credentials.

Context {M : Type} (W : World M).

Lemma note_missing_noted (err_msg name : string) :
  note_missing err_msg (environ W name) name = err_msg +++ noted W name.
Proof.
  unfold note_missing, noted. destruct (environ W name).
  - now rewrite append_empty_r.
  - reflexivity.
Qed.

Lemma is_empty_append (a b : string) :
  is_empty (a +++ b) = is_empty a && is_empty b.
Proof. destruct a; reflexivity. Qed.

(** With a credential missing, [read_env_variables] raises, and the
    message is made of the lines of the missing variables. *)
Lemma read_env_variables_missing :
  (exists name, In name credentials /\ environ W name = None) ->
  read_env_variables W
  = Raise (Exception
             (nl +++ (noted W "SEARCH_API_KEY" +++ noted W "SEARCH_PROJECT_KEY"
                      +++ noted W "LLM_API_KEY") +++ nl)).
Proof.
  intros (name & Hin & Hnone).
  unfold read_env_variables.
  rewrite !note_missing_noted. simpl (EmptyString +++ _).
  rewrite append_assoc.
  assert (Hne : is_empty (noted W "SEARCH_API_KEY" +++ noted W "SEARCH_PROJECT_KEY"
                          +++ noted W "LLM_API_KEY") = false).
  { rewrite !is_empty_append.
    simpl in Hin. destruct Hin as [<-|[<-|[<-|[]]]];
      unfold noted at 1 2 3; rewrite Hnone; simpl;
      rewrite ?andb_false_r; reflexivity. }
  rewrite Hne. reflexivity.
Qed.

Lemma occurs_in_noted (name : string) :
  In name credentials -> environ W name = None ->
  occurs_in (not_set_line name)
    (nl +++ (noted W "SEARCH_API_KEY" +++ noted W "SEARCH_PROJECT_KEY"
             +++ noted W "LLM_API_KEY") +++ nl).
Proof.
  intros Hin Hnone. unfold occurs_in.
  simpl in Hin. destruct Hin as [<-|[<-|[<-|[]]]].
  - exists nl, (noted W "SEARCH_PROJECT_KEY" +++ noted W "LLM_API_KEY" +++ nl).
    unfold noted at 1. rewrite Hnone. now rewrite !append_assoc.
  - exists (nl +++ noted W "SEARCH_API_KEY"), (noted W "LLM_API_KEY" +++ nl).
    unfold noted at 2. rewrite Hnone. now rewrite !append_assoc.
  - exists (nl +++ noted W "SEARCH_API_KEY" +++ noted W "SEARCH_PROJECT_KEY"), nl.
    unfold noted at 3. rewrite Hnone. now rewrite !append_assoc.
Qed.

End Credentials.

(** C7: when a required credential is missing from the environment, the
    construction of [Ask] raises, the command raises the same exception
    with the trace of events as it was (no search, no request, no
    fragment stored, no call of the model, nothing logged), and the
    message holds the line of every missing variable. *)
Theorem missing_credentials_fatal {M : Type} (W : World M) (o : Options)
    (lg : option Logger) (tr : list event) :
  (exists name, In name credentials /\ environ W name = None) ->
  exists msg,
    Ask_init W lg tr = (Raise (Exception msg), tr) /\
    search_extract_summarize W o tr = (Raise (Exception msg), tr) /\
    (forall name,
       In name credentials -> environ W name = None ->
       occurs_in (not_set_line name) msg).
Proof.
  intros Hmissing.
  pose proof (read_env_variables_missing W Hmissing) as Hread.
  eexists. split; [|split].
  - unfold Ask_init, rbind, lift. rewrite Hread. reflexivity.
  - unfold search_extract_summarize, rbind at 1.
    unfold Ask_init, rbind, lift. rewrite Hread. reflexivity.
  - intros name Hin Hnone. now apply occurs_in_noted.
Qed.

Lemma missing_credentials_fatal_witness :
  (exists name, In name credentials /\ environ Sample.bare_world name = None)
  /\ exists msg,
       search_extract_summarize Sample.bare_world Sample.options []
       = (Raise (Exception msg), [])
       /\ occurs_in (not_set_line "LLM_API_KEY") msg.
Proof.
  assert (H : exists name,
             In name credentials /\ environ Sample.bare_world name = None).
  { exists "LLM_API_KEY". split; [right; right; left; reflexivity | reflexivity]. }
  split; [exact H|].
  destruct (missing_credentials_fatal Sample.bare_world Sample.options None [] H)
    as (msg & _ & Hrun & Hmsg).
  exists msg. split; [exact Hrun|].
  apply Hmsg; [right; right; left; reflexivity | reflexivity].
Defined.

(** ** Reasoning on runs *)

Section RunLogic.

Context {X : Type} (obs : event -> list X).

Lemma view_app (tr1 tr2 : list event) :
  view obs (tr1 ++ tr2) = view obs tr1 ++ view obs tr2.
Proof. unfold view. apply flat_map_app. Qed.

Lemma hoare_ret {A} (a : A) (Q : A -> list X -> Prop) (E : list X -> Prop) :
  Q a [] -> hoare obs (ret a) Q E.
Proof.
  intros HQ tr. exists [], (Ok a). unfold ret. rewrite app_nil_r.
  split; [reflexivity | exact HQ].
Qed.

Lemma hoare_raise {A} (e : exn) (Q : A -> list X -> Prop) (E : list X -> Prop) :
  E [] -> hoare obs (raise e) Q E.
Proof.
  intros HE tr. exists [], (Raise e). unfold raise. rewrite app_nil_r.
  split; [reflexivity | exact HE].
Qed.

(** A call of a collaborator, whose answer depends on the trace. *)
Lemma hoare_oracle {A} (f : list event -> result A)
    (Q : A -> list X -> Prop) (E : list X -> Prop) :
  (forall a, Q a []) -> E [] -> hoare obs (fun tr => (f tr, tr)) Q E.
Proof.
  intros HQ HE tr. exists [], (f tr). rewrite app_nil_r.
  split; [reflexivity|]. destruct (f tr); auto.
Qed.

Lemma hoare_lift {A} (r : result A) (Q : A -> list X -> Prop)
    (E : list X -> Prop) :
  (forall a, Q a []) -> E [] -> hoare obs (lift r) Q E.
Proof. intros HQ HE. now apply (hoare_oracle (fun _ => r)). Qed.

Lemma hoare_emit (e : event) (Q : unit -> list X -> Prop) (E : list X -> Prop) :
  Q tt (obs e) -> hoare obs (emit e) Q E.
Proof.
  intros HQ tr. exists [e], (Ok tt). unfold emit.
  split; [reflexivity|]. unfold view. simpl. now rewrite app_nil_r.
Qed.

Lemma hoare_conseq {A} (c : run A) (Q Q' : A -> list X -> Prop)
    (E E' : list X -> Prop) :
  hoare obs c Q E ->
  (forall a s, Q a s -> Q' a s) -> (forall s, E s -> E' s) ->
  hoare obs c Q' E'.
Proof.
  intros Hc HQ HE tr. destruct (Hc tr) as (ext & r & Heq & Hpost).
  exists ext, r. split; [exact Heq|]. destruct r; auto.
Qed.

Lemma hoare_bind {A B} (c : run A) (k : A -> run B)
    (Q1 : A -> list X -> Prop) (E1 : list X -> Prop)
    (Q : B -> list X -> Prop) (E : list X -> Prop) :
  hoare obs c Q1 E1 ->
  (forall s, E1 s -> E s) ->
  (forall a s1, Q1 a s1 ->
     hoare obs (k a) (fun b s2 => Q b (s1 ++ s2)) (fun s2 => E (s1 ++ s2))) ->
  hoare obs (rbind c k) Q E.
Proof.
  intros Hc HE Hk tr. destruct (Hc tr) as (ext1 & r1 & Heq1 & Hpost1).
  unfold rbind. rewrite Heq1. destruct r1 as [a|e].
  - destruct (Hk a (view obs ext1) Hpost1 (tr ++ ext1))
      as (ext2 & r2 & Heq2 & Hpost2).
    exists (ext1 ++ ext2), r2. rewrite Heq2, app_assoc, view_app.
    split; [reflexivity | exact Hpost2].
  - exists ext1, (Raise e). split; [reflexivity | now apply HE].
Qed.

(** A quiet step before the rest. *)
Lemma hoare_after_quiet {A B} (c : run A) (k : A -> run B)
    (Q : B -> list X -> Prop) (E : list X -> Prop) :
  quiet obs c -> E [] -> (forall a, hoare obs (k a) Q E) ->
  hoare obs (rbind c k) Q E.
Proof.
  intros Hc HE Hk.
  apply hoare_bind with (Q1 := fun _ s => s = []) (E1 := fun s => s = []).
  - exact Hc.
  - intros s ->. exact HE.
  - intros a s1 ->. simpl. apply Hk.
Qed.

(** A quiet rest after a step. *)
Lemma hoare_then_quiet {A B} (c : run A) (k : A -> run B)
    (Q1 : A -> list X -> Prop) (E1 : list X -> Prop)
    (Q : B -> list X -> Prop) (E : list X -> Prop) :
  hoare obs c Q1 E1 ->
  (forall s, E1 s -> E s) ->
  (forall a, quiet obs (k a)) ->
  (forall a s, Q1 a s -> (forall b, Q b s) /\ E s) ->
  hoare obs (rbind c k) Q E.
Proof.
  intros Hc HE Hk Hpost.
  apply hoare_bind with (Q1 := Q1) (E1 := E1); [exact Hc | exact HE |].
  intros a s1 H1. destruct (Hpost a s1 H1) as [HQ HE'].
  apply hoare_conseq with (Q := fun _ s => s = []) (E := fun s => s = []).
  - apply Hk.
  - intros b s ->. rewrite app_nil_r. apply HQ.
  - intros s ->. rewrite app_nil_r. exact HE'.
Qed.


Lemma quiet_ret {A} (a : A) : quiet obs (ret a).
Proof. now apply hoare_ret. Qed.

Lemma quiet_raise {A} (e : exn) : quiet obs (@raise A e).
Proof. now apply hoare_raise. Qed.

Lemma quiet_oracle {A} (f : list event -> result A) :
  quiet obs (fun tr => (f tr, tr)).
Proof. now apply hoare_oracle. Qed.

Lemma quiet_lift {A} (r : result A) : quiet obs (lift r).
Proof. now apply hoare_lift. Qed.

Lemma quiet_emit (e : event) : obs e = [] -> quiet obs (emit e).
Proof. intros He. now apply hoare_emit. Qed.

Lemma quiet_bind {A B} (c : run A) (k : A -> run B) :
  quiet obs c -> (forall a, quiet obs (k a)) -> quiet obs (rbind c k).
Proof.
  intros Hc Hk. apply hoare_after_quiet; [exact Hc | reflexivity | exact Hk].
Qed.


Lemma quiet_for_each {A} (l : list A) (body : A -> run unit) :
  (forall x, quiet obs (body x)) -> quiet obs (for_each l body).
Proof.
  intros Hbody. induction l as [|x l IH]; simpl.
  - apply quiet_ret.
  - apply quiet_bind; [apply Hbody | intros _; exact IH].
Qed.

End RunLogic.

Lemma rbind_lift_ok {A B} (a : A) (k : A -> run B) :
  rbind (lift (Ok a)) k = k a.
Proof. reflexivity. Qed.

(** ** The stages of the command, seen by an observer *)

Section Stages.

Context {M : Type} (W : World M).
Context {X : Type} (obs : event -> list X).

(** The observer does not look at the logging calls. *)
Hypothesis obs_log : forall lg l msg, obs (EvLog lg l msg) = [].

Lemma quiet_log (lg : Logger) (l : level) (msg : string) :
  quiet obs (log lg l msg).
Proof. unfold log. apply quiet_emit. apply obs_log. Qed.

Lemma quiet_Ask_init (lg : option Logger) : quiet obs (Ask_init W lg).
Proof.
  unfold Ask_init. apply quiet_bind; [apply quiet_lift|].
  intros [[[k1 k2] k3] base].
  apply quiet_bind; [apply quiet_lift | intros m; apply quiet_ret].
Qed.

Lemma quiet_collect_links (self : Ask M) (results : list search_item) :
  forall found_links, quiet obs (collect_links self results found_links).
Proof.
  induction results as [|result rest IH]; intros found_links; simpl.
  - apply quiet_ret.
  - destruct (item_link result) as [link|].
    + destruct (is_empty link); [|apply IH].
      apply quiet_bind; [apply quiet_log | intros _; apply IH].
    + apply quiet_bind; [apply quiet_log | intros _; apply IH].
Qed.



Lemma quiet_vector_search (self : Ask M) (query : string) :
  (forall q n, obs (EvVectorSearch q n) = []) ->
  quiet obs (vector_search W self query).
Proof.
  intros Hvs. unfold vector_search.
  apply quiet_bind; [apply quiet_emit, Hvs | intros _; apply quiet_lift].
Qed.

Lemma quiet_run_inference (self : Ask M) (query model_name : string)
    (matched_chunks : list Result) :
  (forall m msgs, obs (EvChat m msgs) = []) ->
  quiet obs (run_inference W self query model_name matched_chunks).
Proof.
  intros Hchat. unfold run_inference.
  apply quiet_bind; [apply quiet_log | intros _].
  apply quiet_bind; [apply quiet_log | intros _].
  apply quiet_bind; [apply quiet_emit, Hchat | intros _].
  apply quiet_bind; [apply quiet_oracle | intros [content|]].
  - apply quiet_ret.
  - apply quiet_raise.
Qed.


End Stages.

(** ** The fragments expected from a mapping *)

Lemma labelled_windows_of (sr : dict string) :
  flat_map (fun uc => labelled (fst uc) (snd uc)) (windows_of sr 1000 900)
  = expected_saves sr.
Proof.
  unfold expected_saves, windows_of.
  induction sr as [|[url text] sr IH]; simpl; [reflexivity|].
  now rewrite IH.
Qed.

(** ** Citation numbers *)

Lemma enumerate_from_nth {A} (l : list A) :
  forall (i : Z) (k : nat),
    nth_error (enumerate_from i l) k
    = option_map (fun x => (i + Z.of_nat k, x)) (nth_error l k).
Proof.
  induction l as [|x l IH]; intros i k.
  - destruct k; reflexivity.
  - destruct k as [|k]; simpl.
    + now rewrite Z.add_0_r.
    + rewrite IH. destruct (nth_error l k); simpl; [|reflexivity].
      do 2 f_equal. lia.
Qed.

Lemma enumerate_length {A} (l : list A) :
  List.length (enumerate l) = List.length l.
Proof.
  unfold enumerate. generalize 0.
  induction l as [|x l IH]; intros i; simpl; [reflexivity | now rewrite IH].
Qed.



Section Citations.

Context {M : Type} (W : World M).




End Citations.



(** ** The run of the command, stage by stage *)

Lemma rbind_ok {A B} (c : run A) (k : A -> run B) (tr tr' : list event) (a : A) :
  c tr = (Ok a, tr') -> rbind c k tr = k a tr'.
Proof. intros H. unfold rbind. now rewrite H. Qed.

Lemma rbind_raise {A B} (c : run A) (k : A -> run B) (tr tr' : list event)
    (e : exn) :
  c tr = (Raise e, tr') -> rbind c k tr = (Raise e, tr').
Proof. intros H. unfold rbind. now rewrite H. Qed.

Lemma rbind_log {B} (lg : Logger) (l : level) (msg : string)
    (k : unit -> run B) (tr : list event) :
  rbind (log lg l msg) k tr = k tt (tr ++ [EvLog lg l msg]).
Proof. reflexivity. Qed.

Lemma for_each_emit {A} (g : A -> event) (l : list A) :
  forall tr, for_each l (fun x => emit (g x)) tr = (Ok tt, tr ++ map g l).
Proof.
  induction l as [|x l IH]; intros tr; simpl.
  - unfold ret. now rewrite app_nil_r.
  - unfold rbind, emit at 1. rewrite IH, <- app_assoc. reflexivity.
Qed.

Lemma rbind_for_each_log {A B} (lg : Logger) (l : level) (f : A -> string)
    (xs : list A) (k : unit -> run B) (tr : list event) :
  rbind (for_each xs (fun x => log lg l (f x))) k tr
  = k tt (tr ++ map (fun x => EvLog lg l (f x)) xs).
Proof.
  unfold rbind.
  change (fun x => log lg l (f x)) with (fun x => emit (EvLog lg l (f x))).
  now rewrite for_each_emit.
Qed.

Lemma flat_map_nil {A B} (l : list A) :
  flat_map (fun _ : A => @nil B) l = [].
Proof. induction l; simpl; auto. Qed.

Lemma flat_map_single {A B} (f : A -> B) (l : list A) :
  flat_map (fun x => [f x]) l = map f l.
Proof. induction l as [|x l IH]; simpl; [reflexivity | now rewrite IH]. Qed.

Lemma map_const_repeat {A B} (c : B) (l : list A) :
  map (fun _ => c) l = repeat c (List.length l).
Proof. induction l as [|x l IH]; simpl; [reflexivity | now rewrite IH]. Qed.

Section Effects.

Context {X : Type} (obs : event -> list X).

Lemma view_map {A} (g : A -> event) (l : list A) :
  view obs (map g l) = flat_map (fun x => obs (g x)) l.
Proof.
  unfold view. induction l as [|x l IH]; simpl; [reflexivity | now rewrite IH].
Qed.

Hypothesis obs_log : forall lg l msg, obs (EvLog lg l msg) = [].

(** An observer that does not look at the log sees a run by its effects. *)
Lemma view_effects (tr : list event) : view obs (view effects tr) = view obs tr.
Proof.
  unfold view. induction tr as [|e tr IH]; [reflexivity|].
  cbn [flat_map]. rewrite flat_map_app, IH. f_equal.
  destruct e; cbn [effects flat_map]; rewrite ?app_nil_r; try reflexivity.
  symmetry. apply obs_log.
Qed.

(** What the observer sees of a run that got through the scraping. *)
Lemma view_stages (ext : list event) (url : string) (links : list string)
    (calls : list (string * Metadata)) (rest : list event) :
  view effects ext
  = EvSearchRequest url :: map EvGet links ++ save_events calls ++ rest ->
  view obs ext
  = obs (EvSearchRequest url)
    ++ flat_map (fun u => obs (EvGet u)) links
    ++ flat_map (fun s => obs (EvSave (fst s) (snd s))) calls
    ++ view obs rest.
Proof.
  intros H. rewrite <- view_effects, H.
  change (EvSearchRequest url :: map EvGet links ++ save_events calls ++ rest)
    with ([EvSearchRequest url] ++ map EvGet links ++ save_events calls ++ rest).
  rewrite !view_app. unfold save_events. rewrite !view_map.
  unfold view at 1. cbn [flat_map]. now rewrite app_nil_r.
Qed.

Lemma hoare_after_silent {A B} (c : run A) (k : A -> run B)
    (Q : B -> list X -> Prop) (E : list X -> Prop) :
  hoare obs c (fun _ s => s = []) (fun _ => False) ->
  (forall a, hoare obs (k a) Q E) ->
  hoare obs (rbind c k) Q E.
Proof.
  intros Hc Hk.
  apply hoare_bind with (Q1 := fun _ s => s = []) (E1 := fun _ => False).
  - exact Hc.
  - intros s [].
  - intros a s1 ->. simpl. apply Hk.
Qed.

Lemma log_silent (lg : Logger) (l : level) (msg : string) :
  hoare obs (log lg l msg) (fun _ s => s = []) (fun _ => False).
Proof. unfold log. apply hoare_emit. apply obs_log. Qed.

Lemma for_each_silent {A} (l : list A) (body : A -> run unit) :
  (forall x, hoare obs (body x) (fun _ s => s = []) (fun _ => False)) ->
  hoare obs (for_each l body) (fun _ s => s = []) (fun _ => False).
Proof.
  intros Hbody. induction l as [|x l IH]; simpl.
  - now apply hoare_ret.
  - apply hoare_after_silent; [apply Hbody | intros _; exact IH].
Qed.

End Effects.

Section SaveRuns.

Context {M : Type} (W : World M).

Lemma save_all_app (m : M) (a b : list (string * Metadata)) :
  save_all W m (a ++ b) = (m' <- save_all W m a ;; save_all W m' b).
Proof.
  revert m. induction a as [|[texts md] a IH]; intros m; simpl; [reflexivity|].
  destruct (Memory_save W m texts md) as [m1|e]; simpl; [apply IH | reflexivity].
Qed.

Lemma calls_made_app (a b : list (string * Metadata)) :
  forall m,
    calls_made W m (a ++ b)
    = match save_all W m a with
      | Ok m' => a ++ calls_made W m' b
      | Raise _ => calls_made W m a
      end.
Proof.
  induction a as [|[texts md] a IH]; intros m; simpl; [reflexivity|].
  destruct (Memory_save W m texts md) as [m1|e]; simpl; [|reflexivity].
  rewrite IH. destruct (save_all W m1 a); reflexivity.
Qed.

(** When no call raises, every fragment is saved. *)
Lemma calls_made_ok (saves : list (string * Metadata)) :
  forall m m', save_all W m saves = Ok m' -> calls_made W m saves = saves.
Proof.
  induction saves as [|[texts md] saves IH]; intros m m'; simpl; [reflexivity|].
  destruct (Memory_save W m texts md) as [m1|e]; simpl; [|discriminate].
  intros H. f_equal. now apply (IH m1 m').
Qed.

(** The calls made are a beginning of the list. *)
Lemma calls_made_prefix (saves : list (string * Metadata)) :
  forall m, exists rest, saves = calls_made W m saves ++ rest.
Proof.
  induction saves as [|[texts md] saves IH]; intros m; simpl.
  - now exists [].
  - destruct (Memory_save W m texts md) as [m1|e].
    + destruct (IH m1) as [rest Hrest]. exists rest. simpl. now f_equal.
    + now exists saves.
Qed.

(** The calls stop at the first one that raises. *)
Lemma calls_made_raise (done rest : list (string * Metadata))
    (texts : string) (md : Metadata) (m m' : M) (e : exn) :
  save_all W m done = Ok m' ->
  Memory_save W m' texts md = Raise e ->
  save_all W m (done ++ (texts, md) :: rest) = Raise e /\
  calls_made W m (done ++ (texts, md) :: rest) = done ++ [(texts, md)].
Proof.
  intros Hdone Hsave. rewrite save_all_app, calls_made_app, Hdone. simpl.
  rewrite Hsave. split; reflexivity.
Qed.

Lemma save_events_app (a b : list (string * Metadata)) :
  save_events (a ++ b) = save_events a ++ save_events b.
Proof. unfold save_events. apply map_app. Qed.

Lemma save_chunks_run (url : string) (l : list (Z * string)) :
  forall m tr,
    save_chunks W url l m tr
    = (save_all W m
         (map (fun ic => (snd ic, {| md_url := url; md_chunk := fst ic |})) l),
       tr ++ save_events
               (calls_made W m
                  (map (fun ic => (snd ic, {| md_url := url; md_chunk := fst ic |}))
                       l))).
Proof.
  induction l as [|[i chunk] l IH]; intros m tr.
  - simpl. unfold ret. now rewrite app_nil_r.
  - cbn [save_chunks map save_all calls_made fst snd].
    unfold rbind at 1. unfold emit. unfold rbind at 1. unfold lift.
    destruct (Memory_save W m chunk {| md_url := url; md_chunk := i |}) as [m1|e].
    + rewrite IH. cbn [Py.bind save_events map]. rewrite <- app_assoc. reflexivity.
    + cbn [Py.bind save_events map]. reflexivity.
Qed.

Lemma save_loop_run (its : list (string * list string)) :
  forall m tr,
    save_loop W its m tr
    = (save_all W m (flat_map (fun uc => labelled (fst uc) (snd uc)) its),
       tr ++ save_events
               (calls_made W m
                  (flat_map (fun uc => labelled (fst uc) (snd uc)) its))).
Proof.
  induction its as [|[url chunks] its IH]; intros m tr.
  - simpl. unfold ret. now rewrite app_nil_r.
  - cbn [save_loop flat_map fst snd]. unfold rbind.
    rewrite save_chunks_run. fold (labelled url chunks).
    rewrite save_all_app, calls_made_app.
    destruct (save_all W m (labelled url chunks)) as [m1|e] eqn:Hs; cbn [Py.bind].
    + rewrite IH, save_events_app, <- app_assoc.
      rewrite (calls_made_ok _ _ _ Hs). reflexivity.
    + reflexivity.
Qed.

(** [save_to_db]: the outcome and the calls, in one equation. *)
Lemma save_to_db_run (self : Ask M) (r : dict (list string)) (tr : list event) :
  save_to_db W self r tr
  = (match save_all W (memory self)
             (flat_map (fun uc => labelled (fst uc) (snd uc)) r) with
     | Ok m => Ok (with_memory self m)
     | Raise e => Raise e
     end,
     tr ++ save_events
             (calls_made W (memory self)
                (flat_map (fun uc => labelled (fst uc) (snd uc)) r))).
Proof.
  unfold save_to_db, rbind, items. rewrite save_loop_run.
  destruct (save_all W (memory self) _); reflexivity.
Qed.

End SaveRuns.

Section RunStages.

Context {M : Type} (W : World M).

Lemma Ask_init_trace (lg : option Logger) (tr : list event) :
  snd (Ask_init W lg tr) = tr.
Proof.
  unfold Ask_init, rbind, lift, ret.
  destruct (read_env_variables W) as [[[[k1 k2] k3] base]|e]; [|reflexivity].
  destruct (Memory_new W); reflexivity.
Qed.

Lemma search_web_effects (self : Ask M) (query : string)
    (date_restrict : option Z) (target_site : option string) :
  hoare effects (search_web W self query date_restrict target_site)
    (fun _ s =>
       s = [EvSearchRequest (search_url W self query date_restrict target_site)])
    (fun s =>
       s = [EvSearchRequest (search_url W self query date_restrict target_site)]).
Proof.
  assert (Hlog : forall lg l msg, effects (EvLog lg l msg) = []) by reflexivity.
  unfold search_web. cbv zeta.
  apply hoare_after_silent; [now apply log_silent | intros _].
  apply hoare_then_quiet with
    (Q1 := fun _ s =>
             s = [EvSearchRequest
                    (search_url W self query date_restrict target_site)])
    (E1 := fun _ => False).
  - now apply hoare_emit.
  - intros s [].
  - intros _. apply quiet_bind; [apply quiet_oracle | intros reply].
    destruct reply as [error|text| |[[|result results]|]].
    + apply quiet_raise.
    + apply quiet_raise.
    + apply quiet_bind; [now apply quiet_log | intros _; apply quiet_ret].
    + apply quiet_bind; [now apply quiet_log | intros _; apply quiet_ret].
    + now apply quiet_collect_links.
    + apply quiet_bind; [now apply quiet_log | intros _; apply quiet_ret].
  - intros _ s ->. split; [intros _|]; reflexivity.
Qed.

Lemma scrape_loop_effects (self : Ask M) (urls : list string) :
  forall (acc : dict string) (tr : list event),
  exists res ext,
    scrape_loop W self urls acc tr = (Ok res, tr ++ ext) /\
    (Py.wf acc -> Py.wf res) /\
    view effects ext = map EvGet urls.
Proof.
  induction urls as [|url rest IH]; intros acc tr.
  - exists acc, []. simpl. unfold ret. now rewrite app_nil_r.
  - destruct (http_get W (tr ++ [EvGet url]) url) as [[body|]|e] eqn:Hget.
    + rewrite (scrape_loop_body W self _ _ _ _ _ Hget).
      destruct (IH (Py.set acc url (normalize body))
                   (tr ++ [EvGet url;
                           EvLog (logger self) DEBUG
                             ("Scraped " +++ url +++ ": " +++ normalize body +++ "...")]))
        as (res & ext & Hrun & Hwf & Hview).
      exists res. eexists. rewrite Hrun, <- app_assoc. split; [reflexivity|].
      split; [intros Ha; apply Hwf; now apply wf_set|].
      rewrite view_app, Hview. reflexivity.
    + rewrite (scrape_loop_no_body W self _ _ _ _ Hget).
      destruct (IH acc
                   (tr ++ [EvGet url;
                           EvLog (logger self) WARNING
                             ("No body tag found in the response for url: " +++ url)]))
        as (res & ext & Hrun & Hwf & Hview).
      exists res. eexists. rewrite Hrun, <- app_assoc. split; [reflexivity|].
      split; [exact Hwf|].
      rewrite view_app, Hview. reflexivity.
    + rewrite (scrape_loop_raise W self _ _ _ _ _ Hget).
      destruct (IH acc
                   (tr ++ [EvGet url;
                           EvLog (logger self) ERROR
                             ("scraping error " +++ url +++ ": " +++ exn_str e)]))
        as (res & ext & Hrun & Hwf & Hview).
      exists res. eexists. rewrite Hrun, <- app_assoc. split; [reflexivity|].
      split; [exact Hwf|].
      rewrite view_app, Hview. reflexivity.
Qed.

Lemma save_to_db_effects (self : Ask M) (r : dict (list string)) :
  hoare effects (save_to_db W self r)
    (fun self' s =>
       save_all W (memory self)
         (flat_map (fun uc => labelled (fst uc) (snd uc)) r)
       = Ok (memory self')
       /\ self' = with_memory self (memory self')
       /\ s = save_events
                (calls_made W (memory self)
                   (flat_map (fun uc => labelled (fst uc) (snd uc)) r)))
    (fun s =>
       (exists e,
          save_all W (memory self)
            (flat_map (fun uc => labelled (fst uc) (snd uc)) r)
          = Raise e)
       /\ s = save_events
                (calls_made W (memory self)
                   (flat_map (fun uc => labelled (fst uc) (snd uc)) r))).
Proof.
  intros tr. rewrite save_to_db_run.
  assert (Hv : forall l, view effects (save_events l) = save_events l).
  { intros l. unfold save_events. rewrite view_map. apply flat_map_single. }
  eexists. eexists. split; [reflexivity|].
  destruct (save_all W (memory self) _) as [m|e]; rewrite Hv.
  - split; [reflexivity | split; reflexivity].
  - split; [now exists e | reflexivity].
Qed.

Lemma vector_search_effects (self : Ask M) (query : string) :
  hoare effects (vector_search W self query)
    (fun results s =>
       s = [EvVectorSearch query 10]
       /\ Memory_search W (memory self) query 10 = Ok results)
    (fun s =>
       s = [EvVectorSearch query 10]
       /\ exists e, Memory_search W (memory self) query 10 = Raise e).
Proof.
  intros tr. unfold vector_search, rbind, emit, lift.
  exists [EvVectorSearch query 10], (Memory_search W (memory self) query 10).
  split; [reflexivity|].
  destruct (Memory_search W (memory self) query 10) as [results|e].
  - split; reflexivity.
  - split; [reflexivity | now exists e].
Qed.

Lemma run_inference_effects (self : Ask M) (query model_name : string)
    (results : list Result) :
  hoare effects (run_inference W self query model_name results)
    (fun answer s =>
       s = [EvChat (get_chat_model self model_name) (messages_for query results)]
       /\ exists h,
            chat_api W h (get_chat_model self model_name)
                     (messages_for query results)
            = Ok (Some answer))
    (fun s =>
       s = [EvChat (get_chat_model self model_name) (messages_for query results)]).
Proof.
  intros tr.
  unfold run_inference, messages_for, rbind, log, emit, raise, ret.
  cbv zeta beta iota. rewrite <- !app_assoc. cbn [app].
  destruct (chat_api W _ _ _) as [[content|]|e] eqn:Hchat.
  - eexists. eexists. split; [reflexivity|]. split; [reflexivity|].
    eexists. exact Hchat.
  - eexists. eexists. split; [reflexivity|]. reflexivity.
  - eexists. eexists. split; [reflexivity|]. reflexivity.
Qed.

Lemma echo_effects (lines : list string) :
  view effects (map EvEcho lines) = map EvEcho lines.
Proof. rewrite view_map. apply flat_map_single. Qed.

(** The lines of the answer and of the references. *)
Lemma print_effects (answer : string) (results : list Result) :
  hoare effects
    (rbind (emit (EvEcho ("# Answer" +++ nl +++ nl +++ answer +++ nl)))
       (fun _ =>
          rbind (emit (EvEcho "# References"))
            (fun _ =>
               for_each (enumerate results)
                 (fun ir => emit (EvEcho (reference_line (fst ir) (snd ir)))))))
    (fun _ s => s = map EvEcho (printed answer results))
    (fun _ => False).
Proof.
  intros tr.
  change (rbind (emit (EvEcho ("# Answer" +++ nl +++ nl +++ answer +++ nl)))
            (fun _ =>
               rbind (emit (EvEcho "# References"))
                 (fun _ =>
                    for_each (enumerate results)
                      (fun ir => emit (EvEcho (reference_line (fst ir) (snd ir))))))
            tr)
    with (for_each (enumerate results)
            (fun ir => emit (EvEcho (reference_line (fst ir) (snd ir))))
            ((tr ++ [EvEcho ("# Answer" +++ nl +++ nl +++ answer +++ nl)])
             ++ [EvEcho "# References"])).
  rewrite for_each_emit.
  exists (map EvEcho (printed answer results)), (Ok tt).
  split.
  - rewrite <- !app_assoc. unfold printed. cbn [map app].
    now rewrite map_map.
  - apply echo_effects.
Qed.

(** The run of the command when it gets through the scraping: the search
    request, the page requests, the saves of the fragments of size 1000
    at stride 900 of the texts scraped, as far as they go, then the
    retrieval on the memory they leave, then the call of the model on the
    results of the retrieval, then the lines [out] printed. *)
Lemma search_extract_summarize_effects (o : Options) (tr : list event)
    (ask : Ask M) (links : list string) (sr : dict string) (tr' : list event) :
  scraping_of W o tr ask links sr tr' ->
  Py.wf sr /\
  exists ext res out,
    search_extract_summarize W o tr = (res, tr ++ ext) /\
    view effects ext
    = EvSearchRequest
        (search_url W ask (opt_query o) (opt_date_restrict o) (opt_target_site o))
      :: map EvGet links
      ++ save_events (calls_made W (memory ask) (expected_saves sr))
      ++ match save_all W (memory ask) (expected_saves sr) with
         | Raise _ => []
         | Ok m =>
             EvVectorSearch (opt_query o) 10
             :: match Memory_search W m (opt_query o) 10 with
                | Raise _ => []
                | Ok results =>
                    EvChat (get_chat_model ask (opt_model_name o))
                           (messages_for (opt_query o) results)
                    :: map EvEcho out
                end
         end /\
    match save_all W (memory ask) (expected_saves sr) with
    | Raise _ => exists e, res = Raise e
    | Ok m =>
        match Memory_search W m (opt_query o) 10 with
        | Raise _ => exists e, res = Raise e
        | Ok results =>
            (out = [] /\ exists e, res = Raise e)
            \/ exists answer h,
                 chat_api W h (get_chat_model ask (opt_model_name o))
                          (messages_for (opt_query o) results)
                 = Ok (Some answer)
                 /\ out = printed answer results /\ res = Ok tt
        end
    end.
Proof.
  intros (tr1 & HAsk & Hsearch & Hscrape).
  assert (Hlog : forall lg l msg, effects (EvLog lg l msg) = []) by reflexivity.
  (* the events of the search and of the scraping *)
  destruct (search_web_effects ask (opt_query o) (opt_date_restrict o)
              (opt_target_site o)
              (tr ++ [EvLog (get_logger (opt_log_level o)) INFO
                            (check_mark +++ " Searching the web ...")]))
    as (e1 & r1 & Heq1 & Hp1).
  rewrite Hsearch in Heq1.
  pose proof (f_equal fst Heq1) as Hr1. pose proof (f_equal snd Heq1) as Htr1.
  cbn [fst snd] in Hr1, Htr1. subst r1. cbv beta iota in Hp1.
  pose proof Hscrape as Hscrape'. unfold scrape_urls in Hscrape'.
  match type of Hscrape' with
  | scrape_loop _ _ _ _ ?t = _ =>
      destruct (scrape_loop_effects ask links [] t)
        as (res2 & e2 & Heq2 & Hwf2 & Hv2)
  end.
  rewrite Hscrape' in Heq2.
  pose proof (f_equal fst Heq2) as Hres2. pose proof (f_equal snd Heq2) as Htr'.
  cbn [fst snd] in Hres2, Htr'.
  assert (Hsr : res2 = sr) by congruence. subst res2.
  assert (Hwf : Py.wf sr) by (apply Hwf2; constructor).
  split; [exact Hwf|].
  (* the rest of the run, from the trace the scraping left *)
  set (Q := fun (_ : unit) (s : list event) =>
              exists m results answer h,
                save_all W (memory ask) (expected_saves sr) = Ok m /\
                Memory_search W m (opt_query o) 10 = Ok results /\
                chat_api W h (get_chat_model ask (opt_model_name o))
                         (messages_for (opt_query o) results)
                = Ok (Some answer) /\
                s = save_events (calls_made W (memory ask) (expected_saves sr))
                    ++ [EvVectorSearch (opt_query o) 10]
                    ++ [EvChat (get_chat_model ask (opt_model_name o))
                               (messages_for (opt_query o) results)]
                    ++ map EvEcho (printed answer results)).
  set (E := fun (s : list event) =>
              ((exists e, save_all W (memory ask) (expected_saves sr) = Raise e)
               /\ s = save_events (calls_made W (memory ask) (expected_saves sr)))
              \/ exists m,
                   save_all W (memory ask) (expected_saves sr) = Ok m /\
                   (((exists e, Memory_search W m (opt_query o) 10 = Raise e)
                     /\ s = save_events
                              (calls_made W (memory ask) (expected_saves sr))
                            ++ [EvVectorSearch (opt_query o) 10])
                    \/ exists results,
                         Memory_search W m (opt_query o) 10 = Ok results /\
                         s = save_events
                               (calls_made W (memory ask) (expected_saves sr))
                             ++ [EvVectorSearch (opt_query o) 10]
                             ++ [EvChat (get_chat_model ask (opt_model_name o))
                                        (messages_for (opt_query o) results)])).
  assert (Htail : exists K,
             search_extract_summarize W o tr = K tr' /\ hoare effects K Q E).
  { eexists. split.
    - unfold search_extract_summarize. cbv zeta.
      rewrite (rbind_ok _ _ _ _ _ HAsk). cbv beta.
      rewrite rbind_log.
      rewrite (rbind_ok _ _ _ _ _ Hsearch). cbv beta.
      rewrite rbind_log, rbind_for_each_log, rbind_log.
      rewrite <- !app_assoc.
      rewrite (rbind_ok _ _ _ _ _ Hscrape). cbv beta.
      reflexivity.
    - apply hoare_after_silent; [now apply log_silent | intros _].
      apply hoare_after_silent; [now apply log_silent | intros _].
      rewrite (chunk_results_windows sr 1000 100) by (exact Hwf || lia).
      change (1000 - 100) with 900.
      rewrite rbind_lift_ok.
      apply hoare_after_silent; [| intros _].
      { apply for_each_silent. intros uc.
        apply hoare_after_silent; [now apply log_silent | intros _].
        apply for_each_silent. intros ic. now apply log_silent. }
      apply hoare_after_silent; [now apply log_silent | intros _].
      apply hoare_bind with
        (1 := save_to_db_effects ask (windows_of sr 1000 900)).
      { rewrite labelled_windows_of. intros s Hs. left. exact Hs. }
      rewrite labelled_windows_of.
      intros ask' s1 (Hsave & Hask' & ->).
      apply hoare_after_silent; [now apply log_silent | intros _].
      apply hoare_bind with (1 := vector_search_effects ask' (opt_query o)).
      { intros s [-> [e He]]. right. exists (memory ask').
        split; [exact Hsave|]. left. split; [now exists e | reflexivity]. }
      intros results s2 [-> Hsearch'].
      apply hoare_after_silent;
        [apply for_each_silent; intros x; now apply log_silent | intros _].
      apply hoare_after_silent; [now apply log_silent | intros _].
      assert (Hmodel : get_chat_model ask' (opt_model_name o)
                       = get_chat_model ask (opt_model_name o))
        by (rewrite Hask'; reflexivity).
      apply hoare_bind with
        (1 := run_inference_effects ask' (opt_query o) (opt_model_name o) results).
      { rewrite Hmodel. intros s ->. right. exists (memory ask').
        split; [exact Hsave|]. right. exists results.
        split; [exact Hsearch' | reflexivity]. }
      rewrite Hmodel.
      intros answer s3 [-> [h Hchat]].
      apply hoare_after_silent; [now apply log_silent | intros _].
      apply hoare_conseq with (1 := print_effects answer results).
      + intros u s ->. exists (memory ask'), results, answer, h.
        split; [exact Hsave|]. split; [exact Hsearch'|].
        split; [exact Hchat | reflexivity].
      + intros s []. }
  destruct Htail as (K & HK & Hhoare).
  destruct (Hhoare tr') as (e3 & res & Heq3 & Hpost).
  rewrite <- HK in Heq3.
  assert (Htrace : tr' ++ e3
                   = tr ++ ([EvLog (get_logger (opt_log_level o)) INFO
                                   (check_mark +++ " Searching the web ...")]
                            ++ e1
                            ++ [EvLog (get_logger (opt_log_level o)) INFO
                                      (check_mark +++ " Found "
                                       +++ str_of_int (Z.of_nat (List.length links))
                                       +++ " links for query: " +++ opt_query o)]
                            ++ map (fun il =>
                                      EvLog (get_logger (opt_log_level o)) DEBUG
                                            (str_of_int (fst il + 1) +++ ". "
                                             +++ snd il))
                                   (enumerate links)
                            ++ [EvLog (get_logger (opt_log_level o)) INFO
                                      (check_mark +++ " Scraping the URLs ...")]
                            ++ e2 ++ e3)).
  { rewrite Htr', Htr1, <- !app_assoc. reflexivity. }
  rewrite Htrace in Heq3.
  assert (Hlogs : forall (f : Z * string -> string) lv (l : list (Z * string)),
             view effects
               (map (fun il => EvLog (get_logger (opt_log_level o)) lv (f il)) l)
             = []).
  { intros f lv l. rewrite view_map. apply flat_map_nil. }
  match type of Heq3 with
  | _ = (_, tr ++ ?x) =>
      assert (Hview : view effects x
                      = EvSearchRequest
                          (search_url W ask (opt_query o) (opt_date_restrict o)
                                      (opt_target_site o))
                        :: map EvGet links ++ view effects e3)
  end.
  { rewrite !view_app, Hp1, Hv2, Hlogs. reflexivity. }
  destruct res as [[]|e].
  - destruct Hpost as (m & results & answer & h & Hs & Hr & Hc & Hv3).
    eexists. exists (Ok tt), (printed answer results).
    split; [exact Heq3|]. rewrite Hview, Hv3, Hs, Hr.
    split; [reflexivity|].
    right. exists answer, h. split; [exact Hc|]. split; reflexivity.
  - destruct Hpost as [[[e' He'] Hv3]|(m & Hs & [[[e' He'] Hv3]|(results & Hr & Hv3)])].
    + eexists. exists (Raise e), []. split; [exact Heq3|].
      rewrite Hview, Hv3, He', app_nil_r. split; [reflexivity | now exists e].
    + eexists. exists (Raise e), []. split; [exact Heq3|].
      rewrite Hview, Hv3, Hs, He'. split; [reflexivity | now exists e].
    + eexists. exists (Raise e), []. split; [exact Heq3|].
      rewrite Hview, Hv3, Hs, Hr. split; [reflexivity|].
      left. split; [reflexivity | now exists e].
Qed.

(** A run gets through the scraping, or it stops at the construction of
    the object or at the search, and then it raises. *)
Lemma scraping_or_stop (o : Options) (tr : list event) :
  (exists ask links sr tr', scraping_of W o tr ask links sr tr')
  \/ exists ext e,
       search_extract_summarize W o tr = (Raise e, tr ++ ext) /\
       (view effects ext = []
        \/ exists url, view effects ext = [EvSearchRequest url]) /\
       forall ask links sr tr', ~ scraping_of W o tr ask links sr tr'.
Proof.
  pose proof (Ask_init_trace (Some (get_logger (opt_log_level o))) tr) as Htr.
  destruct (Ask_init W (Some (get_logger (opt_log_level o))) tr)
    as [[ask|e] t0] eqn:HA; simpl in Htr; subst t0.
  - destruct (search_web_effects ask (opt_query o) (opt_date_restrict o)
                (opt_target_site o)
                (tr ++ [EvLog (get_logger (opt_log_level o)) INFO
                              (check_mark +++ " Searching the web ...")]))
      as (e1 & r1 & Heq1 & Hp1).
    destruct r1 as [links|e].
    + left.
      match goal with
      | |- exists a l s t, scraping_of _ _ _ a l s t =>
          destruct (scrape_loop_effects ask links []
                      (((tr ++ [EvLog (get_logger (opt_log_level o)) INFO
                                      (check_mark +++ " Searching the web ...")])
                        ++ e1)
                       ++ [EvLog (get_logger (opt_log_level o)) INFO
                                 (check_mark +++ " Found "
                                  +++ str_of_int (Z.of_nat (List.length links))
                                  +++ " links for query: " +++ opt_query o)]
                       ++ map (fun il =>
                                 EvLog (get_logger (opt_log_level o)) DEBUG
                                       (str_of_int (fst il + 1) +++ ". " +++ snd il))
                              (enumerate links)
                       ++ [EvLog (get_logger (opt_log_level o)) INFO
                                 (check_mark +++ " Scraping the URLs ...")]))
            as (sr & e2 & Heq2 & _ & _)
      end.
      exists ask, links, sr. eexists. eexists.
      split; [exact HA|]. split; [exact Heq1|]. exact Heq2.
    + right. exists ([EvLog (get_logger (opt_log_level o)) INFO
                            (check_mark +++ " Searching the web ...")] ++ e1), e.
      split.
      * unfold search_extract_summarize. cbv zeta.
        rewrite (rbind_ok _ _ _ _ _ HA). cbv beta.
        rewrite rbind_log.
        rewrite (rbind_raise _ _ _ _ _ Heq1).
        now rewrite <- app_assoc.
      * split; [right; eexists; rewrite view_app; exact Hp1|].
        intros a l s t (t1 & HA' & Hs' & _).
        rewrite HA in HA'. assert (a = ask) by congruence. subst a.
        rewrite Heq1 in Hs'. discriminate.
  - right. exists [], e. split.
    + unfold search_extract_summarize. cbv zeta.
      rewrite (rbind_raise _ _ _ _ _ HA). now rewrite app_nil_r.
    + split; [now left|].
      intros a l s t (t1 & HA' & _). rewrite HA in HA'. discriminate.
Qed.

End RunStages.

(** ** The fragments the command stores *)

Lemma in_enumerate {A} (l : list A) (i : Z) (x : A) :
  In (i, x) (enumerate l)
  <-> exists k : nat, i = Z.of_nat k /\ nth_error l k = Some x.
Proof.
  unfold enumerate. split.
  - intros H. apply In_nth_error in H. destruct H as [k Hk].
    rewrite enumerate_from_nth in Hk.
    destruct (nth_error l k) as [y|] eqn:Hy; [|discriminate].
    simpl in Hk. inversion Hk; subst. exists k. split; [reflexivity | exact Hy].
  - intros (k & Hi & Hk). subst i. apply nth_error_In with (n := k).
    rewrite enumerate_from_nth, Hk. reflexivity.
Qed.

(** The fragments expected from a mapping: for every source, the windows
    of 1000 characters that start at the multiples of 900 below the
    length of its text, each numbered by its rank. *)
Lemma in_expected_saves (sr : dict string) (texts : string) (md : Metadata) :
  Py.wf sr ->
  (In (texts, md) (expected_saves sr) <->
   exists text (k : nat),
     Py.get sr (md_url md) = Some text /\
     md_chunk md = Z.of_nat k /\
     Z.of_nat k * 900 < len text /\
     texts = slice text (Z.of_nat k * 900) (Z.of_nat k * 900 + 1000)).
Proof.
  intros Hwf. unfold expected_saves. rewrite in_flat_map. split.
  - intros ([url text] & Hin & Hlab). cbn [fst snd] in Hlab.
    unfold labelled in Hlab. apply in_map_iff in Hlab.
    destruct Hlab as ([i c] & Heq & Hic). cbn [fst snd] in Heq.
    inversion Heq; subst. apply in_enumerate in Hic.
    destruct Hic as (k & Hi & Hk). subst i.
    exists text, k. cbn [md_url md_chunk].
    split; [now apply in_get|]. split; [reflexivity|]. split.
    + apply range_length_spec; [lia|].
      rewrite <- windows_length with (size := 1000).
      apply nth_error_Some. congruence.
    + now apply windows_nth.
  - intros (text & k & Hget & Hchunk & Hlt & Htexts).
    exists (md_url md, text). split; [now apply get_in|].
    cbn [fst snd]. unfold labelled. apply in_map_iff.
    exists (Z.of_nat k, texts). split.
    + cbn [fst snd]. rewrite <- Hchunk. destruct md; reflexivity.
    + apply in_enumerate. exists k. split; [reflexivity|].
      rewrite Htexts. apply windows_nth_some.
      rewrite windows_length. apply range_length_spec; [lia | exact Hlt].
Qed.

Lemma flat_map_pairs {A B} (l : list (A * B)) :
  flat_map (fun s => [(fst s, snd s)]) l = l.
Proof.
  induction l as [|[a b] l IH]; simpl; [reflexivity | now rewrite IH].
Qed.

(** C10: whatever the command-line options and the world, the command
    fragments with size 1000 and overlap 100.  A run that stops before
    the scraping stores nothing and raises.  In every other run, with
    [sr] the mapping its call of [scrape_urls] returned: the call
    [chunk_results sr 1000 100] the command makes succeeds; the fragments
    the run hands to [Memory.save] are the expected ones, in order, as
    far as the saves go: up to the first call that raises, and all of
    them when none does; and the expected fragments are, for every source
    of [sr], the windows [text[900*k : 900*k + 1000]] for every [k] with
    [900*k < len(text)], numbered [k]. *)
Theorem fixed_fragment_parameters {M : Type} (W : World M) (o : Options)
    (tr : list event) :
  exists ext res,
    search_extract_summarize W o tr = (res, tr ++ ext) /\
    ((forall ask links sr tr', ~ scraping_of W o tr ask links sr tr') ->
     view saved ext = [] /\ exists e, res = Raise e) /\
    (forall ask links sr tr',
       scraping_of W o tr ask links sr tr' ->
       chunk_results sr 1000 100 = Ok (windows_of sr 1000 900) /\
       view saved ext = calls_made W (memory ask) (expected_saves sr) /\
       (exists rest, expected_saves sr = view saved ext ++ rest) /\
       (forall m,
          save_all W (memory ask) (expected_saves sr) = Ok m ->
          view saved ext = expected_saves sr) /\
       (forall texts md,
          In (texts, md) (expected_saves sr) <->
          exists text (k : nat),
            Py.get sr (md_url md) = Some text /\
            md_chunk md = Z.of_nat k /\
            Z.of_nat k * 900 < len text /\
            texts = slice text (Z.of_nat k * 900) (Z.of_nat k * 900 + 1000))).
Proof.
  assert (Hlog : forall lg l msg, saved (EvLog lg l msg) = []) by reflexivity.
  assert (Hyes : forall ext res ask links sr tr',
             search_extract_summarize W o tr = (res, tr ++ ext) ->
             scraping_of W o tr ask links sr tr' ->
             chunk_results sr 1000 100 = Ok (windows_of sr 1000 900) /\
             view saved ext = calls_made W (memory ask) (expected_saves sr) /\
             (exists rest, expected_saves sr = view saved ext ++ rest) /\
             (forall m,
                save_all W (memory ask) (expected_saves sr) = Ok m ->
                view saved ext = expected_saves sr) /\
             (forall texts md,
                In (texts, md) (expected_saves sr) <->
                exists text (k : nat),
                  Py.get sr (md_url md) = Some text /\
                  md_chunk md = Z.of_nat k /\
                  Z.of_nat k * 900 < len text /\
                  texts = slice text (Z.of_nat k * 900) (Z.of_nat k * 900 + 1000))).
  { intros ext res ask links sr tr' Hrun H.
    destruct (search_extract_summarize_effects W o tr _ _ _ _ H)
      as (Hwf & ext' & res' & out & Hrun' & Heff & _).
    rewrite Hrun in Hrun'.
    assert (Hext : ext' = ext) by (apply (app_inv_head tr); congruence).
    subst ext'.
    assert (Hsaved : view saved ext
                     = calls_made W (memory ask) (expected_saves sr)).
    { rewrite (view_stages saved Hlog _ _ _ _ _ Heff).
      cbn [saved app]. rewrite flat_map_nil, flat_map_pairs. cbn [app].
      assert (Hrest : forall rest, view saved rest = [] -> forall l : list (string * Metadata), l ++ view saved rest = l).
      { intros rest -> l. apply app_nil_r. }
      apply Hrest.
      destruct (save_all W (memory ask) (expected_saves sr)) as [m|e];
        [|reflexivity].
      destruct (Memory_search W m (opt_query o) 10) as [results|e];
        [|reflexivity].
      change (view saved (map EvEcho out) = []).
      rewrite view_map. apply flat_map_nil. }
    split; [apply (chunk_results_windows sr 1000 100); [exact Hwf | lia]|].
    split; [exact Hsaved|].
    split; [rewrite Hsaved; apply calls_made_prefix|].
    split; [intros m Hm; rewrite Hsaved; now apply (calls_made_ok W _ _ m)|].
    intros texts md. now apply in_expected_saves. }
  destruct (scraping_or_stop W o tr)
    as [(ask0 & links0 & sr0 & tr0 & H0)|(ext & e & Hrun & Heff & Hno)].
  - destruct (search_extract_summarize_effects W o tr _ _ _ _ H0)
      as (_ & ext & res & out & Hrun & _ & _).
    exists ext, res. split; [exact Hrun|]. split.
    + intros Hno. exfalso. exact (Hno _ _ _ _ H0).
    + intros ask links sr tr' H. exact (Hyes _ _ _ _ _ _ Hrun H).
  - exists ext, (Raise e). split; [exact Hrun|]. split.
    + intros _. split; [|now exists e].
      rewrite <- (view_effects saved Hlog).
      destruct Heff as [->|[url ->]]; reflexivity.
    + intros ask links sr tr' H. exfalso. exact (Hno _ _ _ _ H).
Qed.

Lemma fixed_fragment_parameters_witness :
  exists tr' ext res,
    scraping_of Sample.world Sample.options [] Sample.ask
      ["http://a"; "http://b"] [("http://b", "ABCDEFGHIJ KLM")] tr'
    /\ search_extract_summarize Sample.world Sample.options [] = (res, ext)
    /\ view saved ext
       = [("ABCDEFGHIJ KLM", {| md_url := "http://b"; md_chunk := 0 |})].
Proof.
  assert (H : exists tr',
             scraping_of Sample.world Sample.options [] Sample.ask
               ["http://a"; "http://b"] [("http://b", "ABCDEFGHIJ KLM")] tr').
  { eexists. eexists.
    split; [reflexivity|]. split; [reflexivity|]. reflexivity. }
  destruct H as [tr' H].
  destruct (fixed_fragment_parameters Sample.world Sample.options [])
    as (ext & res & Hrun & _ & Hyes).
  destruct (Hyes _ _ _ _ H) as (_ & _ & _ & Hall & _).
  exists tr', ext, res. split; [exact H|]. split; [exact Hrun|].
  apply (Hall (EmbeddingIndex.insert Sample.embed
                 {| EmbeddingIndex.source_id := "http://b";
                    EmbeddingIndex.sequence_index := 0;
                    EmbeddingIndex.text := "ABCDEFGHIJ KLM" |}
                 EmbeddingIndex.empty)).
  reflexivity.
Defined.

(** ** The embedding index *)

Section IndexProperties.

Import EmbeddingIndex.

Context {V : Type} (embed : string -> V).

Lemma has_identity_spec (url : string) (i : Z) (f : Fragment) :
  has_identity url i f = true <-> (url, i) = ident f.
Proof.
  unfold has_identity, ident. rewrite andb_true_iff, String.eqb_eq, Z.eqb_eq.
  split; [intros [-> ->]; reflexivity | intros [= -> ->]; split; reflexivity].
Qed.

Lemma has_identity_refl (f : Fragment) :
  has_identity (source_id f) (sequence_index f) f = true.
Proof. apply has_identity_spec. reflexivity. Qed.

Lemma filter_absent (url : string) (i : Z) (l : list (IndexedEntry V)) :
  ~ In (url, i) (map (fun e0 : IndexedEntry V => ident (fragment e0)) l) ->
  filter (fun e => has_identity url i (fragment e)) l = [].
Proof.
  induction l as [|e l IH]; simpl; intros Hnot; [reflexivity|].
  destruct (has_identity url i (fragment e)) eqn:E.
  - apply has_identity_spec in E. exfalso. apply Hnot. left. now symmetry.
  - apply IH. tauto.
Qed.

Lemma in_ids_overwrite (e : IndexedEntry V) (l : list (IndexedEntry V)) x :
  In x (map (fun e0 : IndexedEntry V => ident (fragment e0)) (overwrite e l)) -> x = ident (fragment e) \/ In x (map (fun e0 : IndexedEntry V => ident (fragment e0)) l).
Proof.
  induction l as [|e' l IH]; simpl.
  - intros [<-|[]]. now left.
  - destruct (has_identity _ _ (fragment e')) eqn:E; simpl.
    + intros [<-|Hin]; [now left | now right; right].
    + intros [<-|Hin]; [now right; left|].
      destruct (IH Hin); [now left | now right; right].
Qed.

Lemma NoDup_ids_overwrite (e : IndexedEntry V) (l : list (IndexedEntry V)) :
  NoDup (map (fun e0 : IndexedEntry V => ident (fragment e0)) l) -> NoDup (map (fun e0 : IndexedEntry V => ident (fragment e0)) (overwrite e l)).
Proof.
  induction l as [|e' l IH]; simpl; intros Hnd.
  - repeat constructor. simpl. tauto.
  - inversion Hnd as [|? ? Hnotin Hnd']; subst.
    destruct (has_identity _ _ (fragment e')) eqn:E; simpl.
    + apply has_identity_spec in E. unfold ident at 1 in E.
      constructor; [|exact Hnd']. unfold ident at 1. rewrite E. exact Hnotin.
    + constructor; [|now apply IH].
      intros Hin. apply in_ids_overwrite in Hin. destruct Hin as [Heq|Hin].
      * assert (has_identity (source_id (fragment e)) (sequence_index (fragment e))
                             (fragment e') = true) as Hc; [|congruence].
        apply has_identity_spec. symmetry. exact Heq.
      * tauto.
Qed.

(** Overwriting leaves one entry under the identity written. *)
Lemma filter_overwrite_same (e : IndexedEntry V) (l : list (IndexedEntry V)) :
  NoDup (map (fun e0 : IndexedEntry V => ident (fragment e0)) l) ->
  filter (fun e' => has_identity (source_id (fragment e))
                                 (sequence_index (fragment e)) (fragment e'))
         (overwrite e l) = [e].
Proof.
  induction l as [|e' l IH]; simpl; intros Hnd.
  - now rewrite has_identity_refl.
  - inversion Hnd as [|? ? Hnotin Hnd']; subst.
    destruct (has_identity _ _ (fragment e')) eqn:E; simpl.
    + rewrite has_identity_refl. f_equal. apply filter_absent.
      apply has_identity_spec in E. unfold ident at 1 in E. now rewrite E.
    + rewrite E. now apply IH.
Qed.

(** Overwriting leaves the entries of the other identities as they were. *)
Lemma filter_overwrite_other (e : IndexedEntry V) (l : list (IndexedEntry V))
    (url : string) (i : Z) :
  (url, i) <> ident (fragment e) ->
  filter (fun e' => has_identity url i (fragment e')) (overwrite e l)
  = filter (fun e' => has_identity url i (fragment e')) l.
Proof.
  intros Hne.
  assert (He : has_identity url i (fragment e) = false).
  { destruct (has_identity url i (fragment e)) eqn:E; [|reflexivity].
    apply has_identity_spec in E. tauto. }
  induction l as [|e' l IH]; simpl.
  - now rewrite He.
  - destruct (has_identity _ _ (fragment e')) eqn:E; simpl.
    + rewrite He.
      assert (He' : has_identity url i (fragment e') = false).
      { destruct (has_identity url i (fragment e')) eqn:E'; [|reflexivity].
        apply has_identity_spec in E, E'. exfalso. apply Hne.
        rewrite E'. symmetry. exact E. }
      now rewrite He'.
    + now rewrite IH.
Qed.

(** Inserting a list of fragments with distinct identities: every one of
    them ends with one entry, numbered by its rank in the list. *)
Lemma insert_all (fs : list Fragment) :
  forall idx : t V,
    wf idx -> NoDup (map ident fs) ->
    let idx' := fold_left (fun m f => insert embed f m) fs idx in
    wf idx' /\
    counter idx' = counter idx + Z.of_nat (List.length fs) /\
    (forall url i, ~ In (url, i) (map ident fs) ->
                   entries_of url i idx' = entries_of url i idx) /\
    (forall f, In f fs ->
       exists p : nat,
         (p < List.length fs)%nat /\
         entries_of (source_id f) (sequence_index f) idx'
         = [ {| fragment := f; vector := embed (text f);
                inserted_order := counter idx + Z.of_nat p |} ]).
Proof.
  induction fs as [|f0 fs IH]; intros idx Hwf Hnd; simpl.
  - repeat split; auto; try lia; intros f [].
  - inversion Hnd as [|? ? Hnotin Hnd']; subst.
    assert (Hwf1 : wf (insert embed f0 idx)).
    { unfold wf, insert. simpl. now apply NoDup_ids_overwrite. }
    destruct (IH (insert embed f0 idx) Hwf1 Hnd') as (Hwf' & Hcnt & Hother & Hin).
    split; [exact Hwf'|].
    split; [rewrite Hcnt; simpl counter; lia|].
    split.
    + intros url i Hnot. simpl in Hnot. rewrite Hother by tauto.
      unfold entries_of, insert. simpl entries.
      apply filter_overwrite_other. simpl.
      intros Heq. apply Hnot. left. now symmetry.
    + intros f [<-|Hf].
      * exists 0%nat. split; [lia|].
        rewrite Hother by exact Hnotin.
        unfold entries_of, insert. simpl entries. rewrite Z.add_0_r.
        apply (filter_overwrite_same
                 {| fragment := f0; vector := embed (text f0);
                    inserted_order := counter idx |}).
        exact Hwf.
      * destruct (Hin f Hf) as (p & Hp & Hent).
        exists (S p). split; [simpl; lia|]. rewrite Hent.
        simpl counter.
        replace (counter idx + Z.of_nat (S p))
          with (counter idx + 1 + Z.of_nat p) by lia.
        reflexivity.
Qed.

End IndexProperties.

(** ** [save_to_db] on the embedding index *)

Lemma enumerate_from_lower {A} (l : list A) :
  forall (i j : Z) (x : A), In (j, x) (enumerate_from i l) -> i <= j.
Proof.
  induction l as [|y l IH]; intros i j x; simpl; [tauto|].
  intros [[= <- <-]|Hin]; [lia|]. apply IH in Hin. lia.
Qed.

Lemma enumerate_from_NoDup {A} (l : list A) :
  forall i : Z, NoDup (map fst (enumerate_from i l)).
Proof.
  induction l as [|y l IH]; intros i; simpl; constructor; [|apply IH].
  intros Hin. apply in_map_iff in Hin. destruct Hin as ([j x] & Hj & Hin).
  simpl in Hj. subst j. apply enumerate_from_lower in Hin. lia.
Qed.

Lemma in_enumerate_nth {A} (l : list A) (k : nat) (x : A) :
  nth_error l k = Some x -> In (Z.of_nat k, x) (enumerate l).
Proof.
  intros Hk. apply nth_error_In with (n := k). unfold enumerate.
  rewrite enumerate_from_nth, Hk. reflexivity.
Qed.

(** The fragments of one source. *)
Lemma ident_source_fragments (url : string) (l : list (Z * string)) :
  map ident
      (map (fun ic => {| EmbeddingIndex.source_id := url;
                         EmbeddingIndex.sequence_index := fst ic;
                         EmbeddingIndex.text := snd ic |}) l)
  = map (fun ic => (url, fst ic)) l.
Proof. rewrite map_map. reflexivity. Qed.

Lemma in_ident_fragments_of (r : dict (list string)) (x : string * Z) :
  In x (map ident (fragments_of r)) -> In (fst x) (keys r).
Proof.
  unfold fragments_of. induction r as [|[url chunks] r IH]; simpl; [tauto|].
  rewrite map_app, in_app_iff, ident_source_fragments.
  intros [Hin|Hin].
  - apply in_map_iff in Hin. destruct Hin as (ic & <- & _). now left.
  - right. now apply IH.
Qed.

(** A well-formed mapping gives every fragment its own identity. *)
Lemma fragments_of_NoDup (r : dict (list string)) :
  Py.wf r -> NoDup (map ident (fragments_of r)).
Proof.
  unfold Py.wf. induction r as [|[url chunks] r IH]; simpl; intros Hnd.
  - constructor.
  - inversion Hnd as [|? ? Hnotin Hnd']; subst.
    unfold fragments_of. simpl. rewrite map_app, ident_source_fragments.
    apply NoDup_app.
    + pose proof (enumerate_from_NoDup chunks 0) as Hfst.
      unfold enumerate. induction (enumerate_from 0 chunks) as [|[j c] l IHl];
        simpl; [constructor|].
      inversion Hfst as [|? ? Hj Hl]; subst. constructor; [|now apply IHl].
      intros Hin. apply in_map_iff in Hin. destruct Hin as ([j' c'] & [= <-] & Hin).
      apply Hj. change j' with (fst (j', c')). now apply in_map.
    + now apply IH.
    + intros x Hx Hx'. apply in_map_iff in Hx. destruct Hx as (ic & <- & _).
      apply in_ident_fragments_of in Hx'. simpl in Hx'. tauto.
Qed.

Lemma in_fragments_of (r : dict (list string)) (url : string)
    (chunks : list string) (k : nat) (chunk : string) :
  Py.get r url = Some chunks -> nth_error chunks k = Some chunk ->
  In {| EmbeddingIndex.source_id := url;
        EmbeddingIndex.sequence_index := Z.of_nat k;
        EmbeddingIndex.text := chunk |} (fragments_of r).
Proof.
  intros Hget Hk. apply get_in in Hget. apply in_enumerate_nth in Hk.
  unfold fragments_of. apply in_flat_map. exists (url, chunks).
  split; [exact Hget|]. simpl.
  apply in_map_iff. exists (Z.of_nat k, chunk). split; [reflexivity | exact Hk].
Qed.

Section SavingToIndex.

Context {V : Type} (embed : string -> V).
Context (W : World (EmbeddingIndex.t V)).

(** The memory of the program is the embedding index. *)
Hypothesis memory_is_index :
  forall m texts metadata,
    Memory_save W m texts metadata = EmbeddingIndex.save embed m texts metadata.

Lemma save_chunks_inserts (url : string) (l : list (Z * string)) :
  forall m tr,
  exists ext,
    save_chunks W url l m tr
    = (Ok (fold_left (fun m f => EmbeddingIndex.insert embed f m)
                     (map (fun ic => {| EmbeddingIndex.source_id := url;
                                        EmbeddingIndex.sequence_index := fst ic;
                                        EmbeddingIndex.text := snd ic |}) l)
                     m),
       tr ++ ext).
Proof.
  induction l as [|[i chunk] l IH]; intros m tr; simpl.
  - exists []. unfold ret. now rewrite app_nil_r.
  - unfold rbind at 1. unfold emit. unfold rbind at 1. unfold lift.
    rewrite memory_is_index. unfold EmbeddingIndex.save. simpl.
    destruct (IH (EmbeddingIndex.insert embed
                    {| EmbeddingIndex.source_id := url;
                       EmbeddingIndex.sequence_index := i;
                       EmbeddingIndex.text := chunk |} m)
                 (tr ++ [EvSave chunk {| md_url := url; md_chunk := i |}]))
      as (ext & Hext).
    rewrite Hext. eexists. rewrite <- app_assoc. reflexivity.
Qed.

Lemma save_loop_inserts (its : list (string * list string)) :
  forall m tr,
  exists ext,
    save_loop W its m tr
    = (Ok (fold_left (fun m f => EmbeddingIndex.insert embed f m)
                     (fragments_of its) m),
       tr ++ ext).
Proof.
  induction its as [|[url chunks] its IH]; intros m tr; simpl.
  - exists []. unfold ret. now rewrite app_nil_r.
  - unfold rbind.
    destruct (save_chunks_inserts url (enumerate chunks) m tr) as (ext1 & H1).
    rewrite H1.
    destruct (IH (fold_left (fun m f => EmbeddingIndex.insert embed f m)
                    (map (fun ic => {| EmbeddingIndex.source_id := url;
                                       EmbeddingIndex.sequence_index := fst ic;
                                       EmbeddingIndex.text := snd ic |})
                         (enumerate chunks)) m)
                 (tr ++ ext1)) as (ext2 & H2).
    rewrite H2. exists (ext1 ++ ext2).
    unfold fragments_of. simpl. rewrite fold_left_app, app_assoc. reflexivity.
Qed.

Lemma save_to_db_inserts (self : Ask (EmbeddingIndex.t V))
    (r : dict (list string)) (tr : list event) :
  exists self' ext,
    save_to_db W self r tr = (Ok self', tr ++ ext) /\
    memory self'
    = fold_left (fun m f => EmbeddingIndex.insert embed f m)
                (fragments_of r) (memory self).
Proof.
  unfold save_to_db, rbind, items.
  destruct (save_loop_inserts r (memory self) tr) as (ext & Hext).
  rewrite Hext. unfold ret. eexists. exists ext. split; reflexivity.
Qed.

End SavingToIndex.

(** C5: saving the same chunking results twice through [save_to_db]
    leaves, for every fragment identity (source, sequence index) of the
    results, exactly one entry in the index, as after the first pass; the
    entry holds the fragment and its vector, and its insertion number is
    the one given by the second pass. *)
Theorem ingestion_idempotent {V : Type} (embed : string -> V)
    (W : World (EmbeddingIndex.t V)) (self : Ask (EmbeddingIndex.t V))
    (r : dict (list string)) (tr : list event) :
  (forall m texts metadata,
     Memory_save W m texts metadata = EmbeddingIndex.save embed m texts metadata) ->
  Py.wf r -> EmbeddingIndex.wf (memory self) ->
  exists self1 ext1 self2 ext2,
    save_to_db W self r tr = (Ok self1, tr ++ ext1) /\
    save_to_db W self1 r (tr ++ ext1) = (Ok self2, (tr ++ ext1) ++ ext2) /\
    forall url chunks (k : nat) chunk,
      Py.get r url = Some chunks -> nth_error chunks k = Some chunk ->
      exists order1 order2,
        EmbeddingIndex.entries_of url (Z.of_nat k) (memory self1)
        = [ {| EmbeddingIndex.fragment :=
                 {| EmbeddingIndex.source_id := url;
                    EmbeddingIndex.sequence_index := Z.of_nat k;
                    EmbeddingIndex.text := chunk |};
               EmbeddingIndex.vector := embed chunk;
               EmbeddingIndex.inserted_order := order1 |} ] /\
        EmbeddingIndex.entries_of url (Z.of_nat k) (memory self2)
        = [ {| EmbeddingIndex.fragment :=
                 {| EmbeddingIndex.source_id := url;
                    EmbeddingIndex.sequence_index := Z.of_nat k;
                    EmbeddingIndex.text := chunk |};
               EmbeddingIndex.vector := embed chunk;
               EmbeddingIndex.inserted_order := order2 |} ] /\
        order1 < EmbeddingIndex.counter (memory self1) <= order2.
Proof.
  intros Hindex Hwf Hm.
  destruct (save_to_db_inserts embed W Hindex self r tr)
    as (self1 & ext1 & Hrun1 & Hmem1).
  destruct (save_to_db_inserts embed W Hindex self1 r (tr ++ ext1))
    as (self2 & ext2 & Hrun2 & Hmem2).
  exists self1, ext1, self2, ext2.
  split; [exact Hrun1|]. split; [exact Hrun2|].
  pose proof (fragments_of_NoDup r Hwf) as Hnd.
  destruct (insert_all embed (fragments_of r) (memory self) Hm Hnd)
    as (Hwf1 & Hcnt1 & _ & Hin1).
  rewrite <- Hmem1 in Hwf1, Hcnt1, Hin1.
  destruct (insert_all embed (fragments_of r) (memory self1) Hwf1 Hnd)
    as (_ & _ & _ & Hin2).
  rewrite <- Hmem2 in Hin2.
  intros url chunks k chunk Hget Hk.
  pose proof (in_fragments_of r url chunks k chunk Hget Hk) as Hf.
  destruct (Hin1 _ Hf) as (p1 & Hp1 & Hent1).
  destruct (Hin2 _ Hf) as (p2 & Hp2 & Hent2).
  simpl in Hent1, Hent2.
  eexists. eexists. split; [exact Hent1|]. split; [exact Hent2|]. lia.
Qed.

Lemma ingestion_idempotent_witness :
  (forall m texts metadata,
     Memory_save Sample.world m texts metadata
     = EmbeddingIndex.save Sample.embed m texts metadata)
  /\ Py.wf [("u", ["ABCD"; "DEFG"])]
  /\ EmbeddingIndex.wf (memory Sample.ask)
  /\ exists self1 ext1 self2 ext2,
       save_to_db Sample.world Sample.ask [("u", ["ABCD"; "DEFG"])] []
       = (Ok self1, ext1)
       /\ save_to_db Sample.world self1 [("u", ["ABCD"; "DEFG"])] ext1
          = (Ok self2, ext1 ++ ext2)
       /\ List.length (EmbeddingIndex.entries_of "u" 1 (memory self2)) = 1%nat.
Proof.
  assert (Hindex : forall m texts metadata,
             Memory_save Sample.world m texts metadata
             = EmbeddingIndex.save Sample.embed m texts metadata)
    by reflexivity.
  assert (Hwf : Py.wf [("u", ["ABCD"; "DEFG"])]).
  { unfold Py.wf. simpl. constructor; [simpl; tauto | constructor]. }
  assert (Hm : EmbeddingIndex.wf (memory Sample.ask)) by constructor.
  refine (conj Hindex (conj Hwf (conj Hm _))).
  destruct (ingestion_idempotent Sample.embed Sample.world Sample.ask
              [("u", ["ABCD"; "DEFG"])] [] Hindex Hwf Hm)
    as (self1 & ext1 & self2 & ext2 & Hrun1 & Hrun2 & Hone).
  exists self1, ext1, self2, ext2.
  split; [exact Hrun1|]. split; [exact Hrun2|].
  destruct (Hone "u" ["ABCD"; "DEFG"] 1%nat "DEFG" eq_refl eq_refl)
    as (order1 & order2 & _ & Hent & _).
  change (Z.of_nat 1) with 1 in Hent. rewrite Hent. reflexivity.
Defined.

(** ** The pipeline on a small world *)

Example sample_run_saves :
  view saved (snd (search_extract_summarize Sample.world Sample.options []))
  = [("ABCDEFGHIJ KLM", {| md_url := "http://b"; md_chunk := 0 |})].
Proof. reflexivity. Qed.

Example sample_run_references :
  view shown (snd (search_extract_summarize Sample.world Sample.options []))
  = [Prompt [system_prompt;
             HumanMessage
               (user_prompt "what" ("[1] ABCDEFGHIJ KLM" +++ nl))];
     Line ("# Answer" +++ nl +++ nl +++ "An answer [1]." +++ nl);
     Line "# References";
     Line "[1] http://b"].
Proof. reflexivity. Qed.

Example sample_negative_size :
  chunk_results [("doc", "ABCDE")] (-2) (-3)
  = Ok [("doc", ["ABC"; "BCD"; EmptyString; EmptyString; EmptyString])].
Proof. reflexivity. Qed.

(** * Further properties of the pipeline *)

(** ** Construction of [Ask] *)

(** X1: [Ask.__init__] succeeds exactly when the three credentials are
    set, whatever their value (an empty string is a value), and the
    import of [vectordb] and the call [Memory()] succeed.  When the
    credentials are set and the memory cannot be built, the exception of
    the import or of the constructor goes through.  No event is emitted
    in any case; the object built holds the values read, the base URL of
    the environment or the default one, the logger given or a logger at
    level INFO, and the memory [Memory()] returned. *)
Theorem Ask_init_succeeds_iff {M : Type} (W : World M) (lg : option Logger)
    (tr : list event) :
  (((forall name, In name credentials -> exists v, environ W name = Some v)
    /\ exists m, Memory_new W = Ok m)
   <-> exists self, Ask_init W lg tr = (Ok self, tr)) /\
  ((forall name, In name credentials -> exists v, environ W name = Some v) ->
   forall e, Memory_new W = Raise e -> Ask_init W lg tr = (Raise e, tr)) /\
  snd (Ask_init W lg tr) = tr /\
  (forall self tr',
     Ask_init W lg tr = (Ok self, tr') ->
     tr' = tr /\
     search_api_key self = environ W "SEARCH_API_KEY" /\
     search_project_id self = environ W "SEARCH_PROJECT_KEY" /\
     llm_api_key self = environ W "LLM_API_KEY" /\
     llm_base_url self
     = match environ W "LLM_BASE_URL" with
       | Some u => u
       | None => "https://api.openai.com/v1"
       end /\
     logger self = match lg with Some l => l | None => INFO end /\
     Memory_new W = Ok (memory self)).
Proof.
  unfold Ask_init, read_env_variables, rbind, lift, ret, credentials.
  destruct (environ W "SEARCH_API_KEY") as [k1|] eqn:H1;
    destruct (environ W "SEARCH_PROJECT_KEY") as [k2|] eqn:H2;
    destruct (environ W "LLM_API_KEY") as [k3|] eqn:H3;
    destruct (Memory_new W) as [m|e0] eqn:Hm; simpl.
  1: { refine (conj _ (conj _ (conj eq_refl _))).
       - split.
         + intros _. eexists. reflexivity.
         + intros _. split; [|now exists m].
           intros name [<-|[<-|[<-|[]]]]; eauto.
       - intros _ e He. discriminate.
       - intros self tr' H. inversion H; subst. simpl.
         repeat split; destruct lg; reflexivity. }
  1: { refine (conj _ (conj _ (conj eq_refl _))).
       - split.
         + intros [_ [m Hm']]. discriminate.
         + intros [self Hself]. discriminate.
       - intros _ e He. inversion He; subst. reflexivity.
       - intros self tr' H. discriminate. }
  all: refine (conj _ (conj _ (conj eq_refl _)));
    [ split;
      [ intros [Hall _];
        try (destruct (Hall "SEARCH_API_KEY") as [v Hv];
             [simpl; tauto | congruence]);
        try (destruct (Hall "SEARCH_PROJECT_KEY") as [v Hv];
             [simpl; tauto | congruence]);
        try (destruct (Hall "LLM_API_KEY") as [v Hv];
             [simpl; tauto | congruence])
      | intros [self Hself]; discriminate ]
    | intros Hall;
        try (destruct (Hall "SEARCH_API_KEY") as [v Hv];
             [simpl; tauto | congruence]);
        try (destruct (Hall "SEARCH_PROJECT_KEY") as [v Hv];
             [simpl; tauto | congruence]);
        try (destruct (Hall "LLM_API_KEY") as [v Hv];
             [simpl; tauto | congruence])
    | intros self tr' Hself; discriminate ].
Qed.

(** ** [search_web] *)

Section Searching.

Context {M : Type} (W : World M) (self : Ask M).

Lemma collect_links_spec (results : list search_item) :
  forall (found_links : list string) (tr : list event),
  exists ext,
    collect_links self results found_links tr
    = (Ok (found_links ++ links_of results), tr ++ ext) /\
    (List.length (links_of results) + List.length ext
     = List.length results)%nat /\
    Forall (is_warning (logger self)) ext.
Proof.
  induction results as [|result rest IH]; intros found_links tr.
  - exists []. simpl. unfold ret. rewrite !app_nil_r. repeat split. constructor.
  - cbn [collect_links]. unfold links_of. cbn [flat_map]. fold (links_of rest).
    destruct (item_link result) as [link|].
    + destruct (is_empty link) eqn:E.
      * unfold rbind, log, emit. cbv beta iota.
        destruct (IH found_links
                     (tr ++ [EvLog (logger self) WARNING
                               ("Search result link missing: " +++ item_repr result)]))
          as (ext & Hrun & Hlen & Hwarn).
        rewrite Hrun. eexists. rewrite <- app_assoc. split; [reflexivity|].
        split; [simpl; lia|]. constructor; [eexists; reflexivity | exact Hwarn].
      * destruct (IH (found_links ++ [link]) tr) as (ext & Hrun & Hlen & Hwarn).
        rewrite Hrun. exists ext. rewrite <- app_assoc.
        split; [reflexivity|]. split; [simpl; lia | exact Hwarn].
    + unfold rbind, log, emit. cbv beta iota.
      destruct (IH found_links
                   (tr ++ [EvLog (logger self) WARNING
                             ("Search result link missing: " +++ item_repr result)]))
        as (ext & Hrun & Hlen & Hwarn).
      rewrite Hrun. eexists. rewrite <- app_assoc. split; [reflexivity|].
      split; [simpl; lia|]. constructor; [eexists; reflexivity | exact Hwarn].
Qed.

Lemma links_of_not_empty (results : list search_item) :
  Forall (fun link => link <> EmptyString) (links_of results).
Proof.
  unfold links_of. induction results as [|result rest IH]; simpl.
  - constructor.
  - destruct (item_link result) as [link|]; [|exact IH].
    destruct link as [|c link]; simpl; [exact IH|].
    constructor; [discriminate | exact IH].
Qed.

End Searching.

(** X2: an option of the search that is absent and one that is void are
    the same request: a date restriction that is zero or negative is left
    out like no restriction, and an empty target site like no site. *)
Theorem search_url_void_options {M : Type} (W : World M) (self : Ask M)
    (query : string) :
  (forall d target_site,
     d <= 0 ->
     search_url W self query (Some d) target_site
     = search_url W self query None target_site) /\
  (forall date_restrict,
     search_url W self query date_restrict (Some EmptyString)
     = search_url W self query date_restrict None) /\
  (forall d site,
     0 < d -> site <> EmptyString ->
     search_url W self query (Some d) (Some site)
     = search_url W self query None None
       +++ "&dateRestrict=" +++ str_of_int d
       +++ "&siteSearch=" +++ site +++ "&siteSearchFilter=i").
Proof.
  split; [|split].
  - intros d target_site Hd. unfold search_url.
    destruct (Z.ltb_spec 0 d); [lia | reflexivity].
  - intros date_restrict. reflexivity.
  - intros d site Hd Hsite. unfold search_url.
    destruct (Z.ltb_spec 0 d); [|lia].
    destruct site as [|c site]; [congruence|]. simpl is_empty. cbv iota.
    rewrite !append_assoc. reflexivity.
Qed.

(** X3: when the reply of the search API has no ["error"] key, has its
    ["searchInformation"] with a [totalResults] that is not 0, and has a
    non-empty list of items (the case [ReplyItems (Some results)] of the
    reply, with [results] not empty), [search_web] returns the links that
    are present and not empty, in the order of the items; it does not
    raise, no link returned is empty, and every item left out is reported
    by one warning. *)
Theorem search_web_links {M : Type} (W : World M) (self : Ask M)
    (query : string) (date_restrict : option Z) (target_site : option string)
    (tr : list event) (results : list search_item) :
  search_api W (search_history W self query date_restrict target_site tr)
             (search_url W self query date_restrict target_site)
  = Ok (ReplyItems (Some results)) ->
  results <> [] ->
  exists ext,
    search_web W self query date_restrict target_site tr
    = (Ok (links_of results),
       search_history W self query date_restrict target_site tr ++ ext) /\
    Forall (fun link => link <> EmptyString) (links_of results) /\
    (List.length (links_of results) + List.length ext
     = List.length results)%nat /\
    Forall (is_warning (logger self)) ext.
Proof.
  intros Hreply Hne.
  destruct (collect_links_spec self results []
              (search_history W self query date_restrict target_site tr))
    as (ext & Hrun & Hlen & Hwarn).
  exists ext. split; [|split; [apply links_of_not_empty | split; assumption]].
  unfold search_web, rbind, log, emit. cbv zeta beta iota.
  unfold search_history in *. rewrite <- app_assoc. cbn [app].
  rewrite Hreply. destruct results as [|result rest]; [congruence|].
  exact Hrun.
Qed.

Lemma search_web_links_witness :
  exists ext,
    search_web Sample.world Sample.ask "what" None None []
    = (Ok ["http://a"; "http://b"],
       search_history Sample.world Sample.ask "what" None None [] ++ ext).
Proof.
  destruct (search_web_links Sample.world Sample.ask "what" None None []
              [ {| item_link := Some "http://a"; item_repr := "a" |};
                {| item_link := Some "http://b"; item_repr := "b" |} ]
              eq_refl ltac:(discriminate))
    as (ext & Hrun & _).
  exists ext. exact Hrun.
Defined.

(** X4: the ways [search_web] fails or finds nothing.  An exception of
    the request, or of the decoding of the reply, goes through; a reply
    with an error, or without search information, raises an exception
    that quotes it; a reply with no result, or with no item, gives the
    empty list and one warning.  In every case one request was made. *)
Theorem search_web_no_links {M : Type} (W : World M) (self : Ask M)
    (query : string) (date_restrict : option Z) (target_site : option string)
    (tr : list event) :
  let h := search_history W self query date_restrict target_site tr in
  let url := search_url W self query date_restrict target_site in
  let run := search_web W self query date_restrict target_site tr in
  (forall e, search_api W h url = Raise e -> run = (Raise e, h)) /\
  (forall error,
     search_api W h url = Ok (ReplyError error) ->
     run = (Raise (Exception ("Error in search API response: " +++ error)), h)) /\
  (forall text,
     search_api W h url = Ok (ReplyNoSearchInformation text) ->
     run = (Raise (Exception
                     ("No search information in search API response: " +++ text)),
            h)) /\
  (search_api W h url = Ok ReplyZeroResults ->
   run = (Ok [],
          h ++ [EvLog (logger self) WARNING
                      ("No results found for query: " +++ query)])) /\
  (search_api W h url = Ok (ReplyItems None)
   \/ search_api W h url = Ok (ReplyItems (Some [])) ->
   run = (Ok [],
          h ++ [EvLog (logger self) WARNING
                      ("No result items in the response for query: " +++ query)])).
Proof.
  intros h url run. subst h url run.
  unfold search_web, search_history, rbind, log, emit, raise, ret.
  cbv zeta beta iota. rewrite <- !app_assoc. cbn [app].
  repeat split.
  - intros e ->. reflexivity.
  - intros error ->. reflexivity.
  - intros text ->. reflexivity.
  - intros ->. rewrite <- app_assoc. reflexivity.
  - intros [-> | ->]; rewrite <- app_assoc; reflexivity.
Qed.

(** ** The mapping [scrape_urls] returns *)

Section ScrapedMapping.

Context {M : Type} (W : World M) (self : Ask M).

(** The loop over a list in two parts is the loop over the first part
    followed by the loop over the second. *)
Lemma scrape_loop_app (urls1 urls2 : list string) :
  forall (acc : dict string) (tr : list event),
    scrape_loop W self (urls1 ++ urls2) acc tr
    = match scrape_loop W self urls1 acc tr with
      | (Ok res1, tr1) => scrape_loop W self urls2 res1 tr1
      | (Raise e, tr1) => (Raise e, tr1)
      end.
Proof.
  induction urls1 as [|url urls1 IH]; intros acc tr.
  - reflexivity.
  - cbn [app scrape_loop]. unfold rbind at 1 3.
    destruct (try_except _ _ tr) as [[res|e] tr1]; [apply IH | reflexivity].
Qed.

End ScrapedMapping.

(** X5: the mapping [scrape_urls] returns has no URL twice and only URLs
    of the list, so at most as many sources as URLs; every text in it is
    the normalised body of a page fetched at that URL; for no URL the
    mapping is empty. *)
Theorem scrape_urls_mapping {M : Type} (W : World M) (self : Ask M)
    (urls : list string) (tr : list event) :
  exists res ext,
    scrape_urls W self urls tr = (Ok res, tr ++ ext) /\
    Py.wf res /\
    (forall url, In url (keys res) -> In url urls) /\
    (List.length res <= List.length urls)%nat /\
    (forall url text,
       Py.get res url = Some text ->
       exists h body,
         http_get W h url = Ok (Some body) /\ text = normalize body) /\
    (urls = [] -> res = []).
Proof.
  unfold scrape_urls.
  destruct (scrape_loop_spec W self urls [] tr)
    as (res & ext & Hrun & _ & Hwf & Hout & _ & _ & Hfrom & _).
  assert (Hwf' : Py.wf res) by (apply Hwf; constructor).
  assert (Hincl : forall url, In url (keys res) -> In url urls).
  { intros url Hin. destruct (in_dec string_dec url urls) as [Hu|Hu]; [exact Hu|].
    exfalso. apply Hout in Hu. simpl in Hu.
    apply get_none_iff in Hu. tauto. }
  exists res, ext. split; [exact Hrun|]. split; [exact Hwf'|].
  split; [exact Hincl|]. split; [|split].
  - unfold keys in *. rewrite <- (length_map fst res).
    apply NoDup_incl_length; [exact Hwf' | exact Hincl].
  - intros url text Hres. destruct (Hfrom url text Hres) as [Hnil|H]; [discriminate | exact H].
  - intros ->. destruct res as [|[url text] res]; [reflexivity|].
    exfalso. apply (Hincl url). now left.
Qed.

(** X6: the last attempt on a URL decides what the mapping holds for it.
    When a URL is listed for the last time and the fetch succeeds, the
    mapping holds the normalised body of that fetch, whatever an earlier
    attempt gave; when the fetch fails, the mapping holds for the URL
    what the earlier attempts left: a later failure does not remove a
    source. *)
Theorem scrape_urls_last_attempt {M : Type} (W : World M) (self : Ask M)
    (urls1 urls2 : list string) (url : string) (tr : list event) :
  ~ In url urls2 ->
  exists res1 ext1 res ext,
    scrape_urls W self urls1 tr = (Ok res1, tr ++ ext1) /\
    scrape_urls W self (urls1 ++ url :: urls2) tr = (Ok res, tr ++ ext) /\
    (forall body,
       http_get W ((tr ++ ext1) ++ [EvGet url]) url = Ok (Some body) ->
       Py.get res url = Some (normalize body)) /\
    (fetch_fails (http_get W ((tr ++ ext1) ++ [EvGet url]) url) ->
     Py.get res url = Py.get res1 url).
Proof.
  intros Hnotin. unfold scrape_urls.
  destruct (scrape_loop_spec W self urls1 [] tr) as (res1 & ext1 & Hrun1 & _).
  rewrite scrape_loop_app, Hrun1.
  exists res1, ext1.
  destruct (http_get W ((tr ++ ext1) ++ [EvGet url]) url) as [[body|]|e] eqn:Hget.
  - rewrite (scrape_loop_body W self _ _ _ _ _ Hget).
    destruct (scrape_loop_spec W self urls2 (Py.set res1 url (normalize body))
                ((tr ++ ext1) ++
                 [EvGet url;
                  EvLog (logger self) DEBUG
                    ("Scraped " +++ url +++ ": " +++ normalize body +++ "...")]))
      as (res & ext & Hrun & _ & _ & Hout & _).
    exists res. eexists. rewrite Hrun, <- !app_assoc.
    split; [reflexivity|]. split; [reflexivity|]. split.
    + intros body' [= <-]. rewrite (Hout url Hnotin), get_set.
      now rewrite String.eqb_refl.
    + intros [].
  - rewrite (scrape_loop_no_body W self _ _ _ _ Hget).
    destruct (scrape_loop_spec W self urls2 res1
                ((tr ++ ext1) ++
                 [EvGet url;
                  EvLog (logger self) WARNING
                    ("No body tag found in the response for url: " +++ url)]))
      as (res & ext & Hrun & _ & _ & Hout & _).
    exists res. eexists. rewrite Hrun, <- !app_assoc.
    split; [reflexivity|]. split; [reflexivity|]. split.
    + intros body' [=].
    + intros _. apply (Hout url Hnotin).
  - rewrite (scrape_loop_raise W self _ _ _ _ _ Hget).
    destruct (scrape_loop_spec W self urls2 res1
                ((tr ++ ext1) ++
                 [EvGet url;
                  EvLog (logger self) ERROR
                    ("scraping error " +++ url +++ ": " +++ exn_str e)]))
      as (res & ext & Hrun & _ & _ & Hout & _).
    exists res. eexists. rewrite Hrun, <- !app_assoc.
    split; [reflexivity|]. split; [reflexivity|]. split.
    + intros body' [=].
    + intros _. apply (Hout url Hnotin).
Qed.

Lemma scrape_urls_last_attempt_witness :
  ~ In "http://a" []
  /\ exists res,
       fst (scrape_urls Sample.world Sample.ask ["http://b"; "http://a"] [])
       = Ok res
       /\ Py.get res "http://a" = None.
Proof.
  assert (Hnotin : ~ In "http://a" (@nil string)) by (simpl; tauto).
  split; [exact Hnotin|].
  destruct (scrape_urls_last_attempt Sample.world Sample.ask
              ["http://b"] [] "http://a" [] Hnotin)
    as (res1 & ext1 & res & ext & Hrun1 & Hrun & _ & Hfail).
  exists res. simpl app in Hrun. rewrite Hrun. split; [reflexivity|].
  rewrite Hfail by exact I.
  assert (H1 : fst (scrape_urls Sample.world Sample.ask ["http://b"] [])
               = Ok [("http://b", "ABCDEFGHIJ KLM")]) by reflexivity.
  rewrite Hrun1 in H1. simpl in H1. injection H1 as ->. reflexivity.
Defined.

(** ** The normalisation of a page body *)

Lemma no_space_app (a b : string) :
  no_space (a +++ b) = no_space a && no_space b.
Proof.
  induction a as [|c a IH]; simpl; [reflexivity|].
  rewrite IH. now rewrite andb_assoc.
Qed.

Lemma is_empty_true (s : string) : is_empty s = true -> s = EmptyString.
Proof. destruct s; [reflexivity | discriminate]. Qed.

Lemma is_empty_false (s : string) : is_empty s = false <-> s <> EmptyString.
Proof. destruct s; simpl; split; congruence. Qed.

(** [split] returns words. *)
Lemma split_from_words (s : string) :
  forall word, no_space word = true -> Forall is_word (split_from s word).
Proof.
  induction s as [|c s IH]; intros word Hword; simpl.
  - destruct (is_empty word) eqn:E; constructor; [|constructor].
    split; [now apply is_empty_false | exact Hword].
  - destruct (isspace c) eqn:Ec.
    + destruct (is_empty word) eqn:E; [now apply IH|].
      constructor; [|now apply IH].
      split; [now apply is_empty_false | exact Hword].
    + apply IH. rewrite no_space_app, Hword. simpl. now rewrite Ec.
Qed.

Lemma split_from_word (w rest : string) :
  forall acc, no_space w = true ->
    split_from (w +++ rest) acc = split_from rest (acc +++ w).
Proof.
  induction w as [|c w IH]; intros acc Hw; simpl.
  - now rewrite append_empty_r.
  - simpl in Hw. apply andb_true_iff in Hw. destruct Hw as [Hc Hw].
    apply negb_true_iff in Hc. rewrite Hc, (IH _ Hw), append_assoc.
    reflexivity.
Qed.

Lemma join_cons2 (w w2 : string) (ws : list string) :
  String.concat " " (w :: w2 :: ws)
  = w +++ String " " (String.concat " " (w2 :: ws)).
Proof. reflexivity. Qed.

Lemma join_not_empty (w : string) (ws : list string) :
  w <> EmptyString -> is_empty (String.concat " " (w :: ws)) = false.
Proof.
  intros Hw. destruct w as [|c w]; [congruence|].
  destruct ws; reflexivity.
Qed.

(** Splitting the words joined by single spaces gives the words back. *)
Lemma split_join (ws : list string) :
  Forall is_word ws -> split (String.concat " " ws) = ws.
Proof.
  unfold split. induction ws as [|w ws IH]; intros Hws; [reflexivity|].
  inversion Hws as [|? ? [Hne Hw] Hws']; subst.
  destruct ws as [|w2 ws].
  - simpl String.concat. rewrite <- (append_empty_r w) at 1.
    rewrite split_from_word by exact Hw. simpl.
    apply is_empty_false in Hne. now rewrite Hne.
  - rewrite join_cons2, split_from_word by exact Hw.
    cbn [split_from String.append]. change (isspace " ") with true. cbv iota.
    apply is_empty_false in Hne. rewrite Hne. f_equal. now apply IH.
Qed.

Lemma rstrip_no_space (s : string) : no_space s = true -> rstrip s = s.
Proof.
  induction s as [|c s IH]; simpl; intros Hs; [reflexivity|].
  apply andb_true_iff in Hs. destruct Hs as [Hc Hs].
  apply negb_true_iff in Hc. rewrite (IH Hs), Hc, andb_false_r. reflexivity.
Qed.

Lemma rstrip_app (a b : string) :
  is_empty (rstrip b) = false -> rstrip (a +++ b) = a +++ rstrip b.
Proof.
  intros Hb. induction a as [|c a IH]; simpl; [reflexivity|].
  rewrite IH. destruct (a +++ rstrip b) as [|c' r] eqn:E.
  - destruct a; simpl in E; [rewrite E in Hb; discriminate | discriminate].
  - reflexivity.
Qed.

Lemma rstrip_join (ws : list string) :
  Forall is_word ws -> rstrip (String.concat " " ws) = String.concat " " ws.
Proof.
  induction ws as [|w ws IH]; intros Hws; [reflexivity|].
  inversion Hws as [|? ? [Hne Hw] Hws']; subst.
  destruct ws as [|w2 ws].
  - simpl. now apply rstrip_no_space.
  - rewrite join_cons2.
    assert (Hrest : rstrip (String.concat " " (w2 :: ws))
                    = String.concat " " (w2 :: ws)) by now apply IH.
    assert (Hne2 : is_empty (String.concat " " (w2 :: ws)) = false).
    { inversion Hws' as [|? ? [Hne2 _] _]; subst. now apply join_not_empty. }
    rewrite rstrip_app.
    + f_equal. change (String " " (String.concat " " (w2 :: ws)))
        with (String " " EmptyString +++ String.concat " " (w2 :: ws)).
      rewrite rstrip_app by (rewrite Hrest; exact Hne2).
      now rewrite Hrest.
    + change (String " " (String.concat " " (w2 :: ws)))
        with (String " " EmptyString +++ String.concat " " (w2 :: ws)).
      rewrite rstrip_app by (rewrite Hrest; exact Hne2). reflexivity.
Qed.

Lemma lstrip_join (ws : list string) :
  Forall is_word ws -> lstrip (String.concat " " ws) = String.concat " " ws.
Proof.
  intros Hws. destruct ws as [|w ws]; [reflexivity|].
  inversion Hws as [|? ? [Hne Hw] _]; subst.
  destruct w as [|c w]; [congruence|].
  simpl in Hw. apply andb_true_iff in Hw. destruct Hw as [Hc _].
  apply negb_true_iff in Hc.
  destruct ws as [|w2 ws]; simpl; now rewrite Hc.
Qed.

Lemma split_words (s : string) : Forall is_word (split s).
Proof. unfold split. now apply split_from_words. Qed.

(** X7: the normalised body is the words of the body, each with at least
    one character and no whitespace, joined by single spaces: it has no
    whitespace at either end, none but single spaces in between, and the
    final [strip] changes nothing. *)
Theorem normalize_words (body_text : string) :
  normalize body_text = String.concat " " (split body_text) /\
  Forall is_word (split body_text) /\
  lstrip (normalize body_text) = normalize body_text /\
  rstrip (normalize body_text) = normalize body_text /\
  split (normalize body_text) = split body_text.
Proof.
  pose proof (split_words body_text) as Hws.
  assert (Hn : normalize body_text = String.concat " " (split body_text)).
  { unfold normalize, strip. now rewrite rstrip_join, lstrip_join. }
  rewrite Hn. split; [reflexivity|]. split; [exact Hws|].
  split; [now apply lstrip_join|]. split; [now apply rstrip_join|].
  now apply split_join.
Qed.

(** X8: normalising twice is normalising once. *)
Theorem normalize_idempotent (body_text : string) :
  normalize (normalize body_text) = normalize body_text.
Proof.
  pose proof (split_words body_text) as Hws.
  assert (Hn : forall s, normalize s = String.concat " " (split s)).
  { intros s. unfold normalize, strip.
    now rewrite rstrip_join, lstrip_join by apply split_words. }
  rewrite (Hn (normalize body_text)), (Hn body_text).
  now rewrite split_join.
Qed.

Lemma non_spaces_app (a b : string) :
  non_spaces (a +++ b) = non_spaces a +++ non_spaces b.
Proof.
  induction a as [|c a IH]; simpl; [reflexivity|].
  destruct (isspace c); simpl; now rewrite IH.
Qed.

Lemma non_spaces_no_space (s : string) : no_space s = true -> non_spaces s = s.
Proof.
  induction s as [|c s IH]; simpl; intros Hs; [reflexivity|].
  apply andb_true_iff in Hs. destruct Hs as [Hc Hs].
  apply negb_true_iff in Hc. now rewrite Hc, IH.
Qed.

Lemma concat_all_split_from (s : string) :
  forall acc, concat_all (split_from s acc) = acc +++ non_spaces s.
Proof.
  induction s as [|c s IH]; intros acc; simpl.
  - destruct (is_empty acc) eqn:E; simpl.
    + apply is_empty_true in E. now subst.
    + reflexivity.
  - destruct (isspace c) eqn:Ec.
    + destruct (is_empty acc) eqn:E; simpl; rewrite IH.
      * apply is_empty_true in E. now subst.
      * reflexivity.
    + rewrite IH, append_assoc. reflexivity.
Qed.

Lemma non_spaces_join (ws : list string) :
  Forall is_word ws -> non_spaces (String.concat " " ws) = concat_all ws.
Proof.
  induction ws as [|w ws IH]; intros Hws; [reflexivity|].
  inversion Hws as [|? ? [Hne Hw] Hws']; subst.
  destruct ws as [|w2 ws].
  - simpl. rewrite append_empty_r. now apply non_spaces_no_space.
  - rewrite join_cons2, non_spaces_app, (non_spaces_no_space w Hw).
    cbn [non_spaces]. change (isspace " ") with true. cbv iota.
    rewrite (IH Hws'). reflexivity.
Qed.

Lemma split_from_nil (s : string) :
  forall acc,
    split_from s acc = [] <-> is_empty acc = true /\ all_space s = true.
Proof.
  induction s as [|c s IH]; intros acc; simpl.
  - destruct (is_empty acc); split; try tauto; try discriminate.
    intros [H _]. discriminate.
  - destruct (isspace c) eqn:Ec; simpl.
    + destruct (is_empty acc) eqn:E.
      * rewrite IH. simpl. tauto.
      * split; [discriminate | intros [H _]; discriminate].
    + rewrite IH, is_empty_append. simpl. rewrite andb_false_r.
      split; intros [H1 H2]; discriminate.
Qed.

(** X9: the normalisation changes whitespace only: the characters that
    are not whitespace are the same, in the same order, before and
    after; and the normalised body is empty exactly when the body is made
    of whitespace only. *)
Theorem normalize_keeps_text (body_text : string) :
  non_spaces (normalize body_text) = non_spaces body_text /\
  (normalize body_text = EmptyString <-> all_space body_text = true).
Proof.
  pose proof (split_words body_text) as Hws.
  assert (Hn : normalize body_text = String.concat " " (split body_text)).
  { unfold normalize, strip. now rewrite rstrip_join, lstrip_join. }
  rewrite Hn. split.
  - rewrite non_spaces_join by exact Hws.
    unfold split. now rewrite concat_all_split_from.
  - pose proof (split_from_nil body_text EmptyString) as Hnil.
    fold (split body_text) in Hnil. simpl in Hnil.
    destruct (split body_text) as [|w ws] eqn:E.
    + split; [intros _; now apply Hnil | reflexivity].
    + split.
      * intros Hempty. exfalso.
        inversion Hws as [|? ? [Hne _] _]; subst.
        pose proof (join_not_empty w ws Hne) as Hj.
        rewrite Hempty in Hj. discriminate.
      * intros Hall. exfalso.
        assert (H : w :: ws = []) by (apply Hnil; split; [reflexivity | exact Hall]).
        discriminate.
Qed.

(** ** More on the fragments of a text *)

Lemma substring_drop (s : string) :
  forall n m k, substring (n + m) k s = substring m k (string_drop n s).
Proof.
  induction s as [|c s IH]; intros n m k.
  - destruct n; simpl; [reflexivity|]. destruct m, k; reflexivity.
  - destruct n as [|n]; simpl; [reflexivity | apply IH].
Qed.

Lemma take_drop (s : string) :
  forall n, substring 0 n s +++ string_drop n s = s.
Proof.
  induction s as [|c s IH]; intros n.
  - destruct n; reflexivity.
  - destruct n as [|n]; simpl; [reflexivity | now rewrite IH].
Qed.

Lemma length_drop (s : string) :
  forall n, String.length (string_drop n s) = (String.length s - n)%nat.
Proof.
  induction s as [|c s IH]; intros n.
  - destruct n; reflexivity.
  - destruct n as [|n]; simpl; [reflexivity | apply IH].
Qed.

Lemma substring_substring (s : string) :
  forall n a b, substring 0 a (substring n b s) = substring n (Nat.min a b) s.
Proof.
  induction s as [|c s IH]; intros n a b.
  - destruct n, a, b; reflexivity.
  - destruct n as [|n].
    + destruct b as [|b]; [destruct a; reflexivity|].
      destruct a as [|a]; [reflexivity|].
      simpl. now rewrite IH.
    + simpl. apply IH.
Qed.

Lemma substring_clip (s : string) :
  forall n m, substring n (Nat.min m (String.length s - n)) s = substring n m s.
Proof.
  induction s as [|c s IH]; intros n m.
  - destruct n, m; reflexivity.
  - destruct n as [|n].
    + destruct m as [|m]; [reflexivity|].
      simpl. f_equal. specialize (IH 0%nat m).
      rewrite Nat.sub_0_r in IH. exact IH.
    + simpl. apply IH.
Qed.

(** Consecutive pieces of length [k] that reach the end of a string make
    the string. *)
Lemma concat_pieces (k : nat) :
  forall (n : nat) (s : string),
    (String.length s <= n * k)%nat ->
    concat_all (map (fun i => substring (i * k) k s) (seq 0 n)) = s.
Proof.
  induction n as [|n IH]; intros s Hlen.
  - simpl in *. destruct s; [reflexivity | simpl in Hlen; lia].
  - rewrite <- cons_seq, <- seq_shift. cbn [map]. rewrite map_map.
    unfold concat_all. cbn [fold_right]. fold (concat_all).
    change (0 * k)%nat with 0%nat.
    rewrite (map_ext (fun i => substring (S i * k) k s)
                     (fun i => substring (i * k) k (string_drop k s)))
      by (intros i; simpl; apply substring_drop).
    rewrite IH by (rewrite length_drop; lia).
    apply take_drop.
Qed.

(** The first characters of a window, up to the stride, are the piece of
    the text at the offset of the window. *)
Lemma window_piece (text : string) (size stride : Z) (i : nat) :
  0 < stride <= size -> Z.of_nat i * stride < len text ->
  substring 0 (Z.to_nat stride)
            (slice text (Z.of_nat i * stride) (Z.of_nat i * stride + size))
  = substring (i * Z.to_nat stride) (Z.to_nat stride) text.
Proof.
  intros Hs Hi. unfold slice, adjust_index.
  destruct (Z.ltb_spec (Z.of_nat i * stride) 0); [lia|].
  destruct (Z.ltb_spec (Z.of_nat i * stride + size) 0); [lia|].
  rewrite substring_substring.
  replace (Z.to_nat (Z.min (Z.of_nat i * stride) (len text)))
    with (i * Z.to_nat stride)%nat by nia.
  rewrite <- (substring_clip text (i * Z.to_nat stride) (Z.to_nat stride)).
  f_equal. unfold len in *. nia.
Qed.

Lemma rebuild_windows (text : string) (size stride : Z) :
  0 < stride <= size -> rebuild stride (windows text size stride) = text.
Proof.
  intros Hs. unfold rebuild, windows. rewrite map_map.
  set (n := Z.to_nat (range_length 0 (len text) stride)).
  rewrite (map_ext_in _ (fun i => substring (i * Z.to_nat stride)
                                            (Z.to_nat stride) text)).
  - apply concat_pieces.
    assert (Hn : ~ Z.of_nat n * stride < len text).
    { intros H. apply range_length_spec in H; [|lia]. fold n in H. lia. }
    unfold len in Hn. nia.
  - intros i Hi. apply in_seq in Hi. apply window_piece; [exact Hs|].
    apply range_length_spec; [lia|]. fold n. lia.
Qed.

(** X10: the text can be rebuilt from its fragments: for 0 <= overlap <
    size, the first size - overlap characters of every fragment, put
    together in order, are the text; with no overlap the fragments put
    together are the text. *)
Theorem chunk_results_rebuild (d : dict string) (size overlap : Z)
    (url text : string) :
  Py.wf d -> Py.get d url = Some text -> 0 <= overlap < size ->
  exists r chunks,
    chunk_results d size overlap = Ok r /\ Py.get r url = Some chunks /\
    rebuild (size - overlap) chunks = text /\
    (overlap = 0 -> concat_all chunks = text).
Proof.
  intros Hwf Hget Hpar.
  exists (windows_of d size (size - overlap)), (windows text size (size - overlap)).
  split; [apply chunk_results_windows; [exact Hwf | lia]|].
  split; [rewrite get_windows_of, Hget; reflexivity|].
  assert (Hre : rebuild (size - overlap) (windows text size (size - overlap)) = text)
    by (apply rebuild_windows; lia).
  split; [exact Hre|].
  intros ->. rewrite Z.sub_0_r in *. rewrite <- Hre at 2.
  unfold rebuild. f_equal. symmetry.
  rewrite <- (map_id (windows text size size)) at 2.
  apply map_ext_in. intros c Hc.
  apply In_nth_error in Hc. destruct Hc as [k Hk].
  pose proof (windows_nth text size size k c Hk) as ->.
  apply substring_whole.
  assert (Hklt : Z.of_nat k * size < len text).
  { apply range_length_spec; [lia|]. rewrite <- windows_length with (size := size).
    apply nth_error_Some. congruence. }
  pose proof (slice_len text (Z.of_nat k * size) size) as Hl.
  unfold len in *. lia.
Qed.

Lemma chunk_results_rebuild_witness :
  Py.wf [("doc", "ABCDEFGHIJ")]
  /\ Py.get [("doc", "ABCDEFGHIJ")] "doc" = Some "ABCDEFGHIJ"
  /\ 0 <= 1 < 4
  /\ exists r chunks,
       chunk_results [("doc", "ABCDEFGHIJ")] 4 1 = Ok r
       /\ Py.get r "doc" = Some chunks
       /\ rebuild 3 chunks = "ABCDEFGHIJ".
Proof.
  assert (Hwf : Py.wf [("doc", "ABCDEFGHIJ")]).
  { unfold Py.wf. simpl. constructor; [simpl; tauto | constructor]. }
  assert (Hpar : 0 <= 1 < 4) by lia.
  refine (conj Hwf (conj eq_refl (conj Hpar _))).
  destruct (chunk_results_rebuild [("doc", "ABCDEFGHIJ")] 4 1 "doc" "ABCDEFGHIJ"
              Hwf eq_refl Hpar) as (r & chunks & Hr & Hg & Hre & _).
  exists r, chunks. split; [exact Hr|]. split; [exact Hg | exact Hre].
Defined.

(** X11: consecutive fragments share their overlap: for 0 <= overlap <
    size, the character at position size - overlap + p of a fragment is
    the character at position p of the next one, for every p below the
    overlap; both are the character of the text at the offset of the
    second fragment plus p. *)
Theorem chunk_results_overlap (d : dict string) (size overlap : Z)
    (url text : string) :
  Py.wf d -> Py.get d url = Some text -> 0 <= overlap < size ->
  exists r chunks,
    chunk_results d size overlap = Ok r /\ Py.get r url = Some chunks /\
    forall (k p : nat) (c1 c2 : string),
      nth_error chunks k = Some c1 -> nth_error chunks (S k) = Some c2 ->
      Z.of_nat p < overlap ->
      String.get (Z.to_nat (size - overlap) + p) c1 = String.get p c2 /\
      String.get p c2
      = String.get (S k * Z.to_nat (size - overlap) + p) text.
Proof.
  intros Hwf Hget Hpar.
  exists (windows_of d size (size - overlap)), (windows text size (size - overlap)).
  split; [apply chunk_results_windows; [exact Hwf | lia]|].
  split; [rewrite get_windows_of, Hget; reflexivity|].
  intros k p c1 c2 H1 H2 Hp.
  apply windows_nth in H1. apply windows_nth in H2. subst c1 c2.
  assert (Hk0 : 0 <= Z.of_nat k * (size - overlap)) by nia.
  assert (Hk1 : 0 <= Z.of_nat (S k) * (size - overlap)) by nia.
  rewrite (slice_get text _ size (Z.to_nat (size - overlap) + p)) by lia.
  rewrite (slice_get text _ size p) by lia.
  split; f_equal; nia.
Qed.

Lemma chunk_results_overlap_witness :
  Py.wf [("doc", "ABCDEFGHIJ")]
  /\ Py.get [("doc", "ABCDEFGHIJ")] "doc" = Some "ABCDEFGHIJ"
  /\ 0 <= 1 < 4
  /\ exists r chunks,
       chunk_results [("doc", "ABCDEFGHIJ")] 4 1 = Ok r
       /\ Py.get r "doc" = Some chunks.
Proof.
  assert (Hwf : Py.wf [("doc", "ABCDEFGHIJ")]).
  { unfold Py.wf. simpl. constructor; [simpl; tauto | constructor]. }
  assert (Hpar : 0 <= 1 < 4) by lia.
  refine (conj Hwf (conj eq_refl (conj Hpar _))).
  destruct (chunk_results_overlap [("doc", "ABCDEFGHIJ")] 4 1 "doc" "ABCDEFGHIJ"
              Hwf eq_refl Hpar) as (r & chunks & Hr & Hg & _).
  exists r, chunks. split; [exact Hr | exact Hg].
Defined.

(** X12: for 0 <= overlap < size a text of length L has
    ceil(L / (size - overlap)) fragments, and no fragment is longer than
    size. *)
Theorem chunk_results_count (d : dict string) (size overlap : Z)
    (url text : string) :
  Py.wf d -> Py.get d url = Some text -> 0 <= overlap < size ->
  exists r chunks,
    chunk_results d size overlap = Ok r /\ Py.get r url = Some chunks /\
    Z.of_nat (List.length chunks)
    = (len text + (size - overlap) - 1) / (size - overlap) /\
    Forall (fun c => 0 < len c <= size) chunks.
Proof.
  intros Hwf Hget Hpar.
  set (stride := size - overlap).
  assert (Hstride : 0 < stride) by (unfold stride; lia).
  exists (windows_of d size stride), (windows text size stride).
  split; [apply chunk_results_windows; [exact Hwf | lia]|].
  split; [rewrite get_windows_of, Hget; reflexivity|].
  pose proof (len_nonneg text) as HL.
  split.
  - rewrite windows_length. unfold range_length.
    destruct (Z.ltb_spec 0 stride); [|lia].
    destruct (Z.ltb_spec 0 (len text)) as [Hpos|Hzero].
    + replace (len text + stride - 1) with (len text - 1 + 1 * stride) by lia.
      rewrite Z.div_add by lia.
      assert (0 <= (len text - 1) / stride) by (apply Z.div_pos; lia).
      replace (len text - 0 - 1) with (len text - 1) by lia. lia.
    + replace (len text) with 0 by lia.
      rewrite Z.div_small by lia. reflexivity.
  - apply Forall_forall. intros c Hc.
    apply In_nth_error in Hc. destruct Hc as [k Hk].
    assert (Hklt : Z.of_nat k * stride < len text).
    { apply range_length_spec; [lia|].
      rewrite <- windows_length with (size := size).
      apply nth_error_Some. congruence. }
    apply windows_nth in Hk. subst c.
    rewrite slice_len by lia. lia.
Qed.

Lemma chunk_results_count_witness :
  Py.wf [("doc", "ABCDEFGHIJ")]
  /\ Py.get [("doc", "ABCDEFGHIJ")] "doc" = Some "ABCDEFGHIJ"
  /\ 0 <= 1 < 4
  /\ exists r chunks,
       chunk_results [("doc", "ABCDEFGHIJ")] 4 1 = Ok r
       /\ Py.get r "doc" = Some chunks
       /\ Z.of_nat (List.length chunks) = 4.
Proof.
  assert (Hwf : Py.wf [("doc", "ABCDEFGHIJ")]).
  { unfold Py.wf. simpl. constructor; [simpl; tauto | constructor]. }
  assert (Hpar : 0 <= 1 < 4) by lia.
  refine (conj Hwf (conj eq_refl (conj Hpar _))).
  destruct (chunk_results_count [("doc", "ABCDEFGHIJ")] 4 1 "doc" "ABCDEFGHIJ"
              Hwf eq_refl Hpar) as (r & chunks & Hr & Hg & Hn & _).
  exists r, chunks. split; [exact Hr|]. split; [exact Hg|].
  rewrite Hn. reflexivity.
Defined.

(** ** The calls [save_to_db] makes *)

Lemma enumerate_from_fst {A} (l : list A) :
  forall i : Z,
    map fst (enumerate_from i l)
    = map (fun k => i + Z.of_nat k) (seq 0 (List.length l)).
Proof.
  induction l as [|x l IH]; intros i; [reflexivity|].
  cbn [enumerate_from List.length map]. rewrite <- cons_seq, <- seq_shift.
  cbn [map fst]. rewrite map_map, IH.
  replace (i + Z.of_nat 0) with i by lia. f_equal.
  apply map_ext. intros k. lia.
Qed.

Lemma save_all_total {M : Type} (W : World M) (saves : list (string * Metadata)) :
  (forall m texts md, exists m', Memory_save W m texts md = Ok m') ->
  forall m, exists m', save_all W m saves = Ok m'.
Proof.
  intros Hsave. induction saves as [|[texts md] saves IH]; intros m; simpl.
  - now exists m.
  - destruct (Hsave m texts md) as [m1 ->]. simpl. apply IH.
Qed.

Lemma view_saved_save_events (l : list (string * Metadata)) :
  view saved (save_events l) = l.
Proof.
  unfold save_events. rewrite view_map. cbn [saved]. apply flat_map_pairs.
Qed.

(** X13: [save_to_db] calls [Memory.save] once for every fragment, source
    after source in the order of the mapping and fragment after fragment
    in each source, with the URL of the source and the position of the
    fragment counted from 0, and does nothing else.  It has no handler:
    when the calls before succeed and a call raises, [save_to_db] raises
    that exception, and the calls made are those up to and including the
    one that raised.  When no call raises it returns, and the object is
    the same but for its memory, which is the one the last call left. *)
Theorem save_to_db_calls {M : Type} (W : World M) (self : Ask M)
    (chunking_results : dict (list string)) (tr : list event) :
  (forall url chunks,
     map (fun s => md_url (snd s)) (labelled url chunks)
     = map (fun _ => url) chunks /\
     map (fun s => md_chunk (snd s)) (labelled url chunks)
     = map Z.of_nat (seq 0 (List.length chunks)) /\
     map fst (labelled url chunks) = chunks) /\
  exists ext res,
    save_to_db W self chunking_results tr = (res, tr ++ ext) /\
    ext = save_events (view saved ext) /\
    (forall done texts md rest m e,
       flat_map (fun uc => labelled (fst uc) (snd uc)) chunking_results
       = done ++ (texts, md) :: rest ->
       save_all W (memory self) done = Ok m ->
       Memory_save W m texts md = Raise e ->
       res = Raise e /\ view saved ext = done ++ [(texts, md)]) /\
    (forall m,
       save_all W (memory self)
         (flat_map (fun uc => labelled (fst uc) (snd uc)) chunking_results)
       = Ok m ->
       res = Ok (with_memory self m) /\
       view saved ext
       = flat_map (fun uc => labelled (fst uc) (snd uc)) chunking_results) /\
    (forall self',
       res = Ok self' ->
       view saved ext
       = flat_map (fun uc => labelled (fst uc) (snd uc)) chunking_results /\
       search_api_key self' = search_api_key self /\
       search_project_id self' = search_project_id self /\
       llm_api_key self' = llm_api_key self /\
       llm_base_url self' = llm_base_url self /\
       logger self' = logger self) /\
    (forall e,
       res = Raise e ->
       exists rest,
         flat_map (fun uc => labelled (fst uc) (snd uc)) chunking_results
         = view saved ext ++ rest) /\
    ((forall m texts md, exists m', Memory_save W m texts md = Ok m') ->
     exists self', res = Ok self').
Proof.
  split.
  - intros url chunks. unfold labelled. rewrite !map_map. cbn [snd fst md_url md_chunk].
    split; [|split].
    + unfold enumerate. generalize 0.
      induction chunks as [|c chunks IH]; intros i; simpl; [reflexivity|].
      now rewrite IH.
    + rewrite <- (map_map fst (fun i => i)), map_id.
      unfold enumerate. rewrite enumerate_from_fst. reflexivity.
    + unfold enumerate. generalize 0.
      induction chunks as [|c chunks IH]; intros i; simpl; [reflexivity|].
      now rewrite IH.
  - eexists. eexists. split; [apply save_to_db_run|].
    rewrite view_saved_save_events.
    split; [reflexivity|]. split; [|split; [|split; [|split]]].
    + intros done texts md rest m e Hall Hdone Hraise. rewrite Hall.
      destruct (calls_made_raise W done rest texts md _ _ e Hdone Hraise)
        as [-> ->].
      split; reflexivity.
    + intros m Hm. rewrite Hm. split; [reflexivity|].
      now apply (calls_made_ok W _ _ m).
    + intros self'.
      destruct (save_all W (memory self) _) as [m|e] eqn:Hm; [|discriminate].
      intros Heq. inversion Heq; subst self'.
      split; [now apply (calls_made_ok W _ _ m) | repeat split].
    + intros e _. apply calls_made_prefix.
    + intros Hsave.
      destruct (save_all_total W
                  (flat_map (fun uc => labelled (fst uc) (snd uc)) chunking_results)
                  Hsave (memory self)) as [m ->].
      eexists. reflexivity.
Qed.

Lemma save_to_db_calls_witness :
  exists ext self',
    save_to_db Sample.world Sample.ask [("u", ["ABCD"; "DEFG"])] []
    = (Ok self', [] ++ ext)
    /\ view saved ext
       = [("ABCD", {| md_url := "u"; md_chunk := 0 |});
          ("DEFG", {| md_url := "u"; md_chunk := 1 |})].
Proof.
  destruct (save_to_db_calls Sample.world Sample.ask [("u", ["ABCD"; "DEFG"])] [])
    as (_ & ext & res & Hrun & _ & _ & _ & Hok & _ & Htotal).
  destruct Htotal as [self' ->].
  { intros m texts md. eexists. reflexivity. }
  exists ext, self'. split; [exact Hrun|].
  destruct (Hok self' eq_refl) as (Hview & _). exact Hview.
Defined.

(** ** What a run prints *)

Lemma printed_length (answer : string) (results : list Result) :
  List.length (printed answer results) = (2 + List.length results)%nat.
Proof.
  unfold printed. cbn [List.length]. now rewrite length_map, enumerate_length.
Qed.

Lemma view_echoed_echo (lines : list string) :
  view echoed (map EvEcho lines) = lines.
Proof.
  rewrite view_map. cbn [echoed]. rewrite flat_map_single. apply map_id.
Qed.

(** X14: a run that raises prints nothing: the answer and the references
    are printed only after every stage has succeeded, and printing does
    not raise.  A run that completes got through the scraping, saved
    every fragment of the texts scraped, retrieved the results of the
    query from the memory the saves left and got an answer from the
    model: it prints that answer, the heading of the references and one
    line for every result of that retrieval, and nothing else. *)
Theorem output_only_on_success {M : Type} (W : World M) (o : Options)
    (tr : list event) :
  exists ext res,
    search_extract_summarize W o tr = (res, tr ++ ext) /\
    (forall e, res = Raise e -> view echoed ext = []) /\
    (res = Ok tt ->
     exists ask links sr tr' m results answer h,
       scraping_of W o tr ask links sr tr' /\
       save_all W (memory ask) (expected_saves sr) = Ok m /\
       Memory_search W m (opt_query o) 10 = Ok results /\
       chat_api W h (get_chat_model ask (opt_model_name o))
                (messages_for (opt_query o) results)
       = Ok (Some answer) /\
       view echoed ext
       = ("# Answer" +++ nl +++ nl +++ answer +++ nl)
         :: "# References"
         :: map (fun ir => reference_line (fst ir) (snd ir)) (enumerate results) /\
       List.length (view echoed ext) = (2 + List.length results)%nat).
Proof.
  assert (Hlog : forall lg l msg, echoed (EvLog lg l msg) = []) by reflexivity.
  destruct (scraping_or_stop W o tr)
    as [(ask & links & sr & tr' & H)|(ext & e & Hrun & Heff & _)].
  - destruct (search_extract_summarize_effects W o tr _ _ _ _ H)
      as (_ & ext & res & out & Hrun & Heff & Hres).
    exists ext, res. split; [exact Hrun|].
    pose proof (view_stages echoed Hlog _ _ _ _ _ Heff) as Hview.
    cbn [echoed app] in Hview. rewrite !flat_map_nil in Hview. cbn [app] in Hview.
    destruct (save_all W (memory ask) (expected_saves sr)) as [m|e0] eqn:Hm.
    + destruct (Memory_search W m (opt_query o) 10) as [results|e1] eqn:Hs.
      * change (view echoed ext = view echoed (map EvEcho out)) in Hview.
        rewrite view_echoed_echo in Hview.
        destruct Hres as [[-> [e He]]|(answer & h & Hc & -> & Hok)].
        -- subst res. split; [intros e' _; exact Hview | discriminate].
        -- split; [intros e' He'; congruence|].
           intros _. exists ask, links, sr, tr', m, results, answer, h.
           split; [exact H|]. split; [exact Hm|]. split; [exact Hs|].
           split; [exact Hc|]. split; [exact Hview|].
           rewrite Hview. apply printed_length.
      * destruct Hres as [e He]. subst res.
        split; [intros e' _; exact Hview | discriminate].
    + destruct Hres as [e He]. subst res.
      split; [intros e' _; exact Hview | discriminate].
  - exists ext, (Raise e). split; [exact Hrun|]. split; [|discriminate].
    intros e' _. rewrite <- (view_effects echoed Hlog).
    destruct Heff as [->|[url ->]]; reflexivity.
Qed.

Lemma output_only_on_success_witness :
  exists ext m results answer,
    search_extract_summarize Sample.world Sample.options [] = (Ok tt, ext)
    /\ Memory_search Sample.world m "what" 10 = Ok results
    /\ view echoed ext
       = ("# Answer" +++ nl +++ nl +++ answer +++ nl)
         :: "# References"
         :: map (fun ir => reference_line (fst ir) (snd ir)) (enumerate results).
Proof.
  destruct (output_only_on_success Sample.world Sample.options [])
    as (ext & res & Hrun & _ & Hok).
  assert (Hres : res = Ok tt).
  { assert (Hfst : fst (search_extract_summarize Sample.world Sample.options [])
                   = Ok tt) by (vm_compute; reflexivity).
    rewrite Hrun in Hfst. exact Hfst. }
  subst res.
  destruct (Hok eq_refl)
    as (ask & links & sr & tr' & m & results & answer & h
        & _ & _ & Hs & _ & Hview & _).
  exists ext, m, results, answer.
  split; [exact Hrun|]. split; [exact Hs | exact Hview].
Defined.

(** ** The order of the calls of a run *)

Lemma partial_run_prefix (g s e : nat) (calls rest : list call) :
  complete_run g s e = calls ++ rest -> partial_run calls.
Proof. intros H. now exists g, s, e, rest. Qed.

Section CallOrder.

Context {M : Type} (W : World M).

Lemma search_web_calls (self : Ask M) (query : string)
    (date_restrict : option Z) (target_site : option string) :
  hoare call_of (search_web W self query date_restrict target_site)
    (fun _ s => s = [CallSearch]) (fun s => s = [] \/ s = [CallSearch]).
Proof.
  assert (Hlog : forall lg l msg, call_of (EvLog lg l msg) = []) by reflexivity.
  unfold search_web. cbv zeta.
  apply hoare_after_quiet; [now apply quiet_log | now left | intros _].
  apply hoare_then_quiet with
    (Q1 := fun _ s => s = [CallSearch]) (E1 := fun _ => False).
  - now apply hoare_emit.
  - intros s [].
  - intros _. apply quiet_bind; [apply quiet_oracle | intros reply].
    destruct reply as [error|text| |[[|result results]|]].
    + apply quiet_raise.
    + apply quiet_raise.
    + apply quiet_bind; [now apply quiet_log | intros _; apply quiet_ret].
    + apply quiet_bind; [now apply quiet_log | intros _; apply quiet_ret].
    + now apply quiet_collect_links.
    + apply quiet_bind; [now apply quiet_log | intros _; apply quiet_ret].
  - intros _ s ->. split; [intros _; reflexivity | now right].
Qed.

Lemma scrape_loop_calls (self : Ask M) (urls : list string) :
  forall (acc : dict string) (tr : list event),
  exists res ext,
    scrape_loop W self urls acc tr = (Ok res, tr ++ ext) /\
    view call_of ext = repeat CallGet (List.length urls).
Proof.
  induction urls as [|url rest IH]; intros acc tr.
  - exists acc, []. simpl. unfold ret. now rewrite app_nil_r.
  - destruct (http_get W (tr ++ [EvGet url]) url) as [[body|]|e] eqn:Hget.
    + rewrite (scrape_loop_body W self _ _ _ _ _ Hget).
      destruct (IH (Py.set acc url (normalize body))
                   (tr ++ [EvGet url;
                           EvLog (logger self) DEBUG
                             ("Scraped " +++ url +++ ": " +++ normalize body +++ "...")]))
        as (res & ext & Hrun & Hview).
      exists res. eexists. rewrite Hrun, <- app_assoc. split; [reflexivity|].
      rewrite view_app, Hview. reflexivity.
    + rewrite (scrape_loop_no_body W self _ _ _ _ Hget).
      destruct (IH acc
                   (tr ++ [EvGet url;
                           EvLog (logger self) WARNING
                             ("No body tag found in the response for url: " +++ url)]))
        as (res & ext & Hrun & Hview).
      exists res. eexists. rewrite Hrun, <- app_assoc. split; [reflexivity|].
      rewrite view_app, Hview. reflexivity.
    + rewrite (scrape_loop_raise W self _ _ _ _ _ Hget).
      destruct (IH acc
                   (tr ++ [EvGet url;
                           EvLog (logger self) ERROR
                             ("scraping error " +++ url +++ ": " +++ exn_str e)]))
        as (res & ext & Hrun & Hview).
      exists res. eexists. rewrite Hrun, <- app_assoc. split; [reflexivity|].
      rewrite view_app, Hview. reflexivity.
Qed.

Lemma scrape_urls_calls (self : Ask M) (urls : list string) :
  hoare call_of (scrape_urls W self urls)
    (fun _ s => s = repeat CallGet (List.length urls)) (fun _ => False).
Proof.
  intros tr. unfold scrape_urls.
  destruct (scrape_loop_calls self urls [] tr) as (res & ext & Hrun & Hview).
  exists ext, (Ok res). split; [exact Hrun | exact Hview].
Qed.

Lemma save_chunks_calls (url : string) (l : list (Z * string)) :
  forall m,
    hoare call_of (save_chunks W url l m)
      (fun _ s => exists n, s = repeat CallSave n)
      (fun s => exists n, s = repeat CallSave n).
Proof.
  induction l as [|[i chunk] l IH]; intros m; simpl.
  - apply hoare_ret. now exists 0%nat.
  - apply hoare_bind with (Q1 := fun _ s => s = [CallSave]) (E1 := fun _ => False).
    + now apply hoare_emit.
    + intros s [].
    + intros _ s1 ->.
      apply hoare_after_quiet; [apply quiet_lift | now exists 1%nat | intros m'].
      apply hoare_conseq with (1 := IH m').
      * intros _ s [n ->]. now exists (S n).
      * intros s [n ->]. now exists (S n).
Qed.

Lemma save_to_db_stage (self : Ask M) (r : dict (list string)) :
  hoare call_of (save_to_db W self r)
    (fun _ s => exists n, s = repeat CallSave n)
    (fun s => exists n, s = repeat CallSave n).
Proof.
  unfold save_to_db, items.
  apply hoare_then_quiet with
    (Q1 := fun _ s => exists n, s = repeat CallSave n)
    (E1 := fun s => exists n, s = repeat CallSave n).
  - generalize (memory self).
    induction r as [|[url chunks] r IH]; intros m; simpl.
    + apply hoare_ret. now exists 0%nat.
    + apply hoare_bind with (1 := save_chunks_calls url (enumerate chunks) m).
      * auto.
      * intros m' s1 [n1 ->]. apply hoare_conseq with (1 := IH m').
        -- intros _ s [n ->]. exists (n1 + n)%nat. now rewrite repeat_app.
        -- intros s [n ->]. exists (n1 + n)%nat. now rewrite repeat_app.
  - auto.
  - intros m. apply quiet_ret.
  - intros m s Hs. split; [intros _|]; exact Hs.
Qed.

Lemma vector_search_calls (self : Ask M) (query : string) :
  hoare call_of (vector_search W self query)
    (fun _ s => s = [CallRetrieve]) (fun s => s = [CallRetrieve]).
Proof.
  unfold vector_search.
  apply hoare_then_quiet with
    (Q1 := fun _ s => s = [CallRetrieve]) (E1 := fun _ => False).
  - now apply hoare_emit.
  - intros s [].
  - intros _. apply quiet_lift.
  - intros _ s ->. split; [intros _|]; reflexivity.
Qed.

Lemma run_inference_calls (self : Ask M) (query model_name : string)
    (matched_chunks : list Result) :
  hoare call_of (run_inference W self query model_name matched_chunks)
    (fun _ s => s = [CallChat]) (fun s => s = [] \/ s = [CallChat]).
Proof.
  assert (Hlog : forall lg l msg, call_of (EvLog lg l msg) = []) by reflexivity.
  unfold run_inference. cbv zeta.
  apply hoare_after_quiet; [now apply quiet_log | now left | intros _].
  apply hoare_after_quiet; [now apply quiet_log | now left | intros _].
  apply hoare_then_quiet with
    (Q1 := fun _ s => s = [CallChat]) (E1 := fun _ => False).
  - now apply hoare_emit.
  - intros s [].
  - intros _. apply quiet_bind; [apply quiet_oracle | intros [content|]].
    + apply quiet_ret.
    + apply quiet_raise.
  - intros _ s ->. split; [intros _; reflexivity | now right].
Qed.

Lemma for_each_echo_calls {A} (f : A -> string) (l : list A) :
  hoare call_of (for_each l (fun x => emit (EvEcho (f x))))
    (fun _ s => s = repeat CallEcho (List.length l)) (fun _ => False).
Proof.
  induction l as [|x l IH]; simpl.
  - now apply hoare_ret.
  - apply hoare_bind with (Q1 := fun _ s => s = [CallEcho]) (E1 := fun _ => False).
    + now apply hoare_emit.
    + intros s [].
    + intros _ s1 ->. apply hoare_conseq with (1 := IH).
      * intros _ s ->. reflexivity.
      * intros s [].
Qed.

Lemma search_extract_summarize_calls (o : Options) :
  hoare call_of (search_extract_summarize W o)
    (fun _ calls => exists g s e, calls = complete_run g s e)
    partial_run.
Proof.
  assert (Hlog : forall lg l msg, call_of (EvLog lg l msg) = []) by reflexivity.
  assert (P0 : partial_run []) by (eapply (partial_run_prefix 0 0 0 []); reflexivity).
  unfold search_extract_summarize. cbv zeta.
  apply hoare_after_quiet; [now apply quiet_Ask_init | exact P0 | intros ask].
  apply hoare_after_quiet; [now apply quiet_log | exact P0 | intros _].
  apply hoare_bind with
    (1 := search_web_calls ask (opt_query o) (opt_date_restrict o)
                           (opt_target_site o)).
  { intros s [->| ->]; [exact P0|].
    eapply (partial_run_prefix 0 0 0 [CallSearch]); reflexivity. }
  intros links s1 ->.
  assert (P1 : partial_run ([CallSearch] ++ []))
    by (eapply (partial_run_prefix 0 0 0 ([CallSearch] ++ [])); reflexivity).
  apply hoare_after_quiet; [now apply quiet_log | exact P1 | intros _].
  apply hoare_after_quiet;
    [apply quiet_for_each; intros x; now apply quiet_log | exact P1 | intros _].
  apply hoare_after_quiet; [now apply quiet_log | exact P1 | intros _].
  apply hoare_bind with (1 := scrape_urls_calls ask links).
  { intros s []. }
  intros sr s2 ->.
  set (g := List.length links).
  assert (P2 : partial_run ([CallSearch] ++ repeat CallGet g ++ [])).
  { apply (partial_run_prefix g 0 0 _ [CallRetrieve; CallChat]).
    unfold complete_run; simpl; rewrite ?app_nil_r, <- ?app_assoc; simpl; reflexivity. }
  apply hoare_after_quiet; [now apply quiet_log | exact P2 | intros _].
  apply hoare_after_quiet; [now apply quiet_log | exact P2 | intros _].
  apply hoare_after_quiet; [apply quiet_lift | exact P2 | intros chunking].
  apply hoare_after_quiet; [| exact P2 | intros _].
  { apply quiet_for_each. intros uc.
    apply quiet_bind; [now apply quiet_log | intros _].
    apply quiet_for_each. intros ic. now apply quiet_log. }
  apply hoare_after_quiet; [now apply quiet_log | exact P2 | intros _].
  apply hoare_bind with (1 := save_to_db_stage ask chunking).
  { intros s [n ->].
    apply (partial_run_prefix g n 0 _ [CallRetrieve; CallChat]).
    unfold complete_run; simpl; rewrite ?app_nil_r, <- ?app_assoc; simpl; reflexivity. }
  intros ask' s3 [n ->].
  assert (P3 : partial_run
                 ([CallSearch] ++ repeat CallGet g ++ repeat CallSave n ++ [])).
  { apply (partial_run_prefix g n 0 _ [CallRetrieve; CallChat]).
    unfold complete_run; simpl; rewrite ?app_nil_r, <- ?app_assoc; simpl; reflexivity. }
  apply hoare_after_quiet; [now apply quiet_log | exact P3 | intros _].
  apply hoare_bind with (1 := vector_search_calls ask' (opt_query o)).
  { intros s ->.
    apply (partial_run_prefix g n 0 _ [CallChat]).
    unfold complete_run; simpl; rewrite ?app_nil_r, <- ?app_assoc; simpl; reflexivity. }
  intros results s4 ->.
  assert (P4 : partial_run
                 ([CallSearch] ++ repeat CallGet g ++ repeat CallSave n
                  ++ [CallRetrieve] ++ [])).
  { apply (partial_run_prefix g n 0 _ [CallChat]).
    unfold complete_run; simpl; rewrite ?app_nil_r, <- ?app_assoc; simpl; reflexivity. }
  apply hoare_after_quiet;
    [apply quiet_for_each; intros x; now apply quiet_log | exact P4 | intros _].
  apply hoare_after_quiet; [now apply quiet_log | exact P4 | intros _].
  apply hoare_bind with
    (1 := run_inference_calls ask' (opt_query o) (opt_model_name o) results).
  { intros s [->| ->]; [exact P4|].
    apply (partial_run_prefix g n 0 _ []).
    unfold complete_run; simpl; rewrite ?app_nil_r, <- ?app_assoc; simpl; reflexivity. }
  intros answer s5 ->.
  assert (P5 : partial_run
                 ([CallSearch] ++ repeat CallGet g ++ repeat CallSave n
                  ++ [CallRetrieve] ++ [CallChat] ++ [])).
  { apply (partial_run_prefix g n 0 _ []).
    unfold complete_run; simpl; rewrite ?app_nil_r, <- ?app_assoc; simpl; reflexivity. }
  apply hoare_after_quiet; [now apply quiet_log | exact P5 | intros _].
  apply hoare_conseq with
    (Q := fun (_ : unit) s => s = repeat CallEcho (2 + List.length (enumerate results)))
    (E := fun _ => False).
  2: { intros _ s ->. exists g, n, (2 + List.length (enumerate results))%nat.
       unfold complete_run. reflexivity. }
  2: { intros s []. }
  apply hoare_bind with (Q1 := fun _ s => s = [CallEcho]) (E1 := fun _ => False).
  { now apply hoare_emit. }
  { intros s []. }
  intros _ s6 ->.
  apply hoare_bind with (Q1 := fun _ s => s = [CallEcho]) (E1 := fun _ => False).
  { now apply hoare_emit. }
  { intros s []. }
  intros _ s7 ->.
  apply hoare_conseq with
    (1 := for_each_echo_calls (fun ir => reference_line (fst ir) (snd ir))
                              (enumerate results)).
  - intros _ s ->. reflexivity.
  - intros s [].
Qed.

End CallOrder.

(** X15: the calls of a run come in the order of the stages.  A run that
    completes makes one search request, then the page requests, then the
    saves of the fragments, then one retrieval, then one call of the
    model, then the printing; a run that raises made a beginning of such
    a sequence.  So no page is requested after a fragment was saved, the
    model is called at most once, and only after the retrieval. *)
Theorem calls_in_stage_order {M : Type} (W : World M) (o : Options)
    (tr : list event) :
  exists ext res,
    search_extract_summarize W o tr = (res, tr ++ ext) /\
    partial_run (view call_of ext) /\
    (res = Ok tt -> exists g s e, view call_of ext = complete_run g s e).
Proof.
  destruct (search_extract_summarize_calls W o tr) as (ext & res & Hrun & Hpost).
  exists ext, res. split; [exact Hrun|].
  destruct res as [[]|e].
  - destruct Hpost as (g & s & e & Hs). split.
    + apply (partial_run_prefix g s e _ []). now rewrite app_nil_r.
    + intros _. now exists g, s, e.
  - split; [exact Hpost | discriminate].
Qed.

(** ** [run_inference] *)


(** ** The memory the retrieval reads *)

Lemma Ask_init_memory {M : Type} (W : World M) (lg : option Logger)
    (tr tr' : list event) (self : Ask M) :
  Ask_init W lg tr = (Ok self, tr') -> Memory_new W = Ok (memory self).
Proof.
  unfold Ask_init, rbind, lift, ret.
  destruct (read_env_variables W) as [[[[k1 k2] k3] base]|e]; [|discriminate].
  destruct (Memory_new W) as [m|e]; [|discriminate].
  intros H. inversion H. reflexivity.
Qed.

Lemma view_shown_echo (lines : list string) :
  view shown (map EvEcho lines) = map Line lines.
Proof. rewrite view_map. cbn [shown]. apply flat_map_single. Qed.

Lemma view_retrievals_echo (lines : list string) :
  view retrievals (map EvEcho lines) = [].
Proof. rewrite view_map. cbn [retrievals]. apply flat_map_nil. Qed.

(** X17: in a run that gets through the scraping, with [sr] the mapping
    scraped and [ask] the object built, whose memory is the new one
    [Memory()] returned: when a save raises, the run raises, and there is
    no retrieval and no call of the model; when no save raises, every
    fragment of size 1000 at stride 900 of the texts of [sr] was saved,
    in order, and there is exactly one retrieval, for the query and 10
    matches, on the memory these saves left.  When that retrieval raises
    the run raises and the model is not called; otherwise the model is
    called once, on the prompt built from the results of that retrieval,
    and a run that completes shows the answer and the references of the
    same results. *)
Theorem retrieval_reads_saved_memory {M : Type} (W : World M) (o : Options)
    (tr : list event) (ask : Ask M) (links : list string) (sr : dict string)
    (tr' : list event) :
  scraping_of W o tr ask links sr tr' ->
  exists ext res,
    search_extract_summarize W o tr = (res, tr ++ ext) /\
    Memory_new W = Ok (memory ask) /\
    (forall e,
       save_all W (memory ask) (expected_saves sr) = Raise e ->
       view retrievals ext = [] /\ view shown ext = [] /\
       exists e', res = Raise e') /\
    (forall m,
       save_all W (memory ask) (expected_saves sr) = Ok m ->
       view saved ext = expected_saves sr /\
       view retrievals ext = [(opt_query o, 10)] /\
       (forall e,
          Memory_search W m (opt_query o) 10 = Raise e ->
          view shown ext = [] /\ exists e', res = Raise e') /\
       (forall results,
          Memory_search W m (opt_query o) 10 = Ok results ->
          (view shown ext = [Prompt (messages_for (opt_query o) results)]
           /\ exists e', res = Raise e')
          \/ exists answer h,
               chat_api W h (get_chat_model ask (opt_model_name o))
                        (messages_for (opt_query o) results)
               = Ok (Some answer) /\
               res = Ok tt /\
               view shown ext
               = Prompt (messages_for (opt_query o) results)
                 :: map Line (printed answer results))).
Proof.
  intros H.
  assert (Hl1 : forall lg l msg, retrievals (EvLog lg l msg) = []) by reflexivity.
  assert (Hl2 : forall lg l msg, shown (EvLog lg l msg) = []) by reflexivity.
  assert (Hl3 : forall lg l msg, saved (EvLog lg l msg) = []) by reflexivity.
  destruct (search_extract_summarize_effects W o tr _ _ _ _ H)
    as (_ & ext & res & out & Hrun & Heff & Hres).
  exists ext, res. split; [exact Hrun|]. split.
  { destruct H as (tr1 & HAsk & _). exact (Ask_init_memory W _ _ _ _ HAsk). }
  pose proof (view_stages retrievals Hl1 _ _ _ _ _ Heff) as Hv1.
  pose proof (view_stages shown Hl2 _ _ _ _ _ Heff) as Hv2.
  pose proof (view_stages saved Hl3 _ _ _ _ _ Heff) as Hv3.
  cbn [retrievals app] in Hv1. rewrite !flat_map_nil in Hv1. cbn [app] in Hv1.
  cbn [shown app] in Hv2. rewrite !flat_map_nil in Hv2. cbn [app] in Hv2.
  cbn [saved app] in Hv3. rewrite flat_map_nil, flat_map_pairs in Hv3.
  cbn [app] in Hv3.
  destruct (save_all W (memory ask) (expected_saves sr)) as [m|e0] eqn:Hm.
  - split; [intros e He; discriminate|].
    intros m' Hm'. inversion Hm'; subst m'.
    rewrite (calls_made_ok W _ _ m Hm) in Hv3.
    destruct (Memory_search W m (opt_query o) 10) as [results|e1] eqn:Hs.
    + change (view retrievals ext
              = (opt_query o, 10) :: view retrievals (map EvEcho out)) in Hv1.
      change (view shown ext
              = Prompt (messages_for (opt_query o) results)
                :: view shown (map EvEcho out)) in Hv2.
      change (view saved ext
              = expected_saves sr ++ view saved (map EvEcho out)) in Hv3.
      rewrite view_retrievals_echo in Hv1. rewrite view_shown_echo in Hv2.
      rewrite view_map in Hv3. cbn [saved] in Hv3.
      rewrite flat_map_nil, app_nil_r in Hv3.
      split; [exact Hv3|]. split; [exact Hv1|].
      split; [intros e He; discriminate|].
      intros results' Hr. inversion Hr; subst results'.
      destruct Hres as [[-> He]|(answer & h & Hc & -> & Hok)].
      * left. split; [exact Hv2 | exact He].
      * right. exists answer, h. split; [exact Hc|]. split; [exact Hok | exact Hv2].
    + change (view saved ext = expected_saves sr ++ []) in Hv3.
      rewrite app_nil_r in Hv3.
      split; [exact Hv3|]. split; [exact Hv1|].
      split; [|intros results Hr; discriminate].
      intros e _. split; [exact Hv2 | exact Hres].
  - split; [|intros m Hm'; discriminate].
    intros e _. split; [exact Hv1|]. split; [exact Hv2 | exact Hres].
Qed.

Lemma retrieval_reads_saved_memory_witness :
  exists tr' ext res,
    scraping_of Sample.world Sample.options [] Sample.ask
      ["http://a"; "http://b"] [("http://b", "ABCDEFGHIJ KLM")] tr'
    /\ search_extract_summarize Sample.world Sample.options [] = (res, ext)
    /\ view saved ext
       = [("ABCDEFGHIJ KLM", {| md_url := "http://b"; md_chunk := 0 |})]
    /\ view retrievals ext = [("what", 10)].
Proof.
  assert (H : exists tr',
             scraping_of Sample.world Sample.options [] Sample.ask
               ["http://a"; "http://b"] [("http://b", "ABCDEFGHIJ KLM")] tr').
  { eexists. eexists.
    split; [reflexivity|]. split; [reflexivity|]. reflexivity. }
  destruct H as [tr' H].
  destruct (retrieval_reads_saved_memory Sample.world Sample.options [] _ _ _ _ H)
    as (ext & res & Hrun & _ & _ & Hok).
  destruct (Hok (EmbeddingIndex.insert Sample.embed
                   {| EmbeddingIndex.source_id := "http://b";
                      EmbeddingIndex.sequence_index := 0;
                      EmbeddingIndex.text := "ABCDEFGHIJ KLM" |}
                   EmbeddingIndex.empty) eq_refl)
    as (Hsaved & Hretr & _).
  exists tr', ext, res.
  split; [exact H|]. split; [exact Hrun|]. split; [exact Hsaved | exact Hretr].
Defined.

(** ** Runs in which the search finds nothing, or fails *)

Section DegenerateRuns.

Context {M : Type} (W : World M).

Lemma hoare_strengthen {X A} (obs : event -> list X) (c : run A)
    (Q : A -> list X -> Prop) (E : list X -> Prop) (V : A -> Prop) :
  hoare obs c Q E ->
  (forall tr a tr', c tr = (Ok a, tr') -> V a) ->
  hoare obs c (fun a s => Q a s /\ V a) E.
Proof.
  intros Hc Hv tr. destruct (Hc tr) as (ext & r & Heq & Hpost).
  exists ext, r. split; [exact Heq|]. destruct r as [a|e]; [|exact Hpost].
  split; [exact Hpost | exact (Hv _ _ _ Heq)].
Qed.

Lemma search_web_outcome (self : Ask M) (query : string)
    (date_restrict : option Z) (target_site : option string)
    (tr : list event) :
  let reply :=
    search_api W (search_history W self query date_restrict target_site tr)
               (search_url W self query date_restrict target_site) in
  (no_link reply ->
   forall links tr',
     search_web W self query date_restrict target_site tr = (Ok links, tr') ->
     links = []) /\
  (search_fails reply ->
   forall links tr',
     search_web W self query date_restrict target_site tr <> (Ok links, tr')).
Proof.
  intros reply. subst reply.
  unfold search_web, search_history, rbind, log, emit, raise, ret.
  cbv zeta beta iota. rewrite <- !app_assoc. cbn [app].
  destruct (search_api W _ _) as [[error|text| |[results|]]|e];
    cbn [no_link search_fails].
  1, 2, 6: split; [intros [] | intros _ links tr' H; discriminate].
  1, 3: split; [intros _ links tr' [= <- _]; reflexivity | intros []].
  split; [|intros []].
  intros Hnone links tr' Hrun.
  destruct results as [|result results].
  - injection Hrun as <- _. reflexivity.
  - destruct (collect_links_spec self (result :: results) []
                (tr ++ [EvLog (logger self) DEBUG ("Searching for query: " +++ query);
                        EvSearchRequest
                          (search_url W self query date_restrict target_site)]))
      as (ext & Hc & _).
    rewrite Hc in Hrun. injection Hrun as <- _. exact Hnone.
Qed.

(** When the reply gives no link, [search_web] returns the empty list. *)
Lemma search_web_no_link (self : Ask M) (query : string)
    (date_restrict : option Z) (target_site : option string)
    (tr : list event) :
  no_link
    (search_api W (search_history W self query date_restrict target_site tr)
                (search_url W self query date_restrict target_site)) ->
  exists tr', search_web W self query date_restrict target_site tr = (Ok [], tr').
Proof.
  unfold search_web, search_history, rbind, log, emit, raise, ret.
  cbv zeta beta iota. rewrite <- !app_assoc. cbn [app].
  destruct (search_api W _ _) as [[error|text| |[results|]]|e];
    cbn [no_link].
  1, 2, 6: intros [].
  - intros _. eexists. reflexivity.
  - intros Hnone. destruct results as [|result results].
    + eexists. reflexivity.
    + destruct (collect_links_spec self (result :: results) []
                  (tr ++ [EvLog (logger self) DEBUG ("Searching for query: " +++ query);
                          EvSearchRequest
                            (search_url W self query date_restrict target_site)]))
        as (ext & Hc & _).
      rewrite Hc, Hnone. eexists. reflexivity.
  - intros _. eexists. reflexivity.
Qed.

(** A run in which the search raises. *)
Lemma search_extract_summarize_search_fails (o : Options) :
  (forall h url, search_fails (search_api W h url)) ->
  hoare call_of (search_extract_summarize W o)
    (fun _ _ => False) (fun calls => calls = [] \/ calls = [CallSearch]).
Proof.
  intros Hfail.
  assert (Hlog : forall lg l msg, call_of (EvLog lg l msg) = []) by reflexivity.
  unfold search_extract_summarize. cbv zeta.
  apply hoare_after_quiet; [now apply quiet_Ask_init | now left | intros ask].
  apply hoare_after_quiet; [now apply quiet_log | now left | intros _].
  apply hoare_bind with
    (Q1 := fun (_ : list string) s => s = [CallSearch] /\ False)
    (E1 := fun s => s = [] \/ s = [CallSearch]).
  - apply hoare_strengthen; [apply search_web_calls|].
    intros tr links tr' Hrun.
    apply (proj2 (search_web_outcome ask _ _ _ tr) (Hfail _ _) links tr' Hrun).
  - auto.
  - intros links s [_ []].
Qed.

End DegenerateRuns.

(** X18: when the object is built and the search finds no link, the run
    does not stop: no page is requested and no fragment is saved, and the
    retrieval is still made, on the memory as [Memory()] returned it.
    When the retrieval raises the run raises, after these two calls;
    otherwise the model is called, and the run either raises there or
    completes after printing the answer, the heading of the references
    and one line for every result. *)
Theorem run_without_links {M : Type} (W : World M) (o : Options)
    (tr : list event) (ask : Ask M) :
  Ask_init W (Some (get_logger (opt_log_level o))) tr = (Ok ask, tr) ->
  no_link
    (search_api W
       (search_history W ask (opt_query o) (opt_date_restrict o)
          (opt_target_site o)
          (tr ++ [EvLog (get_logger (opt_log_level o)) INFO
                        (check_mark +++ " Searching the web ...")]))
       (search_url W ask (opt_query o) (opt_date_restrict o) (opt_target_site o))) ->
  exists ext res,
    search_extract_summarize W o tr = (res, tr ++ ext) /\
    ~ In CallGet (view call_of ext) /\
    ~ In CallSave (view call_of ext) /\
    Memory_new W = Ok (memory ask) /\
    view retrievals ext = [(opt_query o, 10)] /\
    (forall e,
       Memory_search W (memory ask) (opt_query o) 10 = Raise e ->
       view call_of ext = [CallSearch; CallRetrieve] /\ exists e', res = Raise e') /\
    (forall results,
       Memory_search W (memory ask) (opt_query o) 10 = Ok results ->
       (view call_of ext = [CallSearch; CallRetrieve; CallChat]
        /\ exists e', res = Raise e')
       \/ (view call_of ext
           = [CallSearch; CallRetrieve; CallChat]
             ++ repeat CallEcho (2 + List.length results)
           /\ res = Ok tt)).
Proof.
  intros HAsk Hnone.
  assert (Hl1 : forall lg l msg, retrievals (EvLog lg l msg) = []) by reflexivity.
  assert (Hl2 : forall lg l msg, call_of (EvLog lg l msg) = []) by reflexivity.
  destruct (search_web_no_link W ask _ _ _ _ Hnone) as [tr1 Hsearch].
  assert (H : exists tr', scraping_of W o tr ask [] [] tr').
  { eexists. exists tr1. split; [exact HAsk|]. split; [exact Hsearch|].
    reflexivity. }
  destruct H as [tr' H].
  destruct (search_extract_summarize_effects W o tr _ _ _ _ H)
    as (_ & ext & res & out & Hrun & Heff & Hres).
  exists ext, res. split; [exact Hrun|].
  pose proof (view_stages retrievals Hl1 _ _ _ _ _ Heff) as Hv1.
  pose proof (view_stages call_of Hl2 _ _ _ _ _ Heff) as Hv2.
  cbn [expected_saves flat_map calls_made save_all] in Hv1, Hv2, Hres.
  cbn [retrievals app flat_map] in Hv1.
  cbn [call_of app flat_map] in Hv2.
  assert (Hecho : view call_of (map EvEcho out)
                  = repeat CallEcho (List.length out)).
  { rewrite view_map. cbn [call_of]. rewrite flat_map_single.
    apply map_const_repeat. }
  assert (Hnot : forall n c,
             In c ([CallSearch; CallRetrieve; CallChat] ++ repeat CallEcho n) ->
             c <> CallGet /\ c <> CallSave).
  { intros n c [<-|[<-|[<-|Hin]]]; try (split; discriminate).
    apply repeat_spec in Hin. subst c. split; discriminate. }
  destruct (Memory_search W (memory ask) (opt_query o) 10) as [results|e1] eqn:Hs.
  - change (view retrievals ext
            = (opt_query o, 10) :: view retrievals (map EvEcho out)) in Hv1.
    change (view call_of ext
            = [CallSearch; CallRetrieve; CallChat]
              ++ view call_of (map EvEcho out)) in Hv2.
    rewrite view_retrievals_echo in Hv1. rewrite Hecho in Hv2.
    split; [intros Hin; rewrite Hv2 in Hin; apply Hnot in Hin; tauto|].
    split; [intros Hin; rewrite Hv2 in Hin; apply Hnot in Hin; tauto|].
    split; [exact (Ask_init_memory W _ _ _ _ HAsk)|].
    split; [exact Hv1|].
    split; [intros e He; discriminate|].
    intros results' Hr. inversion Hr; subst results'.
    destruct Hres as [[-> He]|(answer & h & Hc & -> & Hok)].
    + left. split; [exact Hv2 | exact He].
    + right. rewrite printed_length in Hv2. split; [exact Hv2 | exact Hok].
  - change (view retrievals ext = [(opt_query o, 10)]) in Hv1.
    change (view call_of ext = [CallSearch; CallRetrieve]) in Hv2.
    split; [rewrite Hv2; simpl; intuition discriminate|].
    split; [rewrite Hv2; simpl; intuition discriminate|].
    split; [exact (Ask_init_memory W _ _ _ _ HAsk)|].
    split; [exact Hv1|].
    split; [|intros results Hr; discriminate].
    intros e _. split; [exact Hv2 | exact Hres].
Qed.

Lemma run_without_links_witness :
  let W0 :=
    {| environ := environ Sample.world;
       quote := quote Sample.world;
       search_api := fun _ _ => Ok ReplyZeroResults;
       http_get := http_get Sample.world;
       Memory_new := Memory_new Sample.world;
       Memory_save := Memory_save Sample.world;
       Memory_search := Memory_search Sample.world;
       chat_api := chat_api Sample.world;
       repr_result := repr_result Sample.world |} in
  Ask_init W0 (Some (get_logger (opt_log_level Sample.options))) []
  = (Ok Sample.ask, [])
  /\ exists ext res,
       search_extract_summarize W0 Sample.options [] = (res, ext)
       /\ ~ In CallGet (view call_of ext)
       /\ view retrievals ext = [("what", 10)].
Proof.
  intros W0.
  assert (HAsk : Ask_init W0 (Some (get_logger (opt_log_level Sample.options))) []
                 = (Ok Sample.ask, [])) by reflexivity.
  split; [exact HAsk|].
  destruct (run_without_links W0 Sample.options [] Sample.ask HAsk I)
    as (ext & res & Hrun & Hget & _ & _ & Hretr & _).
  exists ext, res. split; [exact Hrun|]. split; [exact Hget | exact Hretr].
Defined.

(** X19: when the search raises, on an exception of the request or on a
    reply with an error or without search information, the run raises:
    no page is requested, nothing is saved, the model is not called and
    nothing is printed; the only call made is the search request. *)
Theorem run_with_failed_search {M : Type} (W : World M) (o : Options)
    (tr : list event) :
  (forall h url, search_fails (search_api W h url)) ->
  exists ext e,
    search_extract_summarize W o tr = (Raise e, tr ++ ext) /\
    (view call_of ext = [] \/ view call_of ext = [CallSearch]).
Proof.
  intros Hfail.
  destruct (search_extract_summarize_search_fails W o Hfail tr)
    as (ext & res & Hrun & Hpost).
  destruct res as [[]|e]; [destruct Hpost|].
  exists ext, e. split; [exact Hrun | exact Hpost].
Qed.

Lemma run_with_failed_search_witness :
  let W0 :=
    {| environ := environ Sample.world;
       quote := quote Sample.world;
       search_api := fun _ _ => Ok (ReplyError "quota");
       http_get := http_get Sample.world;
       Memory_new := Memory_new Sample.world;
       Memory_save := Memory_save Sample.world;
       Memory_search := Memory_search Sample.world;
       chat_api := chat_api Sample.world;
       repr_result := repr_result Sample.world |} in
  (forall h url, search_fails (search_api W0 h url))
  /\ exists ext e,
       search_extract_summarize W0 Sample.options [] = (Raise e, ext).
Proof.
  intros W0.
  assert (Hfail : forall h url, search_fails (search_api W0 h url))
    by (intros h url; exact I).
  split; [exact Hfail|].
  destruct (run_with_failed_search W0 Sample.options [] Hfail)
    as (ext & e & Hrun & _).
  exists ext, e. exact Hrun.
Defined.

(** ** The texts the pipeline fragments *)

Lemma normalize_join (s : string) :
  normalize s = String.concat " " (split s).
Proof.
  unfold normalize, strip.
  now rewrite rstrip_join, lstrip_join by apply split_words.
Qed.

(** X20: every text of the mapping [scrape_urls] returns is in normal
    form: it is made of words joined by single spaces, and normalising it
    again gives the same text. *)
Theorem scraped_texts_normalised {M : Type} (W : World M) (self : Ask M)
    (urls : list string) (tr : list event) :
  exists res ext,
    scrape_urls W self urls tr = (Ok res, tr ++ ext) /\
    forall url text,
      Py.get res url = Some text ->
      normalize text = text /\
      text = String.concat " " (split text) /\
      Forall is_word (split text).
Proof.
  unfold scrape_urls.
  destruct (scrape_loop_spec W self urls [] tr)
    as (res & ext & Hrun & _ & _ & _ & _ & _ & Hfrom & _).
  exists res, ext. split; [exact Hrun|].
  intros url text Hres.
  destruct (Hfrom url text Hres) as [Hnil|(h & body & _ & ->)]; [discriminate|].
  assert (Hfix : normalize (normalize body) = normalize body).
  { rewrite (normalize_join (normalize body)), (normalize_join body).
    now rewrite split_join by apply split_words. }
  split; [exact Hfix|]. split.
  - rewrite <- normalize_join. symmetry. exact Hfix.
  - apply split_words.
Qed.
